(** * Latent Loop: the client side of the incremental document-update pipeline

    A shallow embedding of the browser code of the Latent Loop note viewer:
    the heading detection of [detectNewSection], the replay queue of
    [processNextUpdate], the SSE message handler of [connectSSE], the header
    matching of [findHeaderElement] and of the React [MarkdownRenderer], and
    the [onstop] handler of the audio recorder.

    Two viewers live in the repository and both are modelled:
    - the React hook ([frontend/hooks/useLatentLoop.ts],
      [frontend/hooks/useRecording.ts],
      [frontend/components/MarkdownRenderer.tsx]), in the modules [Hook],
      [Renderer] and [Recording];
    - the plain JavaScript page ([backend/static/js/rendering.js],
      [version2/static/js/api.js], [version2/static/js/recording.js]), in
      the modules [Legacy] and [LegacyRecording]. *)

From Stdlib Require Import List Bool Arith NArith ZArith Lia String Ascii QArith.
From Stdlib Require Import Sorted.
Import ListNotations.
Close Scope Q_scope.
Open Scope nat_scope.

(* ================================================================= *)
(** * JavaScript strings *)
(* ================================================================= *)

(** A JavaScript string is a sequence of UTF-16 code units. *)
Module JS.

Definition codeunit := N.
Definition jsstring := list codeunit.

(** An ASCII literal as a JavaScript string. *)
Definition str (s : string) : jsstring :=
  map N_of_ascii (list_ascii_of_string s).

(** [a === b] on strings. *)
Fixpoint streq (a b : jsstring) : bool :=
  match a, b with
  | [], [] => true
  | x :: a', y :: b' => N.eqb x y && streq a' b'
  | _, _ => false
  end.

(** ECMAScript LineTerminator: LF, CR, LS, PS.  The regular expression dot
    excludes exactly these, and with the [m] flag [^] and [$] look at them. *)
Definition isLineTerminator (c : codeunit) : bool :=
  (N.eqb c 10 || N.eqb c 13 || N.eqb c 8232 || N.eqb c 8233)%N.

(** ECMAScript WhiteSpace and LineTerminator: the class [\s], and what
    [String.prototype.trim] strips. *)
Definition isWhiteSpace (c : codeunit) : bool :=
  ((N.leb 9 c && N.leb c 13) || N.eqb c 32 || N.eqb c 160 || N.eqb c 5760
   || (N.leb 8192 c && N.leb c 8202) || N.eqb c 8232 || N.eqb c 8233
   || N.eqb c 8239 || N.eqb c 8287 || N.eqb c 12288 || N.eqb c 65279)%N.

Fixpoint takeWhile (p : codeunit -> bool) (s : jsstring) : jsstring :=
  match s with
  | [] => []
  | c :: s' => if p c then c :: takeWhile p s' else []
  end.

Fixpoint dropWhile (p : codeunit -> bool) (s : jsstring) : jsstring :=
  match s with
  | [] => []
  | c :: s' => if p c then dropWhile p s' else s
  end.

(** [s.trim()] *)
Definition trim (s : jsstring) : jsstring :=
  rev (dropWhile isWhiteSpace (rev (dropWhile isWhiteSpace s))).

(** [s.startsWith(p)] *)
Fixpoint startsWith (s p : jsstring) : bool :=
  match p, s with
  | [], _ => true
  | y :: p', x :: s' => N.eqb x y && startsWith s' p'
  | _ :: _, [] => false
  end.

(** [s.includes(p)], the same as [s.indexOf(p) !== -1]. *)
Fixpoint includes (s p : jsstring) : bool :=
  startsWith s p ||
  match s with
  | [] => false
  | _ :: s' => includes s' p
  end.

(** [toLowerCase] on the ASCII letters; it stands for
    [String.prototype.toLowerCase] where a text is all ASCII. *)
Definition lowerASCII (c : codeunit) : codeunit :=
  if (N.leb 65 c && N.leb c 90)%N then (c + 32)%N else c.

Definition toLowerASCII (s : jsstring) : jsstring := map lowerASCII s.

(** Truthiness of a value of type [string | null | undefined]. *)
Definition truthy (v : option jsstring) : bool :=
  match v with
  | Some (_ :: _) => true
  | _ => false
  end.

(** [a || b] on such values. *)
Definition orElse (a b : option jsstring) : option jsstring :=
  if truthy a then a else b.

End JS.
Import JS.

(* ================================================================= *)
(** * Heading detection: [detectNewSection] *)
(* ================================================================= *)

(** The regular expression [/^#{1,3}\s+(.+)$/gm], matched the way a
    backtracking engine matches it. *)
Module HeaderRegex.

Definition hash : codeunit := 35%N.

(** [(.+)$]: the dot takes every code unit up to the next line terminator;
    [$] holds there.  The group must not be empty. *)
Definition matchGroup (u : jsstring) : option jsstring :=
  match takeWhile (fun c => negb (isLineTerminator c)) u with
  | [] => None
  | g => Some g
  end.

(** [\s+(.+)$] with [\s+] having taken [j] code units of [t]: the group is
    tried after [j], then after [j-1], ... down to one white space. *)
Fixpoint matchSpaces (j : nat) (t : jsstring) : option (nat * jsstring) :=
  match j with
  | 0 => None
  | S j' =>
      match matchGroup (skipn j t) with
      | Some g => Some (j, g)
      | None => matchSpaces j' t
      end
  end.

(** The longest run of white space at the head of [t]: what greedy [\s+]
    takes first. *)
Definition spaceRun (t : jsstring) : nat :=
  List.length (takeWhile isWhiteSpace t).

(** [#{k}\s+(.+)$] at the head of [s], for [k], then [k-1], ... down to one
    hash.  The result is the length of the whole match and the group. *)
Fixpoint matchHashes (k : nat) (s : jsstring) : option (nat * jsstring) :=
  match k with
  | 0 => None
  | S k' =>
      if (List.length (firstn k s) =? k) && forallb (N.eqb hash) (firstn k s)
      then
        match matchSpaces (spaceRun (skipn k s)) (skipn k s) with
        | Some (j, g) => Some (k + j + List.length g, g)
        | None => matchHashes k' s
        end
      else matchHashes k' s
  end.

(** The pattern tried at a position where [^] holds. *)
Definition matchAt (s : jsstring) : option (nat * jsstring) :=
  matchHashes 3 s.

(** The groups of the successive [headerRegex.exec(s)] calls of the [while]
    loop, until [exec] returns [null].  [bol] says that [^] holds at the
    head of [s] (start of input, or the code unit before is a line
    terminator); [skip] counts the code units of the match just reported
    that [lastIndex] has still to pass. *)
Fixpoint execAll (skip : nat) (bol : bool) (s : jsstring) : list jsstring :=
  match s with
  | [] => []
  | c :: rest =>
      match skip with
      | S n => execAll n (isLineTerminator c) rest
      | 0 =>
          match (if bol then matchAt s else None) with
          | Some (len, g) => g :: execAll (len - 1) (isLineTerminator c) rest
          | None => execAll 0 (isLineTerminator c) rest
          end
      end
  end.

End HeaderRegex.

(** The array the [while] loop of [detectNewSection] builds from a text:
    [headers.push(match[1].trim())] for every match. *)
Definition headersOf (content : jsstring) : list jsstring :=
  map trim (HeaderRegex.execAll 0 true content).

(** [headers.includes(h)], the same as [headers.indexOf(h) !== -1]. *)
Fixpoint arrayIncludes (headers : list jsstring) (h : jsstring) : bool :=
  match headers with
  | [] => false
  | x :: rest => streq x h || arrayIncludes rest h
  end.

(** The final [for] loop of [detectNewSection]. *)
Fixpoint firstNotIn (oldHeaders newHeaders : list jsstring) : option jsstring :=
  match newHeaders with
  | [] => None
  | header :: rest =>
      if negb (arrayIncludes oldHeaders header) then Some header
      else firstNotIn oldHeaders rest
  end.

(** [detectNewSection(oldContent, newContent)]; the same function stands in
    [useLatentLoop.ts] and in [rendering.js]. *)
Definition detectNewSection (oldContent newContent : jsstring) : option jsstring :=
  firstNotIn (headersOf oldContent) (headersOf newContent).

(* ================================================================= *)
(** * The wire format: [frontend/lib/types.ts] *)
(* ================================================================= *)

Module Wire.

Record TranscriptItem := {
  text : jsstring;
  said_at : jsstring                  (* [timestamp] *)
}.

Record PendingUpdate := {
  id : jsstring;
  spoken : jsstring;                  (* [transcript] *)
  matched_section : option jsstring;
  similarity : Q;
  suggested_action : jsstring;
  reason : jsstring;
  created_at : jsstring               (* [timestamp] *)
}.

Record ChangeInfo := {
  target_section : option jsstring;
  changed_lines : option (list nat);
  added_lines : option (list nat);
  total_changes : option nat
}.

(** [data.type]; [other] stands for any value outside the four tags. *)
Inductive MsgType := init | file_updated | pending_update | pending_resolved | other.

(** [pending?: PendingUpdate[] | PendingUpdate] *)
Inductive PendingField :=
| PendingArray (l : list PendingUpdate)
| PendingObject (p : PendingUpdate).

Record SSEData := {
  type : MsgType;
  content : option jsstring;
  transcript : option (list TranscriptItem);
  pending : option PendingField;
  pending_id : option jsstring;
  section : option jsstring;
  change_info : option ChangeInfo
}.

(** [data.change_info?.target_section] *)
Definition change_info_target (data : SSEData) : option jsstring :=
  match change_info data with
  | Some ci => target_section ci
  | None => None
  end.

(** [!sectionName || sectionName === 'None'] *)
Definition missingOrNone (sectionName : option jsstring) : bool :=
  negb (truthy sectionName) ||
  match sectionName with
  | Some s => streq s (str "None")
  | None => false
  end.

(** A name the viewers take as given: neither missing, nor empty, nor the
    string 'None'. *)
Definition usable (sectionName : option jsstring) : bool :=
  negb (missingOrNone sectionName).

(** [p => p.id !== data.pending_id] *)
Definition otherId (pid : option jsstring) (p : PendingUpdate) : bool :=
  match pid with
  | Some i => negb (streq (id p) i)
  | None => true
  end.

End Wire.
Import Wire.

(* ================================================================= *)
(** * Timers, the clock and the observable history *)
(* ================================================================= *)

(** What a viewer does that a user can see, stamped with the clock.  The
    history is ghost state: the code keeps no such list, each entry is
    written where the code changes what is on screen. *)
Inductive Event :=
| Swapped (t : nat) (body : jsstring)        (* the document on screen is replaced *)
| AnimStart (t : nat) (heading : jsstring)   (* a section starts to glow *)
| AnimEnd (t : nat).                         (* the glow is taken off *)

Definition eventTime (e : Event) : nat :=
  match e with
  | Swapped t _ => t
  | AnimStart t _ => t
  | AnimEnd t => t
  end.

(** [console.error('SSE parse error:', e)] *)
Inductive ConsoleLine := SSE_parse_error (payload : jsstring).

(** What the event loop hands to a viewer: an SSE message, a timer of the
    pending list that has come due, or the passing of time. *)
Inductive Action :=
| Deliver (payload : jsstring)
| Fire (i : nat)
| Tick (ms : nat).

Fixpoint removeNth {A} (i : nat) (l : list A) : list A :=
  match l, i with
  | [], _ => []
  | _ :: l', 0 => l'
  | x :: l', S i' => x :: removeNth i' l'
  end.

(* ================================================================= *)
(** * The React hook: [frontend/hooks/useLatentLoop.ts] *)
(* ================================================================= *)

Module Hook.

Record UpdateQueueItem := {
  oldContent : jsstring;
  newContent : jsstring;
  sectionName : option jsstring;
  timestamp : nat
}.

(** The two closures the hook hands to [setTimeout]. *)
Inductive Callback :=
| AnimationDone (update : UpdateQueueItem)   (* the 500 ms closure of [processNextUpdate] *)
| ProcessNext.                               (* [processNextUpdate] itself, after 100 ms *)

Record State := {
  markdownContent : jsstring;
  pendingUpdates : list PendingUpdate;
  transcript : list TranscriptItem;
  animatingSection : option jsstring;
  updateQueue : list UpdateQueueItem;        (* [updateQueueRef.current] *)
  isProcessing : bool;                       (* [isProcessingRef.current] *)
  displayedContent : jsstring;               (* [displayedContentRef.current] *)
  timers : list (nat * Callback);            (* pending timeouts with their due time *)
  now : nat;                                 (* the clock, in ms *)
  console : list ConsoleLine;
  history : list Event                       (* ghost *)
}.

Definition setMarkdownContent v st :=
  {| markdownContent := v; pendingUpdates := pendingUpdates st;
     transcript := transcript st; animatingSection := animatingSection st;
     updateQueue := updateQueue st; isProcessing := isProcessing st;
     displayedContent := displayedContent st; timers := timers st;
     now := now st; console := console st; history := history st |}.

Definition setPendingUpdates v st :=
  {| markdownContent := markdownContent st; pendingUpdates := v;
     transcript := transcript st; animatingSection := animatingSection st;
     updateQueue := updateQueue st; isProcessing := isProcessing st;
     displayedContent := displayedContent st; timers := timers st;
     now := now st; console := console st; history := history st |}.

Definition setTranscript v st :=
  {| markdownContent := markdownContent st; pendingUpdates := pendingUpdates st;
     transcript := v; animatingSection := animatingSection st;
     updateQueue := updateQueue st; isProcessing := isProcessing st;
     displayedContent := displayedContent st; timers := timers st;
     now := now st; console := console st; history := history st |}.

Definition setAnimatingSection v st :=
  {| markdownContent := markdownContent st; pendingUpdates := pendingUpdates st;
     transcript := transcript st; animatingSection := v;
     updateQueue := updateQueue st; isProcessing := isProcessing st;
     displayedContent := displayedContent st; timers := timers st;
     now := now st; console := console st; history := history st |}.

Definition setUpdateQueue v st :=
  {| markdownContent := markdownContent st; pendingUpdates := pendingUpdates st;
     transcript := transcript st; animatingSection := animatingSection st;
     updateQueue := v; isProcessing := isProcessing st;
     displayedContent := displayedContent st; timers := timers st;
     now := now st; console := console st; history := history st |}.

Definition setIsProcessing v st :=
  {| markdownContent := markdownContent st; pendingUpdates := pendingUpdates st;
     transcript := transcript st; animatingSection := animatingSection st;
     updateQueue := updateQueue st; isProcessing := v;
     displayedContent := displayedContent st; timers := timers st;
     now := now st; console := console st; history := history st |}.

Definition setDisplayedContent v st :=
  {| markdownContent := markdownContent st; pendingUpdates := pendingUpdates st;
     transcript := transcript st; animatingSection := animatingSection st;
     updateQueue := updateQueue st; isProcessing := isProcessing st;
     displayedContent := v; timers := timers st;
     now := now st; console := console st; history := history st |}.

Definition setTimers v st :=
  {| markdownContent := markdownContent st; pendingUpdates := pendingUpdates st;
     transcript := transcript st; animatingSection := animatingSection st;
     updateQueue := updateQueue st; isProcessing := isProcessing st;
     displayedContent := displayedContent st; timers := v;
     now := now st; console := console st; history := history st |}.

Definition setNow v st :=
  {| markdownContent := markdownContent st; pendingUpdates := pendingUpdates st;
     transcript := transcript st; animatingSection := animatingSection st;
     updateQueue := updateQueue st; isProcessing := isProcessing st;
     displayedContent := displayedContent st; timers := timers st;
     now := v; console := console st; history := history st |}.

Definition setConsole v st :=
  {| markdownContent := markdownContent st; pendingUpdates := pendingUpdates st;
     transcript := transcript st; animatingSection := animatingSection st;
     updateQueue := updateQueue st; isProcessing := isProcessing st;
     displayedContent := displayedContent st; timers := timers st;
     now := now st; console := v; history := history st |}.

Definition setHistory v st :=
  {| markdownContent := markdownContent st; pendingUpdates := pendingUpdates st;
     transcript := transcript st; animatingSection := animatingSection st;
     updateQueue := updateQueue st; isProcessing := isProcessing st;
     displayedContent := displayedContent st; timers := timers st;
     now := now st; console := console st; history := v |}.

(** Ghost: one more entry of the history. *)
Definition observe (e : Event) (st : State) : State :=
  setHistory (history st ++ [e]) st.

(** [setTimeout(cb, delay)] *)
Definition setTimeout (cb : Callback) (delay : nat) (st : State) : State :=
  setTimers (timers st ++ [(now st + delay, cb)]) st.

(** [if (updateQueueRef.current.length > 0) setTimeout(processNextUpdate, 100)] *)
Definition scheduleNext (st : State) : State :=
  if 0 <? List.length (updateQueue st) then setTimeout ProcessNext 100 st else st.

(** [processNextUpdate], lines 54-79. *)
Definition processNextUpdate (st : State) : State :=
  if isProcessing st || (List.length (updateQueue st) =? 0) then st
  else
    match updateQueue st with
    | [] => st
    | update :: rest =>
        let st := setIsProcessing true st in
        let st := setUpdateQueue rest st in
        let st := setMarkdownContent (newContent update) st in
        let st := observe (Swapped (now st) (newContent update)) st in
        match sectionName update with
        | Some (c :: name) =>
            let st := setAnimatingSection (Some (c :: name)) st in
            let st := observe (AnimStart (now st) (c :: name)) st in
            setTimeout (AnimationDone update) 500 st
        | _ =>
            let st := setIsProcessing false st in
            let st := setDisplayedContent (newContent update) st in
            scheduleNext st
        end
    end.

(** The closure [processNextUpdate] arms for 500 ms, lines 64-71. *)
Definition animationDone (update : UpdateQueueItem) (st : State) : State :=
  let st := setAnimatingSection None st in
  let st := observe (AnimEnd (now st)) st in
  let st := setIsProcessing false st in
  let st := setDisplayedContent (newContent update) st in
  scheduleNext st.

(** [scheduleFileUpdate], lines 82-90. *)
Definition scheduleFileUpdate (old new : jsstring) (name : option jsstring)
    (st : State) : State :=
  let item := {| oldContent := old; newContent := new; sectionName := name;
                 timestamp := now st |} in
  processNextUpdate (setUpdateQueue (updateQueue st ++ [item]) st).

(** [displayedContentRef.current || markdownContent] *)
Definition baseline (st : State) : jsstring :=
  match displayedContent st with
  | [] => markdownContent st
  | d => d
  end.

(** [data.content || ''] *)
Definition contentOf (data : SSEData) : jsstring :=
  match content data with
  | Some c => c
  | None => []
  end.

(** The value of [sectionName] when [handleFileUpdated] calls
    [scheduleFileUpdate], lines 97-105. *)
Definition resolveSection (data : SSEData) (old new : jsstring) : option jsstring :=
  let sectionName := orElse (section data) None in
  let sectionName :=
    if missingOrNone sectionName then orElse (change_info_target data) None
    else sectionName in
  if missingOrNone sectionName then detectNewSection old new else sectionName.

(** [handleFileUpdated], lines 93-108. *)
Definition handleFileUpdated (data : SSEData) (st : State) : State :=
  let old := baseline st in
  let new := contentOf data in
  scheduleFileUpdate old new (resolveSection data old new) st.

Section Stream.

(** [JSON.parse(event.data)]: [None] when it throws. *)
Variable JSON_parse : jsstring -> option SSEData.

(** [evtSource.onmessage], lines 124-145. *)
Definition onmessage (payload : jsstring) (st : State) : State :=
  match JSON_parse payload with
  | None => setConsole (console st ++ [SSE_parse_error payload]) st
  | Some data =>
      match type data with
      | init =>
          let st := setMarkdownContent (contentOf data) st in
          let st := setDisplayedContent (contentOf data) st in
          let st := setPendingUpdates
                      (match pending data with
                       | Some (PendingArray l) => l
                       | _ => []
                       end) st in
          match Wire.transcript data with
          | Some t => setTranscript t st
          | None => st
          end
      | file_updated => handleFileUpdated data st
      | pending_update =>
          match pending data with
          | Some (PendingObject p) => setPendingUpdates (pendingUpdates st ++ [p]) st
          | _ => st
          end
      | pending_resolved =>
          setPendingUpdates (filter (otherId (pending_id data)) (pendingUpdates st)) st
      | other => st
      end
  end.

(** A timer callback runs. *)
Definition runCallback (cb : Callback) (st : State) : State :=
  match cb with
  | AnimationDone update => animationDone update st
  | ProcessNext => processNextUpdate st
  end.

(** One turn of the event loop.  A timer fires only once it is due, at
    that time or later, and the timers that are due fire in any order; an
    action that cannot happen leaves the state as it is.  What
    [loadInitialState] does after a reconnect is what an [init] message
    does. *)
Definition step (st : State) (a : Action) : State :=
  match a with
  | Deliver payload => onmessage payload st
  | Fire i =>
      match nth_error (timers st) i with
      | Some (due, cb) =>
          if due <=? now st then runCallback cb (setTimers (removeNth i (timers st)) st)
          else st
      | None => st
      end
  | Tick ms => setNow (now st + ms) st
  end.

Definition run (st : State) (acts : list Action) : State :=
  fold_left step acts st.

End Stream.

(** The hook after [loadInitialState], showing [body]. *)
Definition start (body : jsstring) : State :=
  {| markdownContent := body; pendingUpdates := []; transcript := [];
     animatingSection := None; updateQueue := []; isProcessing := false;
     displayedContent := body; timers := []; now := 0; console := [];
     history := [] |}.

End Hook.

(* ================================================================= *)
(** * Matching a heading name against the rendered headers *)
(* ================================================================= *)

Module Matching.
Section Lower.

(** [String.prototype.toLowerCase] *)
Variable toLowerCase : jsstring -> jsstring.

(** The score [findHeaderElement] gives a header text, [rendering.js]
    lines 113-121. *)
Definition score (text search : jsstring) : Z :=
  if streq text search then 100%Z
  else if startsWith text search || startsWith search text then 50%Z
  else if includes text search || includes search text then 10%Z
  else 0%Z.

(** The score of the header [h] for a search string: the loop scores the
    lowered and trimmed text of the header. *)
Definition scoreOf (search h : jsstring) : Z :=
  score (trim (toLowerCase h)) search.

(** The [headers.forEach] loop of [findHeaderElement]: [i] is the index of
    the head of [headers] in the NodeList, [best] is
    [(bestMatch, bestScore)]. *)
Fixpoint forEachHeader (search : jsstring) (headers : list jsstring) (i : nat)
    (best : option nat * Z) : option nat * Z :=
  match headers with
  | [] => best
  | h :: rest =>
      let text := trim (toLowerCase h) in
      let sc := score text search in
      forEachHeader search rest (S i)
        (if (snd best <? sc)%Z then (Some i, sc) else best)
  end.

(** [findHeaderElement(sectionName)], [rendering.js] lines 104-131, over
    the text contents of [querySelectorAll('h1, h2, h3')] in document
    order.  A header element is its index in that list. *)
Definition findHeaderElement (sectionName : option jsstring)
    (headers : list jsstring) : option nat :=
  match sectionName with
  | Some (c :: name) =>
      let search := trim (toLowerCase (c :: name)) in
      let best := forEachHeader search headers 0 (None, (-1)%Z) in
      if (0 <? snd best)%Z then fst best else None
  | _ => None
  end.

(** [isMatch] of the React renderer, [MarkdownRenderer.tsx] lines 28-35. *)
Definition isMatch (text search : jsstring) : bool :=
  if streq text search then true
  else if startsWith text search || startsWith search text then true
  else if includes text search || includes search text then true
  else false.

(** The [headers.forEach] loop of the React renderer: the indices of the
    headers it gives the class [glow-green]. *)
Fixpoint glowEach (search : jsstring) (headers : list jsstring) (i : nat) : list nat :=
  match headers with
  | [] => []
  | h :: rest =>
      let text := trim (toLowerCase h) in
      if isMatch text search then i :: glowEach search rest (S i)
      else glowEach search rest (S i)
  end.

(** The effect of [MarkdownRenderer], lines 21-60: the headers that glow
    for a given [animatingSection]. *)
Definition highlighted (animatingSection : option jsstring)
    (headers : list jsstring) : list nat :=
  match animatingSection with
  | Some (c :: name) => glowEach (trim (toLowerCase (c :: name))) headers 0
  | _ => []
  end.

End Lower.
End Matching.

(* ================================================================= *)
(** * The plain page: [rendering.js] and [api.js] *)
(* ================================================================= *)

Module Legacy.

Definition GLOW_DURATION : nat := 500.

Record UpdateQueueItem := {
  oldContent : jsstring;
  newContent : jsstring;
  sectionName : option jsstring;
  timestamp : nat
}.

(** The closures the page hands to [scheduleTimeout]. *)
Inductive Callback :=
| GlowDone (header : nat)     (* the closure of [animateSection], lines 168-172 *)
| ProcessNext.                (* [processNextUpdate], after 100 ms *)

Record State := {
  markdownContent : jsstring;
  pendingUpdates : list PendingUpdate;
  updateQueue : list UpdateQueueItem;
  isProcessingQueue : bool;
  displayedContent : jsstring;
  rendered : jsstring;   (* the text whose HTML stands in [markdownContentEl] *)
  glowing : list nat;   (* the headers of the page that carry [glow-green] *)
  transcriptShown : list TranscriptItem;   (* what [renderTranscript] last drew *)
  timers : list (nat * Callback);   (* [activeTimeouts], with due time and closure *)
  now : nat;
  console : list ConsoleLine;
  history : list Event   (* ghost *)
}.

Definition setMarkdownContent v st :=
  {| markdownContent := v; pendingUpdates := pendingUpdates st;
     updateQueue := updateQueue st;
     isProcessingQueue := isProcessingQueue st;
     displayedContent := displayedContent st; rendered := rendered st;
     glowing := glowing st; transcriptShown := transcriptShown st;
     timers := timers st; now := now st; console := console st;
     history := history st |}.

Definition setPendingUpdates v st :=
  {| markdownContent := markdownContent st; pendingUpdates := v;
     updateQueue := updateQueue st;
     isProcessingQueue := isProcessingQueue st;
     displayedContent := displayedContent st; rendered := rendered st;
     glowing := glowing st; transcriptShown := transcriptShown st;
     timers := timers st; now := now st; console := console st;
     history := history st |}.

Definition setUpdateQueue v st :=
  {| markdownContent := markdownContent st;
     pendingUpdates := pendingUpdates st; updateQueue := v;
     isProcessingQueue := isProcessingQueue st;
     displayedContent := displayedContent st; rendered := rendered st;
     glowing := glowing st; transcriptShown := transcriptShown st;
     timers := timers st; now := now st; console := console st;
     history := history st |}.

Definition setIsProcessingQueue v st :=
  {| markdownContent := markdownContent st;
     pendingUpdates := pendingUpdates st; updateQueue := updateQueue st;
     isProcessingQueue := v; displayedContent := displayedContent st;
     rendered := rendered st; glowing := glowing st;
     transcriptShown := transcriptShown st; timers := timers st;
     now := now st; console := console st; history := history st |}.

Definition setDisplayedContent v st :=
  {| markdownContent := markdownContent st;
     pendingUpdates := pendingUpdates st; updateQueue := updateQueue st;
     isProcessingQueue := isProcessingQueue st; displayedContent := v;
     rendered := rendered st; glowing := glowing st;
     transcriptShown := transcriptShown st; timers := timers st;
     now := now st; console := console st; history := history st |}.

Definition setRendered v st :=
  {| markdownContent := markdownContent st;
     pendingUpdates := pendingUpdates st; updateQueue := updateQueue st;
     isProcessingQueue := isProcessingQueue st;
     displayedContent := displayedContent st; rendered := v;
     glowing := glowing st; transcriptShown := transcriptShown st;
     timers := timers st; now := now st; console := console st;
     history := history st |}.

Definition setGlowing v st :=
  {| markdownContent := markdownContent st;
     pendingUpdates := pendingUpdates st; updateQueue := updateQueue st;
     isProcessingQueue := isProcessingQueue st;
     displayedContent := displayedContent st; rendered := rendered st;
     glowing := v; transcriptShown := transcriptShown st;
     timers := timers st; now := now st; console := console st;
     history := history st |}.

Definition setTranscriptShown v st :=
  {| markdownContent := markdownContent st;
     pendingUpdates := pendingUpdates st; updateQueue := updateQueue st;
     isProcessingQueue := isProcessingQueue st;
     displayedContent := displayedContent st; rendered := rendered st;
     glowing := glowing st; transcriptShown := v; timers := timers st;
     now := now st; console := console st; history := history st |}.

Definition setTimers v st :=
  {| markdownContent := markdownContent st;
     pendingUpdates := pendingUpdates st; updateQueue := updateQueue st;
     isProcessingQueue := isProcessingQueue st;
     displayedContent := displayedContent st; rendered := rendered st;
     glowing := glowing st; transcriptShown := transcriptShown st;
     timers := v; now := now st; console := console st;
     history := history st |}.

Definition setNow v st :=
  {| markdownContent := markdownContent st;
     pendingUpdates := pendingUpdates st; updateQueue := updateQueue st;
     isProcessingQueue := isProcessingQueue st;
     displayedContent := displayedContent st; rendered := rendered st;
     glowing := glowing st; transcriptShown := transcriptShown st;
     timers := timers st; now := v; console := console st;
     history := history st |}.

Definition setConsole v st :=
  {| markdownContent := markdownContent st;
     pendingUpdates := pendingUpdates st; updateQueue := updateQueue st;
     isProcessingQueue := isProcessingQueue st;
     displayedContent := displayedContent st; rendered := rendered st;
     glowing := glowing st; transcriptShown := transcriptShown st;
     timers := timers st; now := now st; console := v;
     history := history st |}.

Definition setHistory v st :=
  {| markdownContent := markdownContent st;
     pendingUpdates := pendingUpdates st; updateQueue := updateQueue st;
     isProcessingQueue := isProcessingQueue st;
     displayedContent := displayedContent st; rendered := rendered st;
     glowing := glowing st; transcriptShown := transcriptShown st;
     timers := timers st; now := now st; console := console st;
     history := v |}.

Definition observe (e : Event) (st : State) : State :=
  setHistory (history st ++ [e]) st.

(** [scheduleTimeout(fn, delay)], lines 26-34. *)
Definition scheduleTimeout (cb : Callback) (delay : nat) (st : State) : State :=
  setTimers (timers st ++ [(now st + delay, cb)]) st.

(** [renderMarkdownBase], lines 14-19: a fresh DOM, and the baseline is
    overwritten. *)
Definition renderMarkdownBase (st : State) : State :=
  let st := setRendered (markdownContent st) st in
  let st := setGlowing [] st in
  setDisplayedContent (markdownContent st) st.

(** [finishProcessing], lines 67-73. *)
Definition finishProcessing (st : State) : State :=
  let st := setIsProcessingQueue false st in
  let st := setDisplayedContent (markdownContent st) st in
  if 0 <? List.length (updateQueue st) then scheduleTimeout ProcessNext 100 st
  else st.

Section Page.

Variable toLowerCase : jsstring -> jsstring.

(** The text contents of the [h1], [h2] and [h3] elements of
    [marked.parse(text)], in document order. *)
Variable headings : jsstring -> list jsstring.

(** [JSON.parse(event.data)]: [None] when it throws. *)
Variable JSON_parse : jsstring -> option SSEData.

(** The header [animateSection] settles on, lines 146-153. *)
Definition targetHeader (name : option jsstring) (st : State) : option nat :=
  let hs := headings (rendered st) in
  match Matching.findHeaderElement toLowerCase name hs with
  | Some h => Some h
  | None =>
      let detectedName := detectNewSection (displayedContent st) (markdownContent st) in
      Matching.findHeaderElement toLowerCase detectedName hs
  end.

(** [animateSection(sectionName, finishProcessing)], lines 145-173. *)
Definition animateSection (name : option jsstring) (st : State) : State :=
  match targetHeader name st with
  | None => finishProcessing st
  | Some h =>
      let st := setGlowing (h :: glowing st) st in
      let st := observe (AnimStart (now st) (nth h (headings (rendered st)) [])) st in
      scheduleTimeout (GlowDone h) GLOW_DURATION st
  end.

(** The closure of [animateSection], lines 168-172. *)
Definition glowDone (h : nat) (st : State) : State :=
  let st := setGlowing (filter (fun x => negb (x =? h)) (glowing st)) st in
  let st := observe (AnimEnd (now st)) st in
  finishProcessing st.

(** [processNextUpdate], lines 47-65. *)
Definition processNextUpdate (st : State) : State :=
  if isProcessingQueue st || (List.length (updateQueue st) =? 0) then st
  else
    match updateQueue st with
    | [] => st
    | update :: rest =>
        let st := setIsProcessingQueue true st in
        let st := setUpdateQueue rest st in
        let st := setMarkdownContent (newContent update) st in
        let st := renderMarkdownBase st in
        let st := observe (Swapped (now st) (newContent update)) st in
        if truthy (sectionName update) then animateSection (sectionName update) st
        else finishProcessing st
    end.

(** [scheduleFileUpdate], lines 37-45. *)
Definition scheduleFileUpdate (old new : jsstring) (name : option jsstring)
    (st : State) : State :=
  let item := {| oldContent := old; newContent := new; sectionName := name;
                 timestamp := now st |} in
  processNextUpdate (setUpdateQueue (updateQueue st ++ [item]) st).

(** [data.content] of an [init] or [file_updated] event.  The server puts
    the document in every such event; an event without it is read as
    carrying the empty document. *)
Definition contentOf (data : SSEData) : jsstring :=
  match content data with
  | Some c => c
  | None => []
  end.

(** The value of [sectionName] when [handleFileUpdated] calls
    [scheduleFileUpdate], [api.js] lines 49-57. *)
Definition resolveSection (data : SSEData) (old new : jsstring) : option jsstring :=
  let sectionName := section data in
  let sectionName :=
    if missingOrNone sectionName then change_info_target data else sectionName in
  if missingOrNone sectionName then detectNewSection old new else sectionName.

(** [handleFileUpdated], [api.js] lines 44-63. *)
Definition handleFileUpdated (data : SSEData) (st : State) : State :=
  let old := markdownContent st in
  let new := contentOf data in
  scheduleFileUpdate old new (resolveSection data old new) st.

(** [evtSource.onmessage], [api.js] lines 14-36.  The payloads are those of
    [types.ts]: [init] carries an array in [pending] (or nothing),
    [pending_update] carries one object. *)
Definition onmessage (payload : jsstring) (st : State) : State :=
  match JSON_parse payload with
  | None => setConsole (console st ++ [SSE_parse_error payload]) st
  | Some data =>
      match type data with
      | init =>
          let st := setMarkdownContent (contentOf data) st in
          let st := setPendingUpdates
                      (match pending data with
                       | Some (PendingArray l) => l
                       | _ => []
                       end) st in
          let st := renderMarkdownBase st in
          setTranscriptShown
            (match Wire.transcript data with Some t => t | None => [] end) st
      | file_updated => handleFileUpdated data st
      | pending_update =>
          match pending data with
          | Some (PendingObject p) => setPendingUpdates (pendingUpdates st ++ [p]) st
          | _ => st
          end
      | pending_resolved =>
          setPendingUpdates (filter (otherId (pending_id data)) (pendingUpdates st)) st
      | other => st
      end
  end.

Definition runCallback (cb : Callback) (st : State) : State :=
  match cb with
  | GlowDone h => glowDone h st
  | ProcessNext => processNextUpdate st
  end.

(** One turn of the event loop, as for the hook. *)
Definition step (st : State) (a : Action) : State :=
  match a with
  | Deliver payload => onmessage payload st
  | Fire i =>
      match nth_error (timers st) i with
      | Some (due, cb) =>
          if due <=? now st then runCallback cb (setTimers (removeNth i (timers st)) st)
          else st
      | None => st
      end
  | Tick ms => setNow (now st + ms) st
  end.

Definition run (st : State) (acts : list Action) : State :=
  fold_left step acts st.

End Page.

(** The page after [loadInitialState], showing [body]. *)
Definition start (body : jsstring) : State :=
  {| markdownContent := body; pendingUpdates := []; updateQueue := [];
     isProcessingQueue := false; displayedContent := body; rendered := body;
     glowing := []; transcriptShown := []; timers := []; now := 0;
     console := []; history := [] |}.

End Legacy.

(* ================================================================= *)
(** * The recorder: [useRecording.ts] and [recording.js] *)
(* ================================================================= *)

(** A [Blob] is its bytes; [blob.size] is their number. *)
Definition Blob := list Byte.byte.

Definition size (b : Blob) : nat := List.length b.

(** [new Blob(audioChunks, { type: 'audio/webm' })] *)
Definition assemble (audioChunks : list Blob) : Blob := List.concat audioChunks.

Module Recording.

Inductive Status := processing | queued | error.

(** The first argument of an [onTranscript] call. *)
Inductive Message :=
| Transcribing (chunkNum : nat)        (* [`Chunk #${chunkNum} transcribing...`] *)
| Transcription (text : jsstring)      (* [result.transcription] *)
| ErrorText (text : jsstring)          (* [result.error] *)
| FailedToProcess (chunkNum : nat).    (* [`Chunk #${chunkNum} failed to process`] *)

Record TranscriptCall := {
  message : Message;
  chunkNum : nat;
  status : Status
}.

Record State := {
  audioChunks : list Blob;               (* [audioChunksRef.current] *)
  chunkCounterRef : nat;                 (* [chunkCounterRef.current] *)
  chunkCounter : nat;
  processingCount : nat;
  requests : list (Blob * nat);          (* the [processAudio] calls made *)
  transcriptCalls : list TranscriptCall; (* the [onTranscript] calls made *)
  consoleErrors : list nat               (* [console.error], by chunk number *)
}.

(** [processChunkAsync(audioBlob, chunkNum)] up to its [await], lines 29-34:
    the request is on its way when the function yields. *)
Definition processChunkAsync (audioBlob : Blob) (n : nat) (st : State) : State :=
  {| audioChunks := audioChunks st;
     chunkCounterRef := chunkCounterRef st;
     chunkCounter := chunkCounter st;
     processingCount := processingCount st + 1;
     requests := requests st ++ [(audioBlob, n)];
     transcriptCalls := transcriptCalls st ++
       [{| message := Transcribing n; chunkNum := n; status := processing |}];
     consoleErrors := consoleErrors st |}.

(** [mediaRecorder.ondataavailable], lines 59-63. *)
Definition ondataavailable (data : Blob) (st : State) : State :=
  if 0 <? size data then
    {| audioChunks := audioChunks st ++ [data];
       chunkCounterRef := chunkCounterRef st;
       chunkCounter := chunkCounter st;
       processingCount := processingCount st;
       requests := requests st;
       transcriptCalls := transcriptCalls st;
       consoleErrors := consoleErrors st |}
  else st.

(** [mediaRecorder.onstop], lines 65-75. *)
Definition onstop (st : State) : State :=
  if 0 <? List.length (audioChunks st) then
    let n := chunkCounterRef st + 1 in
    let audioBlob := assemble (audioChunks st) in
    let st1 :=
      {| audioChunks := audioChunks st;
         chunkCounterRef := n;
         chunkCounter := n;
         processingCount := processingCount st;
         requests := requests st;
         transcriptCalls := transcriptCalls st;
         consoleErrors := consoleErrors st |} in
    let st2 := if 1000 <? size audioBlob then processChunkAsync audioBlob n st1
               else st1 in
    {| audioChunks := [];
       chunkCounterRef := chunkCounterRef st2;
       chunkCounter := chunkCounter st2;
       processingCount := processingCount st2;
       requests := requests st2;
       transcriptCalls := transcriptCalls st2;
       consoleErrors := consoleErrors st2 |}
  else st.

End Recording.

Module LegacyRecording.

(** The status of an item of the transcript list of the page. *)
Inductive Status := processing | queued | error.

Record TranscriptRow := {
  rowId : nat * nat;        (* [`chunk-${chunkNum}-${Date.now()}`] *)
  rowChunk : nat;           (* the chunk of [`Chunk #${chunkNum} transcribing...`] *)
  rowStatus : Status
}.

Record State := {
  audioChunks : list Blob;
  chunkCounter : nat;
  processingChunks : list (nat * nat);   (* the [Set] of transcript ids *)
  requests : list (Blob * nat);          (* the [fetch('/api/audio...')] calls made *)
  rows : list TranscriptRow;             (* the items of [transcriptContainer] *)
  clock : nat                            (* [Date.now()] *)
}.

(** [processChunkAsync(audioBlob, chunkNum)] up to its [await],
    [recording.js] lines 140-155. *)
Definition processChunkAsync (audioBlob : Blob) (n : nat) (st : State) : State :=
  let transcriptId := (n, clock st) in
  {| audioChunks := audioChunks st;
     chunkCounter := chunkCounter st;
     processingChunks :=
       if existsb (fun x => (fst x =? n) && (snd x =? clock st)) (processingChunks st)
       then processingChunks st
       else processingChunks st ++ [transcriptId];
     requests := requests st ++ [(audioBlob, n)];
     rows := rows st ++
       [{| rowId := transcriptId; rowChunk := n; rowStatus := processing |}];
     clock := clock st |}.

(** [mediaRecorder.ondataavailable], lines 87-91. *)
Definition ondataavailable (data : Blob) (st : State) : State :=
  if 0 <? size data then
    {| audioChunks := audioChunks st ++ [data];
       chunkCounter := chunkCounter st;
       processingChunks := processingChunks st;
       requests := requests st;
       rows := rows st;
       clock := clock st |}
  else st.

(** [mediaRecorder.onstop], lines 93-103. *)
Definition onstop (st : State) : State :=
  if 0 <? List.length (audioChunks st) then
    let n := chunkCounter st + 1 in
    let audioBlob := assemble (audioChunks st) in
    let st1 :=
      {| audioChunks := audioChunks st;
         chunkCounter := n;
         processingChunks := processingChunks st;
         requests := requests st;
         rows := rows st;
         clock := clock st |} in
    let st2 := if 1000 <? size audioBlob then processChunkAsync audioBlob n st1
               else st1 in
    {| audioChunks := [];
       chunkCounter := chunkCounter st2;
       processingChunks := processingChunks st2;
       requests := requests st2;
       rows := rows st2;
       clock := clock st2 |}
  else st.

End LegacyRecording.

(* ================================================================= *)
(** * The Match Classifier *)
(* ================================================================= *)

Module Classifier.

(** Modelled from the spec: the decision of the Match Classifier (section 3
    of the specification); the classifier is part of the server, whose
    code is not among the sources. *)
Inductive Decision :=
| Update (sectionHeading : jsstring)
| Create (newHeading : jsstring)
| Uncertain (why : jsstring) (candidateHeading : option jsstring)
    (candidateSimilarity : option Q).

(** Modelled from the spec: the recognized hedge and retraction phrases of
    step 3 of the classifier's algorithm; the server's list is not among the
    sources. *)
Definition hedgePhrases : list jsstring :=
  [str "wait no"; str "actually wait"; str "scratch that"; str "nevermind";
   str "maybe"; str "possibly"].

Definition isAlnum (c : codeunit) : bool :=
  ((N.leb 48 c && N.leb c 57) || (N.leb 65 c && N.leb c 90)
   || (N.leb 97 c && N.leb c 122))%N.

(** Modelled from the spec: how a chunk is read when phrases are looked for.
    The specification's scenario finds the phrase "actually wait" in
    "Actually, wait, let's use TikTok instead", so letter case and
    punctuation do not count: letters are lowered, and what is neither a
    letter, a digit nor white space is left out. *)
Definition normalize (chunk : jsstring) : jsstring :=
  toLowerASCII (filter (fun c => isAlnum c || isWhiteSpace c) chunk).

(** Modelled from the spec: the hedge test of step 3, "if present". *)
Definition containsHedge (chunk : jsstring) : bool :=
  existsb (includes (normalize chunk)) hedgePhrases.

Definition hedgeReason : jsstring := str "hedge or retraction language".
Definition ambiguousReason : jsstring := str "ambiguous section match".

Section Rule.

(** The configured thresholds. *)
Variables T_confident T_floor : Q.

(** Modelled from the spec: steps 3 to 6 of the classifier's algorithm,
    given the best section with its score (steps 1 and 2, the similarity
    service) and the heading inferred from the chunk.  A document with no
    section has no best match, and every chunk is below the floor. *)
Definition classify (chunk : jsstring) (best : option (jsstring * Q))
    (inferred : jsstring) : Decision :=
  if containsHedge chunk then
    Uncertain hedgeReason (option_map fst best) (option_map snd best)
  else
    match best with
    | None => Create inferred
    | Some (heading, score) =>
        if Qle_bool T_confident score then Update heading
        else if negb (Qle_bool T_floor score) then Create inferred
        else Uncertain ambiguousReason (Some heading) (Some score)
    end.

(** Modelled from the spec: a stored uncertain decision (section 3). *)
Record PendingDecision := {
  decisionId : nat;
  sourceChunkText : jsstring;
  matchedSection : option jsstring;
  similarityScore : option Q;
  why_pending : jsstring
}.

(** Modelled from the spec: a committed rewrite as it is broadcast. *)
Record ChangeEvent := {
  newDocumentBody : jsstring;
  changedHeading : option jsstring
}.

(** Modelled from the spec: the state of one project on the server. *)
Record Project := {
  document : jsstring;
  pendingStore : list PendingDecision;
  nextId : nat;
  broadcast : list ChangeEvent;
  failures : list jsstring
}.

(** The similarity service: the best section of a document for a chunk. *)
Variable nearest : jsstring -> jsstring -> option (jsstring * Q).

(** The heading a new section would get. *)
Variable inferHeading : jsstring -> jsstring.

(** The rewrite service: the new document and the heading that changed, or
    a failure. *)
Variable rewrite : jsstring -> Decision -> jsstring -> option (jsstring * option jsstring).

(** Modelled from the spec: the control flow of section 2 for one chunk:
    an uncertain decision is stored and nothing is written; any other
    decision runs the rewriter, and a rewrite that succeeds is committed
    and broadcast. *)
Definition ingest (chunk : jsstring) (p : Project) : Project :=
  match classify chunk (nearest (document p) chunk) (inferHeading chunk) with
  | Uncertain why cand sim =>
      {| document := document p;
         pendingStore := pendingStore p ++
           [{| decisionId := nextId p; sourceChunkText := chunk;
               matchedSection := cand; similarityScore := sim;
               why_pending := why |}];
         nextId := S (nextId p);
         broadcast := broadcast p;
         failures := failures p |}
  | decision =>
      match rewrite (document p) decision chunk with
      | Some (body, heading) =>
          {| document := body;
             pendingStore := pendingStore p;
             nextId := nextId p;
             broadcast := broadcast p ++
               [{| newDocumentBody := body; changedHeading := heading |}];
             failures := failures p |}
      | None =>
          {| document := document p;
             pendingStore := pendingStore p;
             nextId := nextId p;
             broadcast := broadcast p;
             failures := failures p ++ [chunk] |}
      end
  end.

End Rule.
End Classifier.

(* ================================================================= *)
(** * The claims as the specification words them *)
(* ================================================================= *)

(** The heading to animate as the specification orders the three sources:
    the event's [section] when present and not the string 'None'; otherwise
    [change_info.target_section] when present; otherwise the heading
    inferred by diffing. *)
Definition specifiedSection (data : SSEData) (old new : jsstring) : option jsstring :=
  match section data with
  | Some s => if streq s (str "None") then
                match change_info_target data with
                | Some t => Some t
                | None => detectNewSection old new
                end
              else Some s
  | None =>
      match change_info_target data with
      | Some t => Some t
      | None => detectNewSection old new
      end
  end.

(** A line is a heading as the specification words it: one to three
    hashes, at least one white space, at least one further code unit. *)
Definition specifiedHeadingLine (line : jsstring) : bool :=
  let hashes := List.length (takeWhile (N.eqb HeaderRegex.hash) line) in
  let rest := dropWhile (N.eqb HeaderRegex.hash) line in
  (1 <=? hashes) && (hashes <=? 3) &&
  match rest with
  | c :: more => isWhiteSpace c && (1 <=? List.length more)
  | [] => false
  end.

(** The lines of a text, cut at the line terminators. *)
Fixpoint linesOf (acc : jsstring) (s : jsstring) : list jsstring :=
  match s with
  | [] => [rev acc]
  | c :: rest =>
      if isLineTerminator c then rev acc :: linesOf [] rest
      else linesOf (c :: acc) rest
  end.

(** A [file_updated] event whose [section] is missing and whose
    [change_info.target_section] is the string 'None'. *)
Definition targetNoneEvent : SSEData :=
  {| type := file_updated;
     content := Some (str "# Intro");
     transcript := None; pending := None; pending_id := None;
     section := None;
     change_info := Some {| target_section := Some (str "None");
                            changed_lines := None; added_lines := None;
                            total_changes := None |} |}.

(** A [file_updated] event that carries a body and nothing else. *)
Definition bareEvent (body : jsstring) : SSEData :=
  {| type := file_updated; content := Some body;
     transcript := None; pending := None; pending_id := None;
     section := None; change_info := None |}.

(** A [file_updated] event that names its section. *)
Definition sectionEvent (body name : jsstring) : SSEData :=
  {| type := file_updated; content := Some body;
     transcript := None; pending := None; pending_id := None;
     section := Some name; change_info := None |}.

(** A text without line terminator: one line. *)
Definition noLT (s : jsstring) : bool :=
  forallb (fun c => negb (isLineTerminator c)) s.

Definition LF : string := String (ascii_of_nat 10) EmptyString.

(** [kept] is [all] without the entries whose id is [pid], in the same
    order. *)
Inductive Resolved (pid : option jsstring) : list PendingUpdate -> list PendingUpdate -> Prop :=
| Resolved_nil : Resolved pid [] []
| Resolved_keep q all kept :
    Some (id q) <> pid -> Resolved pid all kept -> Resolved pid (q :: all) (q :: kept)
| Resolved_drop q all kept :
    Some (id q) = pid -> Resolved pid all kept -> Resolved pid (q :: all) kept.


(** A state with the console wiped: two states that differ at most in what
    the console shows have the same one. *)
Definition Hook_quiet (st : Hook.State) : Hook.State := Hook.setConsole [] st.
Definition Legacy_quiet (st : Legacy.State) : Legacy.State := Legacy.setConsole [] st.

(** A session that captured 1001 bytes in two blobs, and one that captured
    a single byte. *)
Definition longSession : Recording.State :=
  {| Recording.audioChunks := [repeat Byte.x00 1000; [Byte.x01]];
     Recording.chunkCounterRef := 0; Recording.chunkCounter := 0;
     Recording.processingCount := 0; Recording.requests := [];
     Recording.transcriptCalls := []; Recording.consoleErrors := [] |}.

Definition shortSession : LegacyRecording.State :=
  {| LegacyRecording.audioChunks := [[Byte.x01]];
     LegacyRecording.chunkCounter := 4; LegacyRecording.processingChunks := [];
     LegacyRecording.requests := []; LegacyRecording.rows := [];
     LegacyRecording.clock := 0 |}.

(** A pending update as the server sends it. *)
Definition samplePending (i : string) : PendingUpdate :=
  {| id := str i; spoken := str "maybe TikTok"; matched_section := Some (str "Marketing");
     similarity := (80 # 100)%Q; suggested_action := str "update";
     reason := str "hedge"; created_at := str "2026-01-17T10:00:00" |}.

Definition pendingUpdateEvent (p : PendingUpdate) : SSEData :=
  {| type := pending_update; content := None; transcript := None;
     pending := Some (PendingObject p); pending_id := None;
     section := None; change_info := None |}.

(* ================================================================= *)
(** * Histories, and what holds between two turns of the event loop *)
(* ================================================================= *)

(** Reading a history from its start.  [glow] is the time at which the
    section that glows started to, if one does.  The history is well timed
    when no swap and no start falls inside a glow, every end closes a glow,
    and that glow has lasted [d] ms or more. *)
Fixpoint replay (d : nat) (glow : option nat) (h : list Event) : option (option nat) :=
  match h with
  | [] => Some glow
  | Swapped _ _ :: h' =>
      match glow with
      | Some _ => None
      | None => replay d None h'
      end
  | AnimStart t _ :: h' =>
      match glow with
      | Some _ => None
      | None => replay d (Some t) h'
      end
  | AnimEnd t :: h' =>
      match glow with
      | Some t0 => if t0 + d <=? t then replay d None h' else None
      | None => None
      end
  end.

(** The times of a history never go back, starting from [t]. *)
Fixpoint chronological (t : nat) (h : list Event) : bool :=
  match h with
  | [] => true
  | e :: h' => (t <=? eventTime e) && chronological (eventTime e) h'
  end.

(** The time of the last entry, [t] when there is none. *)
Definition lastTime (t : nat) (h : list Event) : nat :=
  fold_left (fun _ e => eventTime e) h t.

Definition isAnimEnd (e : Event) : bool :=
  match e with
  | AnimEnd _ => true
  | _ => false
  end.

(** No two sections glow at once: whatever is shown or starts to glow
    after a glow has started comes after the end of that glow. *)
Definition Serial (h : list Event) : Prop :=
  forall pre t0 s mid e post,
    h = pre ++ AnimStart t0 s :: mid ++ e :: post ->
    isAnimEnd e = false ->
    exists t1, In (AnimEnd t1) mid /\ t0 <= t1 /\ t1 <= eventTime e.

(** Every glow of the history that has ended lasted [d] ms or more. *)
Definition GlowsLast (d : nat) (h : list Event) : Prop :=
  forall pre t0 s t1 post,
    h = pre ++ AnimStart t0 s :: AnimEnd t1 :: post -> t0 + d <= t1.

(** The bodies a history shows, in the order it shows them. *)
Definition swaps (h : list Event) : list jsstring :=
  flat_map (fun e => match e with Swapped _ body => [body] | _ => [] end) h.

Section Arrivals.
Variable JSON_parse : jsstring -> option SSEData.

(** The body a [file_updated] message brings. *)
Definition arrival (a : Action) : list jsstring :=
  match a with
  | Deliver payload =>
      match JSON_parse payload with
      | Some data =>
          match type data with
          | file_updated => [Hook.contentOf data]
          | _ => []
          end
      | None => []
      end
  | _ => []
  end.

(** The bodies of the [file_updated] messages of a run, in arrival order. *)
Definition arrivals (acts : list Action) : list jsstring := flat_map arrival acts.
End Arrivals.

(** The due times of the pending glow timers. *)
Definition Hook_glowTimers (timers : list (nat * Hook.Callback)) : list nat :=
  flat_map (fun t => match snd t with
                     | Hook.AnimationDone _ => [fst t]
                     | Hook.ProcessNext => []
                     end) timers.

Definition Legacy_glowTimers (timers : list (nat * Legacy.Callback)) : list (nat * nat) :=
  flat_map (fun t => match snd t with
                     | Legacy.GlowDone h => [(fst t, h)]
                     | Legacy.ProcessNext => []
                     end) timers.

(** What holds of the hook between two turns of the event loop. *)
Record Hook_Inv (st : Hook.State) (glow : option nat) : Prop := {
  hook_replay : replay 500 None (Hook.history st) = Some glow;
  hook_busy : Hook.isProcessing st = match glow with Some _ => true | None => false end;
  hook_name : truthy (Hook.animatingSection st) = Hook.isProcessing st;
  hook_idle : Hook.isProcessing st = false -> Hook.animatingSection st = None;
  hook_timer : Hook_glowTimers (Hook.timers st) =
               match glow with Some t0 => [t0 + 500] | None => [] end;
  hook_chrono : chronological 0 (Hook.history st) = true;
  hook_clock : lastTime 0 (Hook.history st) <= Hook.now st
}.

(** What holds of the page between two turns of the event loop. *)
Record Legacy_Inv (st : Legacy.State) (glow : option nat) : Prop := {
  page_replay : replay Legacy.GLOW_DURATION None (Legacy.history st) = Some glow;
  page_busy : Legacy.isProcessingQueue st = match glow with Some _ => true | None => false end;
  page_timer : match glow with
               | Some t0 =>
                   exists h,
                     Legacy_glowTimers (Legacy.timers st) = [(t0 + Legacy.GLOW_DURATION, h)] /\
                     (Legacy.glowing st = [] \/ Legacy.glowing st = [h])
               | None =>
                   Legacy_glowTimers (Legacy.timers st) = [] /\ Legacy.glowing st = []
               end;
  page_chrono : chronological 0 (Legacy.history st) = true;
  page_clock : lastTime 0 (Legacy.history st) <= Legacy.now st
}.

(** The bodies shown so far, then the bodies that wait. *)
Definition Hook_bodies (st : Hook.State) : list jsstring :=
  swaps (Hook.history st) ++ map Hook.newContent (Hook.updateQueue st).

Definition Legacy_bodies (st : Legacy.State) : list jsstring :=
  swaps (Legacy.history st) ++ map Legacy.newContent (Legacy.updateQueue st).

(** The headers of the sample texts below, which are made of plain lines
    of hashes, a space and a title: for these the Markdown renderer produces
    the headers [headersOf] finds. *)
Definition sampleHeadings : jsstring -> list jsstring := headersOf.

(** A stream on which the payload [X] is the JSON of a [file_updated]
    event with the body "# X" and the section "X". *)
Definition namedBodies (payload : jsstring) : option SSEData :=
  Some (sectionEvent (str "# " ++ payload) payload).

(** A stream on which the payload [X] is the JSON of a [file_updated]
    event with the body "# Marketing" and the section "X". *)
Definition marketingBodies (payload : jsstring) : option SSEData :=
  Some (sectionEvent (str "# Marketing") payload).

(** A queue item that names its section. *)
Definition hookItem (body name : jsstring) : Hook.UpdateQueueItem :=
  {| Hook.oldContent := []; Hook.newContent := body;
     Hook.sectionName := Some name; Hook.timestamp := 0 |}.

Definition pageItem (body name : jsstring) : Legacy.UpdateQueueItem :=
  {| Legacy.oldContent := []; Legacy.newContent := body;
     Legacy.sectionName := Some name; Legacy.timestamp := 0 |}.

(** The timer [scheduleNext] and [finishProcessing] arm when items wait. *)
Definition gapTimer {Item Callback : Type} (queue : list Item) (now : nat)
    (next : Callback) : list (nat * Callback) :=
  match queue with
  | [] => []
  | _ :: _ => [(now + 100, next)]
  end.

(* ================================================================= *)
(** * The elements of a section: [getSectionElements] *)
(* ================================================================= *)

Module Dom.

(** [['H1', 'H2', 'H3'].indexOf(tagName) !== -1] *)
Definition isHeaderTag (tagName : jsstring) : bool :=
  arrayIncludes [str "H1"; str "H2"; str "H3"] tagName.

(** The [while] loop of [getSectionElements]: [siblings] are the tag names
    of the element [sibling] and of the ones after it, [j] is the position
    of [sibling] among the children of the container.  An element is its
    position. *)
Fixpoint collect (siblings : list jsstring) (j : nat) : list nat :=
  match siblings with
  | [] => []
  | tagName :: rest =>
      if isHeaderTag tagName then [] else j :: collect rest (S j)
  end.

(** [getSectionElements(header)], [rendering.js] lines 133-142, over the tag
    names of the children of the container; the loop of the React renderer,
    [MarkdownRenderer.tsx] lines 42-46, walks the same elements. *)
Definition getSectionElements (children : list jsstring) (header : option nat) : list nat :=
  match header with
  | None => []
  | Some i => collect (skipn (S i) children) (S i)
  end.

End Dom.

(* ================================================================= *)
(** * The countdown of the recorder *)
(* ================================================================= *)

Definition CHUNK_DURATION : Z := 10000.

(** [Math.max(0, Math.ceil((CHUNK_DURATION - elapsed) / 1000))] for a whole
    number of milliseconds, [useRecording.ts] line 97 and [recording.js]
    line 133.  The quotient of a whole number below 2^53 by 1000 is either
    whole or at least a thousandth away from a whole number, so the ceiling
    of the double is the ceiling of the fraction. *)
Definition secondsLeft (elapsed : Z) : Z :=
  Z.max 0 (- ((- (CHUNK_DURATION - elapsed)) / 1000))%Z.

(* ================================================================= *)
(** * A recording as a run of events *)
(* ================================================================= *)

Module RecordingRun.
Import Recording.

(** [AudioResponse] of [types.ts]. *)
Record AudioResponse := {
  response_status : jsstring;
  request_id : option jsstring;
  transcription : option jsstring;
  response_error : option jsstring
}.

(** How the [await processAudio(...)] of a chunk ends. *)
Inductive Outcome :=
| Answered (result : AudioResponse)
| Thrown.

(** [processChunkAsync] from its [await] on, [useRecording.ts] lines 34-47,
    for the chunk [n].  A request that ends has been counted, so the count
    is above zero and the subtraction does not stop at zero. *)
Definition settle (n : nat) (o : Outcome) (st : State) : State :=
  let calls :=
    match o with
    | Answered result =>
        if streq (response_status result) (str "queued") && truthy (transcription result)
        then [{| message := Transcription
                              (match transcription result with Some t => t | None => [] end);
                 chunkNum := n; status := queued |}]
        else if truthy (response_error result)
        then [{| message := ErrorText
                              (match response_error result with Some e => e | None => [] end);
                 chunkNum := n; status := error |}]
        else []
    | Thrown =>
        [{| message := FailedToProcess n; chunkNum := n; status := error |}]
    end in
  {| audioChunks := audioChunks st;
     chunkCounterRef := chunkCounterRef st;
     chunkCounter := chunkCounter st;
     processingCount := processingCount st - 1;
     requests := requests st;
     transcriptCalls := transcriptCalls st ++ calls;
     consoleErrors := consoleErrors st ++
       match o with Thrown => [n] | Answered _ => [] end |}.

(** What happens to a recorder between [startRecording] and the end. *)
Inductive RecEvent :=
| DataAvailable (data : Blob)          (* [ondataavailable] *)
| Stop                                 (* [onstop], by [cycleRecordingSession] or [stopRecording] *)
| Settled (n : nat) (o : Outcome).     (* the request of chunk [n] ends *)

(** The recorder with the chunks whose request has not ended yet (ghost).
    A request ends once: [Settled n] for a chunk that is not waiting does
    not happen. *)
Definition step (s : State * list nat) (e : RecEvent) : State * list nat :=
  let (st, waiting) := s in
  match e with
  | DataAvailable data => (ondataavailable data st, waiting)
  | Stop =>
      let st' := onstop st in
      (st', waiting ++ map snd (skipn (List.length (requests st)) (requests st')))
  | Settled n o =>
      if existsb (Nat.eqb n) waiting
      then (settle n o st, filter (fun m => negb (m =? n)) waiting)
      else s
  end.

Definition run (s : State * list nat) (events : list RecEvent) : State * list nat :=
  fold_left step events s.

(** The recorder as [startRecording] leaves it. *)
Definition started : State * list nat :=
  ({| audioChunks := []; chunkCounterRef := 0; chunkCounter := 0;
      processingCount := 0; requests := []; transcriptCalls := [];
      consoleErrors := [] |}, []).

End RecordingRun.

Module LegacyRecordingRun.
Import LegacyRecording.

Inductive RecEvent :=
| DataAvailable (data : Blob)
| Stop
| Elapse (ms : nat).                   (* [Date.now()] moves on *)

Definition step (st : State) (e : RecEvent) : State :=
  match e with
  | DataAvailable data => ondataavailable data st
  | Stop => onstop st
  | Elapse ms =>
      {| audioChunks := audioChunks st; chunkCounter := chunkCounter st;
         processingChunks := processingChunks st; requests := requests st;
         rows := rows st; clock := clock st + ms |}
  end.

Definition run (st : State) (events : list RecEvent) : State :=
  fold_left step events st.

(** The page as [startRecording] leaves it at the time [t]. *)
Definition started (t : nat) : State :=
  {| audioChunks := []; chunkCounter := 0; processingChunks := [];
     requests := []; rows := []; clock := t |}.

End LegacyRecordingRun.

(* ================================================================= *)
(** * Progress of the replay queue *)
(* ================================================================= *)

(** An action of the event loop that is no message: time passes or a timer
    fires. *)
Definition silent (a : Action) : bool :=
  match a with
  | Deliver _ => false
  | _ => true
  end.

(** When the hook is idle and items wait, a timer is pending that runs
    [processNextUpdate]. *)
Definition Hook_Ready (st : Hook.State) : Prop :=
  Hook.isProcessing st = false -> Hook.updateQueue st <> [] ->
  exists i due, nth_error (Hook.timers st) i = Some (due, Hook.ProcessNext).

Definition Legacy_Ready (st : Legacy.State) : Prop :=
  Legacy.isProcessingQueue st = false -> Legacy.updateQueue st <> [] ->
  exists i due, nth_error (Legacy.timers st) i = Some (due, Legacy.ProcessNext).

(** What is left to do: two steps for each item that waits, one for the
    glow under way. *)
Definition Hook_todo (st : Hook.State) : nat :=
  2 * List.length (Hook.updateQueue st) + (if Hook.isProcessing st then 1 else 0).

Definition Legacy_todo (st : Legacy.State) : nat :=
  2 * List.length (Legacy.updateQueue st) + (if Legacy.isProcessingQueue st then 1 else 0).

(** The time that passes in a run. *)
Definition waited (acts : list Action) : nat :=
  fold_right (fun a n => match a with Tick ms => ms + n | _ => n end) 0 acts.

(** No pending timer is due later than the delay it was armed with, counted
    from now. *)
Definition Hook_Timely (st : Hook.State) : Prop :=
  Forall (fun t => fst t <= Hook.now st +
                     match snd t with
                     | Hook.AnimationDone _ => 500
                     | Hook.ProcessNext => 100
                     end) (Hook.timers st).

Definition Legacy_Timely (st : Legacy.State) : Prop :=
  Forall (fun t => fst t <= Legacy.now st +
                     match snd t with
                     | Legacy.GlowDone _ => Legacy.GLOW_DURATION
                     | Legacy.ProcessNext => 100
                     end) (Legacy.timers st).

(* ================================================================= *)
(** * What holds throughout a run *)
(* ================================================================= *)

(** The baseline and the rendered text of the page are the document. *)
Definition Legacy_synced (st : Legacy.State) : Prop :=
  Legacy.displayedContent st = Legacy.markdownContent st /\
  Legacy.rendered st = Legacy.markdownContent st.

(** What holds of the recorder of the hook during a recording. *)
Record Recording_Inv (s : Recording.State * list nat) : Prop := {
  rec_chunks : Forall (fun b => 0 < size b) (Recording.audioChunks (fst s));
  rec_counter : Recording.chunkCounter (fst s) = Recording.chunkCounterRef (fst s);
  rec_order : StronglySorted lt (map snd (Recording.requests (fst s)));
  rec_large : Forall (fun r => 1000 < size (fst r) /\ 1 <= snd r <= Recording.chunkCounterRef (fst s))
                (Recording.requests (fst s));
  rec_waiting : StronglySorted lt (snd s);
  rec_bound : Forall (fun n => n <= Recording.chunkCounterRef (fst s)) (snd s);
  rec_count : Recording.processingCount (fst s) = List.length (snd s);
  rec_known : forall n, In n (snd s) -> In n (map snd (Recording.requests (fst s)))
}.

(** What holds of the recorder of the page during a recording. *)
Record LegacyRecording_Inv (st : LegacyRecording.State) : Prop := {
  prec_chunks : Forall (fun b => 0 < size b) (LegacyRecording.audioChunks st);
  prec_order : StronglySorted lt (map snd (LegacyRecording.requests st));
  prec_large : Forall (fun r => 1000 < size (fst r) /\
                                1 <= snd r <= LegacyRecording.chunkCounter st)
                 (LegacyRecording.requests st);
  prec_rows : map (fun r => fst (LegacyRecording.rowId r)) (LegacyRecording.rows st) =
              map snd (LegacyRecording.requests st);
  prec_label : Forall (fun r => LegacyRecording.rowChunk r = fst (LegacyRecording.rowId r))
                 (LegacyRecording.rows st);
  prec_set : LegacyRecording.processingChunks st =
             map LegacyRecording.rowId (LegacyRecording.rows st)
}.

(* ================================================================= *)
(** * The text on show *)
(* ================================================================= *)

Section NoInit.
Variable JSON_parse : jsstring -> option SSEData.

(** An action of the event loop that is no [init] message. *)
Definition notInit (a : Action) : bool :=
  match a with
  | Deliver payload =>
      match JSON_parse payload with
      | Some data => match type data with init => false | _ => true end
      | None => true
      end
  | _ => true
  end.
End NoInit.

(** The hook shows the last body it swapped in, remembers it as displayed
    when it is idle, and every pending glow timer carries it. *)
Record Hook_Fresh (body : jsstring) (st : Hook.State) : Prop := {
  fresh_shown : Hook.markdownContent st = last (swaps (Hook.history st)) body;
  fresh_idle : Hook.isProcessing st = false ->
               Hook.displayedContent st = Hook.markdownContent st;
  fresh_timers : Forall (fun t => match snd t with
                                  | Hook.AnimationDone u =>
                                      Hook.newContent u = Hook.markdownContent st
                                  | Hook.ProcessNext => True
                                  end) (Hook.timers st)
}.

(** A stream on which the payload "init" is the JSON of an [init] message
    with the body "# Old", and any other payload is the JSON of a
    [file_updated] event with the body "# New" and the section "New". *)
Definition reconnecting (payload : jsstring) : option SSEData :=
  if streq payload (str "init")
  then Some {| type := init; content := Some (str "# Old");
               transcript := None; pending := None; pending_id := None;
               section := None; change_info := None |}
  else Some (sectionEvent (str "# New") (str "New")).

(** A stream on which the payload "resolved" is the JSON of a
    [pending_resolved] event for the id "p1", and any other payload is the
    JSON of a [pending_update] event that brings the pending update "p1". *)
Definition pendingStream (payload : jsstring) : option SSEData :=
  if streq payload (str "resolved")
  then Some {| type := pending_resolved; content := None; transcript := None;
               pending := None; pending_id := Some (str "p1");
               section := None; change_info := None |}
  else Some (pendingUpdateEvent (samplePending "p1")).

(* ================================================================= *)
(** * Facts about strings and arrays *)
(* ================================================================= *)

Lemma streq_eq : forall a b, streq a b = true <-> a = b.
Proof.
  induction a as [|x a IH]; destruct b as [|y b]; simpl; split; intro H;
    try reflexivity; try discriminate.
  - apply andb_true_iff in H. destruct H as [Hxy Hab].
    apply N.eqb_eq in Hxy. apply IH in Hab. congruence.
  - injection H as Hx Ha. subst. rewrite N.eqb_refl. simpl. apply IH. reflexivity.
Qed.

Lemma streq_refl : forall a, streq a a = true.
Proof. intro a. apply streq_eq. reflexivity. Qed.

Lemma streq_neq : forall a b, streq a b = false <-> a <> b.
Proof.
  intros a b. split.
  - intros H E. apply streq_eq in E. congruence.
  - intro H. destruct (streq a b) eqn:E; [|reflexivity].
    apply streq_eq in E. contradiction.
Qed.

Lemma arrayIncludes_In : forall headers h, arrayIncludes headers h = true <-> In h headers.
Proof.
  induction headers as [|x rest IH]; intro h; simpl.
  - split; [discriminate | contradiction].
  - rewrite orb_true_iff, streq_eq, IH. reflexivity.
Qed.

Lemma arrayIncludes_not_In : forall headers h, arrayIncludes headers h = false <-> ~ In h headers.
Proof.
  intros headers h. rewrite <- arrayIncludes_In.
  destruct (arrayIncludes headers h); split; congruence.
Qed.

(* ================================================================= *)
(** * [detectNewSection] *)
(* ================================================================= *)

Lemma firstNotIn_Some : forall oldHeaders newHeaders h,
  firstNotIn oldHeaders newHeaders = Some h ->
  exists before after,
    newHeaders = before ++ h :: after /\
    ~ In h oldHeaders /\
    (forall x, In x before -> In x oldHeaders).
Proof.
  intros oldHeaders. induction newHeaders as [|x rest IH]; intros h H; simpl in H.
  - discriminate.
  - destruct (arrayIncludes oldHeaders x) eqn:E; simpl in H.
    + destruct (IH h H) as (before & after & Hsplit & Hnew & Hold).
      exists (x :: before), after. repeat split.
      * simpl. rewrite Hsplit. reflexivity.
      * exact Hnew.
      * intros y [Hy|Hy]; [subst y; apply arrayIncludes_In; exact E | apply Hold; exact Hy].
    + injection H as H. subst x. exists [], rest. repeat split.
      * apply arrayIncludes_not_In. exact E.
      * intros y [].
Qed.

Lemma firstNotIn_None : forall oldHeaders newHeaders,
  firstNotIn oldHeaders newHeaders = None <->
  (forall x, In x newHeaders -> In x oldHeaders).
Proof.
  intros oldHeaders. induction newHeaders as [|x rest IH]; simpl.
  - split; [intros _ y [] | reflexivity].
  - destruct (arrayIncludes oldHeaders x) eqn:E; simpl.
    + rewrite IH. split.
      * intros H y [Hy|Hy]; [subst y; apply arrayIncludes_In; exact E | apply H; exact Hy].
      * intros H y Hy. apply H. right. exact Hy.
    + split; [discriminate|].
      intro H. apply arrayIncludes_not_In in E. exfalso. apply E, H. left. reflexivity.
Qed.


Example detectNewSection_ex_new :
  detectNewSection
    (str ("# Marketing" ++ LF ++ "- Plan to use ads" ++ LF))
    (str ("# Marketing" ++ LF ++ "- Reels" ++ LF ++ "## Budget" ++ LF ++ "- 500" ++ LF ++ "### Later" ++ LF))
  = Some (str "Budget").
Proof. vm_compute. reflexivity. Qed.

Example detectNewSection_ex_none :
  detectNewSection
    (str ("# Marketing" ++ LF ++ "## Budget" ++ LF))
    (str ("##   Budget  " ++ LF ++ "text" ++ LF ++ "# Marketing"))
  = None.
Proof. vm_compute. reflexivity. Qed.

Example headersOf_ex_levels :
  headersOf (str ("# Marketing" ++ LF ++ "- Plan to use ads" ++ LF ++ "## Budget  "
                  ++ LF ++ "#### deep" ++ LF ++ "###x" ++ LF ++ " # y" ++ LF))
  = [str "Marketing"; str "Budget"].
Proof. vm_compute. reflexivity. Qed.

(** ** One line at a time *)

Import HeaderRegex.

Lemma execAll_inside_line : forall s skip, noLT s = true -> execAll skip false s = [].
Proof.
  induction s as [|c s IH]; intros skip H; simpl.
  - reflexivity.
  - simpl in H. apply andb_true_iff in H. destruct H as [Hc Hs].
    apply negb_true_iff in Hc. rewrite Hc. destruct skip; apply IH; exact Hs.
Qed.

Lemma takeWhile_noLT : forall u, noLT u = true ->
  takeWhile (fun c => negb (isLineTerminator c)) u = u.
Proof.
  induction u as [|c u IH]; simpl; intro H; [reflexivity|].
  apply andb_true_iff in H. destruct H as [Hc Hu]. rewrite Hc, IH by exact Hu. reflexivity.
Qed.

Lemma matchGroup_noLT : forall u, noLT u = true ->
  matchGroup u = match u with [] => None | _ => Some u end.
Proof.
  intros u H. unfold matchGroup. rewrite takeWhile_noLT by exact H. destruct u; reflexivity.
Qed.

Lemma noLT_skipn : forall j t, noLT t = true -> noLT (skipn j t) = true.
Proof.
  induction j as [|j IH]; intros t H; simpl; [exact H|].
  destruct t as [|c t]; [reflexivity|]. simpl in H. apply andb_true_iff in H. apply IH, H.
Qed.

Lemma whitespace_not_hash : forall c, N.eqb hash c = true -> isWhiteSpace c = false.
Proof. intros c H. apply N.eqb_eq in H. subst c. reflexivity. Qed.

Lemma takeWhile_dropWhile : forall p s, takeWhile p s ++ dropWhile p s = s.
Proof.
  induction s as [|c s IH]; simpl; [reflexivity|].
  destruct (p c); simpl; [rewrite IH|]; reflexivity.
Qed.

Lemma skipn_spaceRun : forall t, skipn (spaceRun t) t = dropWhile isWhiteSpace t.
Proof.
  unfold spaceRun. induction t as [|c t IH]; simpl; [reflexivity|].
  destruct (isWhiteSpace c); simpl; [exact IH | reflexivity].
Qed.

Lemma spaceRun_le : forall t, spaceRun t <= List.length t.
Proof.
  intro t. pose proof (takeWhile_dropWhile isWhiteSpace t) as Hl.
  apply (f_equal (@List.length _)) in Hl. rewrite length_app in Hl.
  unfold spaceRun. lia.
Qed.

(** [\s+(.+)$] inside one line. *)
Lemma matchSpaces_line : forall t, noLT t = true ->
  matchSpaces (spaceRun t) t =
  match t with
  | c :: more =>
      if isWhiteSpace c && (1 <=? List.length more) then
        match dropWhile isWhiteSpace t with
        | [] => Some (spaceRun t - 1, skipn (spaceRun t - 1) t)
        | g => Some (spaceRun t, g)
        end
      else None
  | [] => None
  end.
Proof.
  intros t H. destruct t as [|c more]; [reflexivity|].
  unfold spaceRun at 1. simpl takeWhile.
  destruct (isWhiteSpace c) eqn:Ec; simpl andb; [|reflexivity].
  change (List.length (c :: takeWhile isWhiteSpace more)) with (S (spaceRun more)).
  assert (Hrun : spaceRun (c :: more) = S (spaceRun more)).
  { unfold spaceRun. simpl. rewrite Ec. reflexivity. }
  cbn [matchSpaces].
  rewrite matchGroup_noLT by (apply noLT_skipn; exact H).
  rewrite <- Hrun, skipn_spaceRun.
  destruct (dropWhile isWhiteSpace (c :: more)) as [|g0 g] eqn:Ed.
  - (* the line is all white space *)
    rewrite Hrun. simpl Nat.sub. rewrite Nat.sub_0_r.
    destruct more as [|d more']; [reflexivity|].
    simpl (1 <=? _).
    assert (Hm : spaceRun (d :: more') = S (spaceRun more')).
    { unfold spaceRun. simpl. simpl in Ed. rewrite Ec in Ed.
      destruct (isWhiteSpace d); [reflexivity | discriminate]. }
    rewrite Hm. cbn [matchSpaces]. rewrite <- Hm.
    rewrite matchGroup_noLT by (apply noLT_skipn; exact H).
    destruct (skipn (spaceRun (d :: more')) (c :: d :: more')) eqn:Es; [|reflexivity].
    exfalso. apply (f_equal (@List.length _)) in Es. rewrite length_skipn in Es.
    pose proof (spaceRun_le (d :: more')) as Hl.
    cbn [List.length] in Es, Hl. lia.
  - destruct more as [|d more'].
    + simpl in Ed. rewrite Ec in Ed. discriminate.
    + reflexivity.
Qed.

Lemma matchSpaces_at_hash : forall c t, N.eqb hash c = true ->
  matchSpaces (spaceRun (c :: t)) (c :: t) = None.
Proof.
  intros c t H. unfold spaceRun. simpl takeWhile.
  rewrite (whitespace_not_hash _ H). reflexivity.
Qed.

Lemma dropWhile_skipn_nil : forall p j t, dropWhile p t = [] -> dropWhile p (skipn j t) = [].
Proof.
  intros p. induction j as [|j IH]; intros t H; simpl; [exact H|].
  destruct t as [|c t]; [reflexivity|]. simpl in H.
  destruct (p c); [apply IH; exact H | discriminate].
Qed.

Lemma trim_blank : forall u, dropWhile isWhiteSpace u = [] -> trim u = [].
Proof. intros u H. unfold trim. rewrite H. reflexivity. Qed.

(** What [\s+(.+)$] finds in one line, against the specification's wording
    for what follows the hashes. *)
Lemma matchSpaces_line_spec : forall t, noLT t = true ->
  match matchSpaces (spaceRun t) t with
  | Some (_, g) =>
      match t with c :: more => isWhiteSpace c && (1 <=? List.length more) | [] => false end = true
      /\ trim g = trim (dropWhile isWhiteSpace t)
  | None =>
      match t with c :: more => isWhiteSpace c && (1 <=? List.length more) | [] => false end = false
  end.
Proof.
  intros t H. rewrite matchSpaces_line by exact H.
  destruct t as [|c more]; [reflexivity|].
  destruct (isWhiteSpace c && (1 <=? List.length more)) eqn:E; [|reflexivity].
  destruct (dropWhile isWhiteSpace (c :: more)) as [|g0 g] eqn:Ed.
  - split; [reflexivity|].
    rewrite (trim_blank (skipn _ (c :: more))); [reflexivity|].
    apply dropWhile_skipn_nil. exact Ed.
  - split; reflexivity.
Qed.

Ltac crunch := cbn -[N.eqb hash isWhiteSpace matchSpaces spaceRun trim].

Ltac settle Hs :=
  rewrite ?andb_false_r;
  repeat match goal with
         | E : N.eqb hash ?c = true |- context [matchSpaces (spaceRun (?c :: ?t)) (?c :: ?t)] =>
             replace (matchSpaces (spaceRun (c :: t)) (c :: t)) with (@None (nat * jsstring))
               by (symmetry; apply matchSpaces_at_hash; exact E)
         end;
  try match goal with
      | |- context [matchSpaces (spaceRun ?t) ?t] =>
          destruct (matchSpaces (spaceRun t) t) as [[? ?]|];
          [destruct Hs; split; assumption | exact Hs]
      end.

Lemma matchAt_line : forall line, noLT line = true ->
  match matchAt line with
  | Some (_, g) =>
      specifiedHeadingLine line = true /\
      trim g = trim (dropWhile isWhiteSpace (dropWhile (N.eqb hash) line))
  | None => specifiedHeadingLine line = false
  end.
Proof.
  intros line H. unfold matchAt, specifiedHeadingLine.
  destruct line as [|c1 l1]; [reflexivity|].
  destruct (N.eqb hash c1) eqn:E1.
  2:{ crunch. rewrite E1. crunch.
      destruct l1 as [|c2 [|c3 l3]]; crunch; rewrite ?E1; crunch; rewrite ?andb_false_r; reflexivity. }
  assert (H1 : noLT l1 = true) by (simpl in H; apply andb_true_iff in H; apply H).
  destruct l1 as [|c2 l2].
  { crunch. rewrite E1. reflexivity. }
  destruct (N.eqb hash c2) eqn:E2.
  2:{ (* one hash *)
      pose proof (matchSpaces_line_spec (c2 :: l2) H1) as Hs.
      crunch. rewrite E1, E2. crunch. settle Hs. }
  assert (H2 : noLT l2 = true) by (simpl in H1; apply andb_true_iff in H1; apply H1).
  destruct l2 as [|c3 l3].
  { crunch. rewrite E1, E2. crunch. settle I. cbn. reflexivity. }
  destruct (N.eqb hash c3) eqn:E3.
  2:{ (* two hashes *)
      pose proof (matchSpaces_line_spec (c3 :: l3) H2) as Hs.
      crunch. rewrite E1, E2, E3. crunch. settle Hs. }
  assert (H3 : noLT l3 = true) by (simpl in H2; apply andb_true_iff in H2; apply H2).
  destruct l3 as [|c4 l4].
  { crunch. rewrite E1, E2, E3. crunch. settle I. cbn. reflexivity. }
  destruct (N.eqb hash c4) eqn:E4.
  2:{ (* three hashes *)
      pose proof (matchSpaces_line_spec (c4 :: l4) H3) as Hs.
      crunch. rewrite E1, E2, E3, E4. crunch. settle Hs. }
  (* four hashes or more *)
  crunch. rewrite E1, E2, E3, E4. crunch. settle I.
  destruct (List.length (takeWhile (N.eqb hash) l4)); reflexivity.
Qed.

(** X1.  Within one line the code and the specification's wording agree: the
    line is found as a heading exactly when it is one as worded, and its
    label is the trimmed remainder after the hashes and the white space. *)
Lemma headersOf_single_line : forall line, noLT line = true ->
  headersOf line =
  if specifiedHeadingLine line
  then [trim (dropWhile isWhiteSpace (dropWhile (N.eqb hash) line))]
  else [].
Proof.
  intros line H. unfold headersOf. pose proof (matchAt_line line H) as Hm.
  destruct line as [|c l]; [reflexivity|].
  cbn [execAll].
  assert (Hc : isLineTerminator c = false).
  { simpl in H. apply andb_true_iff in H. destruct H as [Hc _]. apply negb_true_iff in Hc. exact Hc. }
  assert (Hl : noLT l = true) by (simpl in H; apply andb_true_iff in H; apply H).
  rewrite Hc. destruct (matchAt (c :: l)) as [[len g]|].
  - destruct Hm as [Hs Ht]. rewrite Hs, execAll_inside_line by exact Hl.
    simpl. rewrite Ht. reflexivity.
  - rewrite Hm, execAll_inside_line by exact Hl. reflexivity.
Qed.

(** C5.  A text in which no line is a heading as the specification words
    it, and in which the code finds one: the white space after the hashes
    runs over the line break, and the next line becomes the label.  In
    the second text the heading of the second line gets the label
    "## Real" instead of "Real". *)
Theorem heading_found_across_lines :
  let text := str ("#" ++ LF ++ "Title") in
  let text2 := str ("# " ++ LF ++ "## Real") in
  forallb specifiedHeadingLine (linesOf [] text) = false /\
  existsb specifiedHeadingLine (linesOf [] text) = false /\
  headersOf text = [str "Title"] /\
  detectNewSection [] text = Some (str "Title") /\
  map specifiedHeadingLine (linesOf [] text2) = [false; true] /\
  headersOf text2 = [str "## Real"].
Proof. vm_compute. repeat split; reflexivity. Qed.

(* ================================================================= *)
(** * The section a [file_updated] event animates *)
(* ================================================================= *)

Ltac by_cases_on_names :=
  cbn -[streq str detectNewSection];
  repeat match goal with
         | |- context [streq ?a ?b] =>
             destruct (streq a b) eqn:?; cbn -[streq str detectNewSection]
         end;
  try reflexivity; try congruence.

Lemma Hook_resolveSection_eq : forall data old new,
  Hook.resolveSection data old new =
  if usable (section data) then section data
  else if usable (change_info_target data) then change_info_target data
  else detectNewSection old new.
Proof.
  intros data old new. unfold Hook.resolveSection, usable, missingOrNone, orElse.
  generalize (change_info_target data). generalize (section data).
  intros [[|c s]|] [[|d t]|]; by_cases_on_names.
Qed.

Lemma Legacy_resolveSection_eq : forall data old new,
  Legacy.resolveSection data old new =
  if usable (section data) then section data
  else if usable (change_info_target data) then change_info_target data
  else detectNewSection old new.
Proof.
  intros data old new. unfold Legacy.resolveSection, usable, missingOrNone.
  generalize (change_info_target data). generalize (section data).
  intros [[|c s]|] [[|d t]|]; by_cases_on_names.
Qed.

(** What the hook does with an event for which no name is found, when
    nothing is being shown or waiting. *)
Lemma Hook_no_name_only_swaps : forall data st,
  Hook.isProcessing st = false ->
  Hook.updateQueue st = [] ->
  truthy (Hook.resolveSection data (Hook.baseline st) (Hook.contentOf data)) = false ->
  let st' := Hook.handleFileUpdated data st in
  Hook.markdownContent st' = Hook.contentOf data /\
  Hook.animatingSection st' = Hook.animatingSection st /\
  Hook.timers st' = Hook.timers st /\
  Hook.isProcessing st' = false /\
  Hook.updateQueue st' = [] /\
  Hook.history st' = Hook.history st ++ [Swapped (Hook.now st) (Hook.contentOf data)].
Proof.
  intros data st Hp Hq Hn. unfold Hook.handleFileUpdated, Hook.scheduleFileUpdate.
  unfold Hook.processNextUpdate. cbn [Hook.isProcessing Hook.updateQueue Hook.setUpdateQueue].
  rewrite Hp, Hq. cbn [app List.length Nat.eqb orb Hook.sectionName Hook.newContent].
  destruct (Hook.resolveSection data (Hook.baseline st) (Hook.contentOf data)) as [[|c s]|];
    try discriminate; cbn; repeat split; reflexivity.
Qed.

Section LegacyNoName.
Variable toLowerCase : jsstring -> jsstring.
Variable headings : jsstring -> list jsstring.

Lemma Legacy_no_name_only_swaps : forall data st,
  Legacy.isProcessingQueue st = false ->
  Legacy.updateQueue st = [] ->
  truthy (Legacy.resolveSection data (Legacy.markdownContent st) (Legacy.contentOf data)) = false ->
  let st' := Legacy.handleFileUpdated toLowerCase headings data st in
  Legacy.markdownContent st' = Legacy.contentOf data /\
  Legacy.glowing st' = [] /\
  Legacy.timers st' = Legacy.timers st /\
  Legacy.isProcessingQueue st' = false /\
  Legacy.updateQueue st' = [] /\
  Legacy.history st' = Legacy.history st ++ [Swapped (Legacy.now st) (Legacy.contentOf data)].
Proof.
  intros data st Hp Hq Hn. unfold Legacy.handleFileUpdated, Legacy.scheduleFileUpdate.
  unfold Legacy.processNextUpdate. cbn [Legacy.isProcessingQueue Legacy.updateQueue Legacy.setUpdateQueue].
  rewrite Hp, Hq. cbn [app List.length Nat.eqb orb Legacy.sectionName Legacy.newContent].
  rewrite Hn. cbn. repeat split; reflexivity.
Qed.
End LegacyNoName.




(* ================================================================= *)
(** * Matching a name against the rendered headers *)
(* ================================================================= *)

Section MatchingFacts.
Variable toLowerCase : jsstring -> jsstring.

Local Abbreviation scoreOf := (Matching.scoreOf toLowerCase).

Lemma score_cases : forall text search,
  (Matching.score text search = 100 /\ text = search)%Z \/
  (Matching.score text search = 50 /\ text <> search /\
     (startsWith text search = true \/ startsWith search text = true))%Z \/
  (Matching.score text search = 10 /\ text <> search /\
     startsWith text search = false /\ startsWith search text = false /\
     (includes text search = true \/ includes search text = true))%Z \/
  (Matching.score text search = 0 /\ text <> search /\
     startsWith text search = false /\ startsWith search text = false /\
     includes text search = false /\ includes search text = false)%Z.
Proof.
  intros text search. unfold Matching.score.
  destruct (streq text search) eqn:E.
  - left. split; [reflexivity | apply streq_eq; exact E].
  - apply streq_neq in E. right.
    destruct (startsWith text search) eqn:P1; simpl.
    + left. repeat split; auto.
    + destruct (startsWith search text) eqn:P2; simpl.
      * left. repeat split; auto.
      * right. destruct (includes text search) eqn:I1; simpl.
        -- left. repeat split; auto.
        -- destruct (includes search text) eqn:I2; simpl.
           ++ left. repeat split; auto.
           ++ right. repeat split; auto.
Qed.

Lemma score_nonneg : forall text search, (0 <= Matching.score text search)%Z.
Proof.
  intros text search.
  destruct (score_cases text search) as [[H _]|[[H _]|[[H _]|[H _]]]]; rewrite H; lia.
Qed.

(** The loop keeps the first header of the highest score seen so far. *)
Lemma forEachHeader_best : forall search headers i best,
  let r := Matching.forEachHeader toLowerCase search headers i best in
  (snd best <= snd r)%Z /\
  (forall k h, nth_error headers k = Some h -> (scoreOf search h <= snd r)%Z) /\
  (r = best \/
   exists k h,
     fst r = Some (i + k) /\ nth_error headers k = Some h /\
     scoreOf search h = snd r /\ (snd best < snd r)%Z /\
     (forall k' h', k' < k -> nth_error headers k' = Some h' ->
        (scoreOf search h' < snd r)%Z)).
Proof.
  intros search. induction headers as [|h rest IH]; intros i best; cbn zeta.
  - simpl. split; [lia|]. split; [intros [|k] h' Hk; discriminate | left; reflexivity].
  - cbn [Matching.forEachHeader]. fold (scoreOf search h).
    set (best' := if (snd best <? scoreOf search h)%Z then (Some i, scoreOf search h) else best).
    specialize (IH (S i) best'). cbv zeta in IH.
    destruct IH as (Hle & Hall & Hcase).
    assert (Hb : (snd best <= snd best' /\ scoreOf search h <= snd best')%Z).
    { unfold best'. destruct (Z.ltb_spec (snd best) (scoreOf search h)); simpl; lia. }
    split; [lia|]. split.
    + intros [|k] h' Hk; simpl in Hk.
      * injection Hk as <-. lia.
      * apply (Hall k h' Hk).
    + destruct Hcase as [Heq | (k & hk & Hf & Hn & Hs & Hlt & Hfirst)].
      * rewrite Heq. unfold best'.
        destruct (Z.ltb_spec (snd best) (scoreOf search h)).
        -- right. exists 0, h. simpl. rewrite Nat.add_0_r.
           repeat split; try reflexivity; try lia.
        -- left. reflexivity.
      * right. exists (S k), hk. rewrite Nat.add_succ_r. simpl.
        repeat split; try assumption; try lia.
        intros [|k'] h' Hk' Hn'; simpl in Hn'.
        -- injection Hn' as <-. lia.
        -- apply (Hfirst k' h'); [lia | exact Hn'].
Qed.

(** [findHeaderElement] returns the first header of the highest score, and
    none when every score is zero or the name is missing or empty. *)
Lemma findHeaderElement_first_best : forall name headers,
  match Matching.findHeaderElement toLowerCase name headers with
  | Some i =>
      exists c s h,
        name = Some (c :: s) /\ nth_error headers i = Some h /\
        let search := trim (toLowerCase (c :: s)) in
        (0 < scoreOf search h)%Z /\
        (forall k h', nth_error headers k = Some h' ->
           (scoreOf search h' <= scoreOf search h)%Z) /\
        (forall k h', k < i -> nth_error headers k = Some h' ->
           (scoreOf search h' < scoreOf search h)%Z)
  | None =>
      truthy name = false \/
      exists c s, name = Some (c :: s) /\
        forall k h', nth_error headers k = Some h' ->
          scoreOf (trim (toLowerCase (c :: s))) h' = 0%Z
  end.
Proof.
  intros name headers. unfold Matching.findHeaderElement.
  destruct name as [[|c s]|]; try (left; reflexivity).
  cbv zeta. set (search := trim (toLowerCase (c :: s))).
  pose proof (forEachHeader_best search headers 0 (None, (-1)%Z)) as H.
  cbv zeta in H. destruct H as (_ & Hall & Hcase).
  destruct (Z.ltb_spec 0 (snd (Matching.forEachHeader toLowerCase search headers 0 (None, (-1)%Z))))
    as [Hpos|Hnon].
  - destruct Hcase as [Heq | (k & h & Hf & Hn & Hs & _ & Hfirst)].
    + rewrite Heq in Hpos. simpl in Hpos. lia.
    + rewrite Hf. simpl. exists c, s, h. split; [reflexivity|]. split; [exact Hn|].
      cbv zeta. fold search. rewrite Hs. split; [exact Hpos|]. split; [exact Hall | exact Hfirst].
  - right. exists c, s. split; [reflexivity|]. intros k h' Hk.
    fold search. specialize (Hall k h' Hk).
    pose proof (score_nonneg (trim (toLowerCase h')) search). unfold scoreOf in *. lia.
Qed.

(** The React renderer gives the class to every header whose score is not
    zero. *)
Lemma isMatch_score : forall text search,
  Matching.isMatch text search = negb (Matching.score text search =? 0)%Z.
Proof.
  intros text search. unfold Matching.isMatch, Matching.score.
  destruct (streq text search); [reflexivity|].
  destruct (startsWith text search || startsWith search text); [reflexivity|].
  destruct (includes text search || includes search text); reflexivity.
Qed.

Lemma glowEach_In : forall search headers i j,
  In j (Matching.glowEach toLowerCase search headers i) <->
  exists k h, j = i + k /\ nth_error headers k = Some h /\
              Matching.isMatch (trim (toLowerCase h)) search = true.
Proof.
  intros search. induction headers as [|h rest IH]; intros i j; simpl.
  - split; [contradiction | intros (k & h & _ & Hk & _); destruct k; discriminate].
  - destruct (Matching.isMatch (trim (toLowerCase h)) search) eqn:E; simpl; rewrite ?IH.
    + split.
      * intros [Hj | (k & h' & Hj & Hk & Hm)].
        -- exists 0, h. rewrite Nat.add_0_r. auto.
        -- exists (S k), h'. rewrite Nat.add_succ_r. auto.
      * intros ([|k] & h' & Hj & Hk & Hm).
        -- left. lia.
        -- right. exists k, h'. rewrite Nat.add_succ_r in Hj. auto.
    + split.
      * intros (k & h' & Hj & Hk & Hm). exists (S k), h'. rewrite Nat.add_succ_r. auto.
      * intros ([|k] & h' & Hj & Hk & Hm).
        -- simpl in Hk. injection Hk as <-. congruence.
        -- exists k, h'. rewrite Nat.add_succ_r in Hj. auto.
Qed.

End MatchingFacts.

(** C6.  The rendered headers "Plan", "Plan B" and "Budget", and the name
    "Plan" to animate.  The page selects the one header that matches
    exactly; the React renderer gives the glow to it and to "Plan B" as
    well, whose text only starts with the name. *)
Theorem renderer_highlights_every_match :
  let headers := [str "Plan"; str "Plan B"; str "Budget"] in
  Matching.findHeaderElement toLowerASCII (Some (str "Plan")) headers = Some 0 /\
  Matching.highlighted toLowerASCII (Some (str "Plan")) headers = [0; 1] /\
  List.length (Matching.highlighted toLowerASCII (Some (str "Plan")) headers) <> 1.
Proof. vm_compute. repeat split; try reflexivity. discriminate. Qed.

Example findHeaderElement_tie_first :
  Matching.findHeaderElement toLowerASCII (Some (str "Plan"))
    [str "Budget"; str "Plan B"; str "Plan A"; str "My plan"] = Some 1.
Proof. vm_compute. reflexivity. Qed.

Example findHeaderElement_no_match :
  Matching.findHeaderElement toLowerASCII (Some (str "Costs"))
    [str "Budget"; str "Plan B"] = None.
Proof. vm_compute. reflexivity. Qed.

(* ================================================================= *)
(** * The recorder *)
(* ================================================================= *)

Lemma Recording_onstop_large : forall st,
  Recording.audioChunks st <> [] ->
  1000 < size (assemble (Recording.audioChunks st)) ->
  Recording.onstop st =
  {| Recording.audioChunks := [];
     Recording.chunkCounterRef := Recording.chunkCounterRef st + 1;
     Recording.chunkCounter := Recording.chunkCounterRef st + 1;
     Recording.processingCount := Recording.processingCount st + 1;
     Recording.requests := Recording.requests st ++
       [(assemble (Recording.audioChunks st), Recording.chunkCounterRef st + 1)];
     Recording.transcriptCalls := Recording.transcriptCalls st ++
       [{| Recording.message := Recording.Transcribing (Recording.chunkCounterRef st + 1);
           Recording.chunkNum := Recording.chunkCounterRef st + 1;
           Recording.status := Recording.processing |}];
     Recording.consoleErrors := Recording.consoleErrors st |}.
Proof.
  intros st Hne Hbig. unfold Recording.onstop.
  destruct (Recording.audioChunks st) as [|b bs] eqn:E; [contradiction|].
  replace (0 <? List.length (b :: bs)) with true by reflexivity.
  apply Nat.ltb_lt in Hbig. rewrite Hbig. reflexivity.
Qed.

Lemma Recording_onstop_small : forall st,
  Recording.audioChunks st <> [] ->
  size (assemble (Recording.audioChunks st)) <= 1000 ->
  Recording.onstop st =
  {| Recording.audioChunks := [];
     Recording.chunkCounterRef := Recording.chunkCounterRef st + 1;
     Recording.chunkCounter := Recording.chunkCounterRef st + 1;
     Recording.processingCount := Recording.processingCount st;
     Recording.requests := Recording.requests st;
     Recording.transcriptCalls := Recording.transcriptCalls st;
     Recording.consoleErrors := Recording.consoleErrors st |}.
Proof.
  intros st Hne Hsmall. unfold Recording.onstop.
  destruct (Recording.audioChunks st) as [|b bs] eqn:E; [contradiction|].
  replace (0 <? List.length (b :: bs)) with true by reflexivity.
  assert (H : (1000 <? size (assemble (b :: bs))) = false) by (apply Nat.ltb_ge; exact Hsmall).
  rewrite H. reflexivity.
Qed.

Lemma LegacyRecording_onstop_large : forall st,
  LegacyRecording.audioChunks st <> [] ->
  1000 < size (assemble (LegacyRecording.audioChunks st)) ->
  let st' := LegacyRecording.onstop st in
  LegacyRecording.audioChunks st' = [] /\
  LegacyRecording.chunkCounter st' = LegacyRecording.chunkCounter st + 1 /\
  LegacyRecording.requests st' = LegacyRecording.requests st ++
    [(assemble (LegacyRecording.audioChunks st), LegacyRecording.chunkCounter st + 1)] /\
  LegacyRecording.rows st' = LegacyRecording.rows st ++
    [{| LegacyRecording.rowId := (LegacyRecording.chunkCounter st + 1, LegacyRecording.clock st);
        LegacyRecording.rowChunk := LegacyRecording.chunkCounter st + 1;
        LegacyRecording.rowStatus := LegacyRecording.processing |}].
Proof.
  intros st Hne Hbig. unfold LegacyRecording.onstop.
  destruct (LegacyRecording.audioChunks st) as [|b bs] eqn:E; [contradiction|].
  replace (0 <? List.length (b :: bs)) with true by reflexivity.
  apply Nat.ltb_lt in Hbig. rewrite Hbig. cbn. repeat split; reflexivity.
Qed.

Lemma LegacyRecording_onstop_small : forall st,
  LegacyRecording.audioChunks st <> [] ->
  size (assemble (LegacyRecording.audioChunks st)) <= 1000 ->
  LegacyRecording.onstop st =
  {| LegacyRecording.audioChunks := [];
     LegacyRecording.chunkCounter := LegacyRecording.chunkCounter st + 1;
     LegacyRecording.processingChunks := LegacyRecording.processingChunks st;
     LegacyRecording.requests := LegacyRecording.requests st;
     LegacyRecording.rows := LegacyRecording.rows st;
     LegacyRecording.clock := LegacyRecording.clock st |}.
Proof.
  intros st Hne Hsmall. unfold LegacyRecording.onstop.
  destruct (LegacyRecording.audioChunks st) as [|b bs] eqn:E; [contradiction|].
  replace (0 <? List.length (b :: bs)) with true by reflexivity.
  assert (H : (1000 <? size (assemble (b :: bs))) = false) by (apply Nat.ltb_ge; exact Hsmall).
  rewrite H. reflexivity.
Qed.

Ltac sent_or_not :=
  try reflexivity; try lia; try assumption;
  try (rewrite skipn_app, Nat.sub_diag, skipn_all; simpl; left; reflexivity);
  try match goal with
      | H : In _ (skipn (List.length ?r) ?r) |- _ =>
          rewrite skipn_all in H; contradiction
      end.

(** C10.  When a recording session that captured at least one blob stops,
    the assembled blob is sent to the audio endpoint exactly when it has
    more than 1000 bytes.  A blob of 1000 bytes or fewer is dropped: no
    request, no transcript entry, no error; the chunk counter goes up by
    one all the same and the captured blobs are cleared.  The hook and the
    page do the same. *)
Theorem onstop_submits_iff_over_1000 : forall (st : Recording.State) (lst : LegacyRecording.State),
  Recording.audioChunks st <> [] ->
  LegacyRecording.audioChunks lst <> [] ->
  let blob := assemble (Recording.audioChunks st) in
  let n := Recording.chunkCounterRef st + 1 in
  let st' := Recording.onstop st in
  let lblob := assemble (LegacyRecording.audioChunks lst) in
  let ln := LegacyRecording.chunkCounter lst + 1 in
  let lst' := LegacyRecording.onstop lst in
  (Recording.chunkCounterRef st' = n /\ Recording.chunkCounter st' = n /\
   Recording.audioChunks st' = [] /\
   (In (blob, n) (skipn (List.length (Recording.requests st)) (Recording.requests st'))
      <-> 1000 < size blob) /\
   (1000 < size blob ->
      Recording.requests st' = Recording.requests st ++ [(blob, n)]) /\
   (size blob <= 1000 ->
      Recording.requests st' = Recording.requests st /\
      Recording.transcriptCalls st' = Recording.transcriptCalls st /\
      Recording.consoleErrors st' = Recording.consoleErrors st /\
      Recording.processingCount st' = Recording.processingCount st)) /\
  (LegacyRecording.chunkCounter lst' = ln /\
   LegacyRecording.audioChunks lst' = [] /\
   (In (lblob, ln) (skipn (List.length (LegacyRecording.requests lst)) (LegacyRecording.requests lst'))
      <-> 1000 < size lblob) /\
   (1000 < size lblob ->
      LegacyRecording.requests lst' = LegacyRecording.requests lst ++ [(lblob, ln)]) /\
   (size lblob <= 1000 ->
      LegacyRecording.requests lst' = LegacyRecording.requests lst /\
      LegacyRecording.rows lst' = LegacyRecording.rows lst /\
      LegacyRecording.processingChunks lst' = LegacyRecording.processingChunks lst)).
Proof.
  intros st lst Hne Hlne blob n st' lblob ln lst'. split.
  - destruct (Nat.lt_ge_cases 1000 (size blob)) as [Hbig|Hsmall].
    + pose proof (Recording_onstop_large st Hne Hbig) as E. fold st' blob n in E.
      rewrite E. cbn. repeat split; intros; sent_or_not.
    + pose proof (Recording_onstop_small st Hne Hsmall) as E. fold st' n in E.
      rewrite E. cbn. repeat split; intros; sent_or_not.
  - destruct (Nat.lt_ge_cases 1000 (size lblob)) as [Hbig|Hsmall].
    + destruct (LegacyRecording_onstop_large lst Hlne Hbig) as (A & B & C & D).
      fold lst' lblob ln in A, B, C, D.
      rewrite A, B, C. repeat split; intros; sent_or_not.
    + pose proof (LegacyRecording_onstop_small lst Hlne Hsmall) as E. fold lst' ln in E.
      rewrite E. cbn. repeat split; intros; sent_or_not.
Qed.

(** C10 at a session of 1001 bytes for the hook and a session of one byte
    for the page. *)
Lemma onstop_submits_iff_over_1000_witness :
  Recording.requests (Recording.onstop longSession)
    = [(assemble (Recording.audioChunks longSession), 1)] /\
  LegacyRecording.requests (LegacyRecording.onstop shortSession) = [] /\
  LegacyRecording.chunkCounter (LegacyRecording.onstop shortSession) = 5.
Proof.
  destruct (onstop_submits_iff_over_1000 longSession shortSession
              ltac:(discriminate) ltac:(discriminate))
    as ((_ & _ & _ & _ & Hsent & _) & (Hcount & _ & _ & _ & Hdropped)).
  split; [|split].
  - apply Hsent. vm_compute. apply le_n.
  - apply Hdropped. vm_compute. lia.
  - exact Hcount.
Defined.

(* ================================================================= *)
(** * The message handler *)
(* ================================================================= *)

Lemma otherId_true : forall pid q, otherId pid q = true <-> Some (id q) <> pid.
Proof.
  intros [i|] q; simpl.
  - rewrite negb_true_iff, streq_neq. split; intro H; congruence.
  - split; [discriminate | reflexivity].
Qed.

Lemma filter_otherId_Resolved : forall pid all,
  Resolved pid all (filter (otherId pid) all).
Proof.
  intros pid. induction all as [|q all IH]; simpl.
  - constructor.
  - destruct (otherId pid q) eqn:E.
    + apply Resolved_keep; [apply otherId_true; exact E | exact IH].
    + apply Resolved_drop; [|exact IH].
      destruct pid as [i|]; simpl in E; [|discriminate].
      apply negb_false_iff, streq_eq in E. congruence.
Qed.

Lemma Resolved_In : forall pid all kept, Resolved pid all kept ->
  forall q, In q kept <-> In q all /\ Some (id q) <> pid.
Proof.
  intros pid all kept H. induction H as [|x all kept Hx H IH|x all kept Hx H IH]; intro q; simpl.
  - tauto.
  - rewrite IH. split.
    + intros [E|[A B]]; [subst; auto | auto].
    + intros [[E|A] B]; [left; exact E | right; auto].
  - rewrite IH. split.
    + intros [A B]. auto.
    + intros [[E|A] B]; [subst; contradiction | auto].
Qed.

Section StreamFacts.
Variable toLowerCase : jsstring -> jsstring.
Variable headings : jsstring -> list jsstring.
Variable JSON_parse : jsstring -> option SSEData.



Lemma Hook_step_quiet : forall st a,
  Hook_quiet (Hook.step JSON_parse st a) = Hook_quiet (Hook.step JSON_parse (Hook_quiet st) a).
Proof.
  intros st a. destruct st. destruct a as [payload|i|ms]; cbn.
  - unfold Hook.onmessage. cbn. destruct (JSON_parse payload) as [data|]; [|reflexivity].
    destruct (type data); cbn; try reflexivity.
    + destruct (Wire.transcript data); reflexivity.
    + unfold Hook.handleFileUpdated, Hook.scheduleFileUpdate, Hook.processNextUpdate, Hook.baseline.
      cbn. destruct isProcessing; cbn; [reflexivity|].
      destruct (updateQueue ++ _) as [|u rest] eqn:Eq; cbn; [reflexivity|].
      destruct (Hook.sectionName u) as [[|c s]|]; cbn; try reflexivity;
        unfold Hook.scheduleNext; cbn; destruct rest; reflexivity.
    + destruct (pending data) as [[l|p]|]; reflexivity.
  - destruct (nth_error timers i) as [[due cb]|]; [|reflexivity].
    destruct (due <=? now); [|reflexivity].
    destruct cb as [u|]; cbn.
    + unfold Hook.animationDone, Hook.scheduleNext. cbn. destruct updateQueue; reflexivity.
    + unfold Hook.processNextUpdate. cbn. destruct isProcessing; cbn; [reflexivity|].
      destruct updateQueue as [|u rest]; cbn; [reflexivity|].
      destruct (Hook.sectionName u) as [[|c s]|]; cbn; try reflexivity;
        unfold Hook.scheduleNext; cbn; destruct rest; reflexivity.
  - reflexivity.
Qed.

Lemma Hook_run_quiet : forall acts st,
  Hook_quiet (Hook.run JSON_parse st acts) = Hook_quiet (Hook.run JSON_parse (Hook_quiet st) acts).
Proof.
  induction acts as [|a acts IH]; intro st; simpl.
  - destruct st; reflexivity.
  - rewrite IH. rewrite (IH (Hook.step JSON_parse (Hook_quiet st) a)).
    rewrite Hook_step_quiet. reflexivity.
Qed.

Lemma Legacy_step_quiet : forall st a,
  Legacy_quiet (Legacy.step toLowerCase headings JSON_parse st a) =
  Legacy_quiet (Legacy.step toLowerCase headings JSON_parse (Legacy_quiet st) a).
Proof.
  intros st a. destruct st. destruct a as [payload|i|ms]; cbn.
  - unfold Legacy.onmessage. cbn. destruct (JSON_parse payload) as [data|]; [|reflexivity].
    destruct (type data); cbn; try reflexivity.
    + unfold Legacy.handleFileUpdated, Legacy.scheduleFileUpdate, Legacy.processNextUpdate.
      cbn. destruct isProcessingQueue; cbn; [reflexivity|].
      destruct (updateQueue ++ _) as [|u rest] eqn:Eq; cbn; [reflexivity|].
      destruct (truthy (Legacy.sectionName u)); cbn.
      * unfold Legacy.animateSection, Legacy.targetHeader. cbn.
        destruct (Matching.findHeaderElement toLowerCase (Legacy.sectionName u) _) as [h|]; cbn;
          [reflexivity|].
        destruct (Matching.findHeaderElement toLowerCase _ _) as [h|]; cbn; [reflexivity|].
        unfold Legacy.finishProcessing. cbn. destruct rest; reflexivity.
      * unfold Legacy.finishProcessing. cbn. destruct rest; reflexivity.
    + destruct (pending data) as [[l|p]|]; reflexivity.
  - destruct (nth_error timers i) as [[due cb]|]; [|reflexivity].
    destruct (due <=? now); [|reflexivity].
    destruct cb as [h|]; cbn.
    + unfold Legacy.glowDone, Legacy.finishProcessing. cbn. destruct updateQueue; reflexivity.
    + unfold Legacy.processNextUpdate. cbn. destruct isProcessingQueue; cbn; [reflexivity|].
      destruct updateQueue as [|u rest]; cbn; [reflexivity|].
      destruct (truthy (Legacy.sectionName u)); cbn.
      * unfold Legacy.animateSection, Legacy.targetHeader. cbn.
        destruct (Matching.findHeaderElement toLowerCase (Legacy.sectionName u) _) as [h|]; cbn;
          [reflexivity|].
        destruct (Matching.findHeaderElement toLowerCase _ _) as [h|]; cbn; [reflexivity|].
        unfold Legacy.finishProcessing. cbn. destruct rest; reflexivity.
      * unfold Legacy.finishProcessing. cbn. destruct rest; reflexivity.
  - reflexivity.
Qed.

Lemma Legacy_run_quiet : forall acts st,
  Legacy_quiet (Legacy.run toLowerCase headings JSON_parse st acts) =
  Legacy_quiet (Legacy.run toLowerCase headings JSON_parse (Legacy_quiet st) acts).
Proof.
  induction acts as [|a acts IH]; intro st; simpl.
  - destruct st; reflexivity.
  - rewrite IH. rewrite (IH (Legacy.step toLowerCase headings JSON_parse (Legacy_quiet st) a)).
    rewrite Legacy_step_quiet. reflexivity.
Qed.

(** C8.  A message whose payload [JSON.parse] rejects changes nothing but
    the console, where the error is logged: the document on screen, the
    pending list, the transcript, the replay queue, the timers and the
    animation stay as they are.  The handler stays in place: whatever
    comes after on the stream is handled as if the message had not come. *)
Theorem unparseable_message_is_dropped :
  forall payload (st : Hook.State) (lst : Legacy.State),
  JSON_parse payload = None ->
  Hook.onmessage JSON_parse payload st =
    Hook.setConsole (Hook.console st ++ [SSE_parse_error payload]) st /\
  Legacy.onmessage toLowerCase headings JSON_parse payload lst =
    Legacy.setConsole (Legacy.console lst ++ [SSE_parse_error payload]) lst /\
  (forall rest,
     Hook_quiet (Hook.run JSON_parse st (Deliver payload :: rest)) =
     Hook_quiet (Hook.run JSON_parse st rest)) /\
  (forall rest,
     Legacy_quiet (Legacy.run toLowerCase headings JSON_parse lst (Deliver payload :: rest)) =
     Legacy_quiet (Legacy.run toLowerCase headings JSON_parse lst rest)).
Proof.
  intros payload st lst Hparse.
  assert (Hh : Hook.onmessage JSON_parse payload st =
               Hook.setConsole (Hook.console st ++ [SSE_parse_error payload]) st)
    by (unfold Hook.onmessage; rewrite Hparse; reflexivity).
  assert (Hl : Legacy.onmessage toLowerCase headings JSON_parse payload lst =
               Legacy.setConsole (Legacy.console lst ++ [SSE_parse_error payload]) lst)
    by (unfold Legacy.onmessage; rewrite Hparse; reflexivity).
  split; [exact Hh|]. split; [exact Hl|]. split; intro rest; simpl.
  - rewrite Hh, Hook_run_quiet, (Hook_run_quiet rest st). reflexivity.
  - rewrite Hl, Legacy_run_quiet, (Legacy_run_quiet rest lst). reflexivity.
Qed.
End StreamFacts.


(** C8 at a payload that is cut short, on a hook and a page that show a
    note. *)
Lemma unparseable_message_is_dropped_witness :
  Hook.markdownContent
    (Hook.onmessage (fun _ => None) (str "{type:") (Hook.start (str "# Notes")))
  = str "# Notes" /\
  Legacy.console
    (Legacy.onmessage toLowerASCII (fun _ => []) (fun _ => None) (str "{type:")
       (Legacy.start (str "# Notes")))
  = [SSE_parse_error (str "{type:")].
Proof.
  destruct (unparseable_message_is_dropped toLowerASCII (fun _ => []) (fun _ => None)
              (str "{type:") (Hook.start (str "# Notes")) (Legacy.start (str "# Notes"))
              eq_refl) as (Hh & Hl & _).
  rewrite Hh, Hl. split; reflexivity.
Defined.

(* ================================================================= *)
(** * The certainty rule *)
(* ================================================================= *)

Section RuleFacts.
Variables T_confident T_floor : Q.
Variable nearest : jsstring -> jsstring -> option (jsstring * Q).
Variable inferHeading : jsstring -> jsstring.
Variable rewrite : jsstring -> Classifier.Decision -> jsstring -> option (jsstring * option jsstring).

Lemma classify_hedged : forall chunk best inferred,
  Classifier.containsHedge chunk = true ->
  Classifier.classify T_confident T_floor chunk best inferred =
  Classifier.Uncertain Classifier.hedgeReason (option_map fst best) (option_map snd best).
Proof.
  intros chunk best inferred H. unfold Classifier.classify. rewrite H. reflexivity.
Qed.

(** C7.  A chunk in which a hedge or retraction phrase is recognized is
    classified Uncertain whatever the best section and its similarity
    score are, and taking it in writes nothing: the document stays as it
    is, no change event is broadcast, and the chunk waits in the pending
    store with a reason that is not empty. *)
Theorem hedged_chunk_is_uncertain : forall chunk,
  Classifier.containsHedge chunk = true ->
  (forall best inferred,
     exists why candidate score,
       Classifier.classify T_confident T_floor chunk best inferred =
         Classifier.Uncertain why candidate score /\ why <> []) /\
  (forall p,
     let p' := Classifier.ingest T_confident T_floor nearest inferHeading rewrite chunk p in
     Classifier.document p' = Classifier.document p /\
     Classifier.broadcast p' = Classifier.broadcast p /\
     Classifier.failures p' = Classifier.failures p /\
     exists d,
       Classifier.pendingStore p' = Classifier.pendingStore p ++ [d] /\
       Classifier.sourceChunkText d = chunk /\
       Classifier.why_pending d <> []).
Proof.
  intros chunk H. split.
  - intros best inferred. rewrite (classify_hedged chunk best inferred H).
    eexists _, _, _. split; [reflexivity | discriminate].
  - intro p. unfold Classifier.ingest. rewrite (classify_hedged chunk _ _ H). cbn.
    repeat split. eexists. split; [reflexivity|]. split; [reflexivity | discriminate].
Qed.

End RuleFacts.

Example hedge_examples :
  map Classifier.containsHedge
    [str "Actually, wait, let's use TikTok instead";
     str "Wait, no, let's use TikTok instead of Instagram";
     str "Scratch that.";
     str "Maybe we should target Reels";
     str "Let's target Instagram Reels with a $500 budget"]
  = [true; true; true; true; false].
Proof. vm_compute. reflexivity. Qed.

Example classify_examples :
  let Tc := (65 # 100)%Q in
  let Tf := (30 # 100)%Q in
  let reels := str "Let's target Instagram Reels with a $500 budget" in
  let heading := str "Marketing" in
  Classifier.classify Tc Tf reels (Some (heading, (80 # 100)%Q)) (str "Reels")
    = Classifier.Update heading /\
  Classifier.classify Tc Tf reels (Some (heading, (10 # 100)%Q)) (str "Reels")
    = Classifier.Create (str "Reels") /\
  Classifier.classify Tc Tf reels (Some (heading, (50 # 100)%Q)) (str "Reels")
    = Classifier.Uncertain Classifier.ambiguousReason (Some heading) (Some (50 # 100)%Q).
Proof. vm_compute. repeat split; reflexivity. Qed.

(** C7 at the chunk of the specification's scenario, with a best section
    of similarity 0.99. *)
Lemma hedged_chunk_is_uncertain_witness :
  Classifier.containsHedge (str "Actually, wait, let's use TikTok instead") = true /\
  exists why candidate score,
    Classifier.classify (65 # 100)%Q (30 # 100)%Q
      (str "Actually, wait, let's use TikTok instead")
      (Some (str "Marketing", (99 # 100)%Q)) (str "TikTok")
    = Classifier.Uncertain why candidate score /\ why <> [].
Proof.
  assert (H : Classifier.containsHedge (str "Actually, wait, let's use TikTok instead") = true)
    by (vm_compute; reflexivity).
  split; [exact H|].
  exact (proj1 (hedged_chunk_is_uncertain (65 # 100)%Q (30 # 100)%Q
                  (fun _ _ => None) (fun c => c) (fun _ _ _ => None) _ H)
               (Some (str "Marketing", (99 # 100)%Q)) (str "TikTok")).
Defined.

(* ================================================================= *)
(** * The replay queue *)
(* ================================================================= *)

Arguments lastTime : simpl never.

Lemma replay_app : forall d h1 h2 glow,
  replay d glow (h1 ++ h2) =
  match replay d glow h1 with
  | Some glow' => replay d glow' h2
  | None => None
  end.
Proof.
  intros d. induction h1 as [|e h1 IH]; intros h2 glow; simpl; [reflexivity|].
  destruct e as [t b|t s|t]; destruct glow as [t0|]; try reflexivity; try apply IH.
  destruct (t0 + d <=? t); [apply IH | reflexivity].
Qed.

Lemma lastTime_app : forall h t e, lastTime t (h ++ [e]) = eventTime e.
Proof. intros h t e. unfold lastTime. rewrite fold_left_app. reflexivity. Qed.

Lemma lastTime_cons : forall h t e, lastTime t (e :: h) = lastTime (eventTime e) h.
Proof. reflexivity. Qed.

Lemma chronological_app : forall h t e,
  chronological t (h ++ [e]) = chronological t h && (lastTime t h <=? eventTime e).
Proof.
  induction h as [|x h IH]; intros t e; simpl.
  - rewrite andb_true_r. reflexivity.
  - rewrite IH, lastTime_cons, andb_assoc. reflexivity.
Qed.

Lemma chronological_grows : forall h t, chronological t h = true -> t <= lastTime t h.
Proof.
  induction h as [|x h IH]; intros t H; simpl in *; [apply le_n|].
  apply andb_true_iff in H. destruct H as [H1 H2]. apply Nat.leb_le in H1.
  rewrite lastTime_cons. specialize (IH _ H2). lia.
Qed.

(** In a chronological history an entry is no later than the entries after
    it. *)
Lemma chronological_In : forall h t e, chronological t h = true -> In e h -> t <= eventTime e.
Proof.
  induction h as [|x h IH]; intros t e H Hin; simpl in *; [contradiction|].
  apply andb_true_iff in H. destruct H as [H1 H2]. apply Nat.leb_le in H1.
  destruct Hin as [<-|Hin]; [exact H1|]. specialize (IH _ _ H2 Hin). lia.
Qed.

Lemma chronological_suffix : forall pre h t,
  chronological t (pre ++ h) = true -> chronological (lastTime t pre) h = true.
Proof.
  induction pre as [|x pre IH]; intros h t H; simpl in *; [exact H|].
  apply andb_true_iff in H. destruct H as [_ H2]. rewrite lastTime_cons. apply IH. exact H2.
Qed.

Lemma replay_suffix : forall d pre h glow r,
  replay d glow (pre ++ h) = Some r -> exists glow', replay d glow' h = Some r.
Proof.
  intros d pre h glow r H. rewrite replay_app in H.
  destruct (replay d glow pre) as [glow'|]; [|discriminate]. exists glow'. exact H.
Qed.

(** Inside a glow the next entry of a well timed history is its end. *)
Lemma replay_inside : forall d mid e post t0 r,
  replay d (Some t0) (mid ++ e :: post) = Some r ->
  isAnimEnd e = false ->
  exists t1, In (AnimEnd t1) mid /\ t0 + d <= t1.
Proof.
  intros d mid e post t0 r H He. destruct mid as [|x mid]; simpl in H.
  - destruct e; try discriminate.
  - destruct x as [t b|t s|t]; try discriminate.
    destruct (Nat.leb_spec (t0 + d) t) as [Hle|]; [|discriminate].
    exists t. split; [left; reflexivity | exact Hle].
Qed.

(** A history that is well timed and chronological is serial. *)
Lemma replay_Serial : forall d h r,
  replay d None h = Some r -> chronological 0 h = true -> Serial h.
Proof.
  intros d h r Hr Hc pre t0 s mid e post Hsplit He. subst h.
  destruct (replay_suffix d pre _ None r Hr) as (glow' & Hs).
  simpl in Hs. destruct glow' as [?|]; [discriminate|].
  destruct (replay_inside d mid e post t0 r Hs He) as (t1 & Hin & Hlast).
  exists t1. split; [exact Hin|]. split; [lia|].
  apply chronological_suffix in Hc. simpl in Hc.
  apply andb_true_iff in Hc. destruct Hc as [_ Hc].
  apply in_split in Hin. destruct Hin as (m1 & m2 & ->).
  rewrite <- app_assoc in Hc. apply chronological_suffix in Hc. simpl in Hc.
  apply andb_true_iff in Hc. destruct Hc as [_ Hc].
  apply (chronological_In _ _ e Hc). apply in_or_app. right. left. reflexivity.
Qed.

Lemma replay_GlowsLast : forall d h r,
  replay d None h = Some r -> GlowsLast d h.
Proof.
  intros d h r Hr pre t0 s t1 post Hsplit. subst h.
  destruct (replay_suffix d pre _ None r Hr) as (glow' & Hs).
  simpl in Hs. destruct glow' as [?|]; [discriminate|].
  destruct (Nat.leb_spec (t0 + d) t1) as [Hle|]; [exact Hle | discriminate].
Qed.

Lemma swaps_app : forall h1 h2, swaps (h1 ++ h2) = swaps h1 ++ swaps h2.
Proof. intros. unfold swaps. apply flat_map_app. Qed.

Lemma arrivals_app : forall parse a1 a2,
  arrivals parse (a1 ++ a2) = arrivals parse a1 ++ arrivals parse a2.
Proof. intros. unfold arrivals. apply flat_map_app. Qed.

(** ** The hook *)

Lemma Hook_glowTimers_app : forall l1 l2,
  Hook_glowTimers (l1 ++ l2) = Hook_glowTimers l1 ++ Hook_glowTimers l2.
Proof. intros. unfold Hook_glowTimers. apply flat_map_app. Qed.

Lemma Hook_glowTimers_remove : forall l i due cb,
  nth_error l i = Some (due, cb) ->
  match cb with
  | Hook.ProcessNext => Hook_glowTimers (removeNth i l) = Hook_glowTimers l
  | Hook.AnimationDone _ =>
      exists pre post,
        Hook_glowTimers l = pre ++ due :: post /\
        Hook_glowTimers (removeNth i l) = pre ++ post
  end.
Proof.
  induction l as [|[d c] l IH]; intros i due cb H.
  - destruct i; discriminate.
  - destruct i as [|i]; simpl in H.
    + injection H as -> ->. destruct cb as [u|]; simpl.
      * exists [], (Hook_glowTimers l). split; reflexivity.
      * reflexivity.
    + specialize (IH i due cb H). destruct cb as [u|].
      * destruct IH as (pre & post & E1 & E2).
        destruct c as [u'|]; simpl; rewrite E1, E2.
        -- exists (d :: pre), post. split; reflexivity.
        -- exists pre, post. split; reflexivity.
      * simpl. rewrite IH. reflexivity.
Qed.

Arguments Hook_glowTimers : simpl never.

Lemma Hook_Inv_processNextUpdate : forall st glow,
  Hook_Inv st glow -> exists glow', Hook_Inv (Hook.processNextUpdate st) glow'.
Proof.
  intros st glow HI. pose proof HI as [Hr Hb Hn Hi Ht Hc Hk].
  unfold Hook.processNextUpdate.
  destruct (Hook.isProcessing st) eqn:Ep; simpl orb.
  { exists glow. exact HI. }
  destruct (Hook.updateQueue st) as [|u rest] eqn:Eq; simpl.
  { exists glow. exact HI. }
  destruct glow as [t0|]; [discriminate|].
  destruct (Hook.sectionName u) as [[|c s]|] eqn:Es.
  - (* an empty name *)
    exists None. unfold Hook.scheduleNext. cbn.
    destruct rest; constructor; cbn; try reflexivity; try (intros _; apply Hi; reflexivity);
      rewrite ?Hook_glowTimers_app, ?replay_app, ?chronological_app, ?lastTime_app, ?Hr, ?Ht, ?Hc;
      cbn; try reflexivity; try lia;
      try (rewrite Hi by reflexivity; reflexivity);
      try (apply Nat.leb_le; exact Hk); try exact Ht.
  - (* a name: the section glows *)
    exists (Some (Hook.now st)). unfold Hook.setTimeout. cbn.
    constructor; cbn; try reflexivity; try discriminate;
      rewrite ?Hook_glowTimers_app, ?replay_app, ?chronological_app, ?lastTime_app, ?Hr, ?Ht, ?Hc;
      cbn; try reflexivity; try lia.
    rewrite Nat.leb_refl, andb_true_r. apply Nat.leb_le. exact Hk.
  - (* no name *)
    exists None. unfold Hook.scheduleNext. cbn.
    destruct rest; constructor; cbn; try reflexivity; try (intros _; apply Hi; reflexivity);
      rewrite ?Hook_glowTimers_app, ?replay_app, ?chronological_app, ?lastTime_app, ?Hr, ?Ht, ?Hc;
      cbn; try reflexivity; try lia;
      try (rewrite Hi by reflexivity; reflexivity);
      try (apply Nat.leb_le; exact Hk); try exact Ht.
Qed.

Lemma Hook_Inv_animationDone : forall st t0 timers' u,
  Hook_Inv st (Some t0) ->
  Hook_glowTimers timers' = [] ->
  t0 + 500 <= Hook.now st ->
  Hook_Inv (Hook.animationDone u (Hook.setTimers timers' st)) None.
Proof.
  intros st t0 timers' u [Hr Hb Hn Hi Ht Hc Hk] Hnone Hdue.
  unfold Hook.animationDone, Hook.scheduleNext. cbn.
  assert (Hle : (t0 + 500 <=? Hook.now st) = true) by (apply Nat.leb_le; exact Hdue).
  destruct (Hook.updateQueue st); constructor; cbn; try reflexivity;
    rewrite ?Hook_glowTimers_app, ?replay_app, ?chronological_app, ?lastTime_app, ?Hr, ?Hc, ?Hnone;
    cbn; rewrite ?Hle; try reflexivity; try lia;
    try (apply Nat.leb_le; exact Hk).
Qed.

Lemma Hook_Inv_setPending : forall st glow l,
  Hook_Inv st glow -> Hook_Inv (Hook.setPendingUpdates l st) glow.
Proof. intros st glow l [Hr Hb Hn Hi Ht Hc Hk]. constructor; assumption. Qed.

Lemma Hook_Inv_start : forall body, Hook_Inv (Hook.start body) None.
Proof. intro body. constructor; cbn; try reflexivity; apply le_n. Qed.

Section HookRuns.
Variable JSON_parse : jsstring -> option SSEData.

Lemma Hook_Inv_onmessage : forall st glow payload,
  Hook_Inv st glow -> exists glow', Hook_Inv (Hook.onmessage JSON_parse payload st) glow'.
Proof.
  intros st glow payload HI. pose proof HI as [Hr Hb Hn Hi Ht Hc Hk].
  unfold Hook.onmessage.
  destruct (JSON_parse payload) as [data|]; [|exists glow; constructor; assumption].
  destruct (type data).
  - exists glow. destruct (Wire.transcript data); constructor; assumption.
  - unfold Hook.handleFileUpdated, Hook.scheduleFileUpdate.
    apply (Hook_Inv_processNextUpdate _ glow). constructor; assumption.
  - exists glow. destruct (pending data) as [[l|p]|]; try exact HI.
    apply Hook_Inv_setPending. exact HI.
  - exists glow. apply Hook_Inv_setPending. exact HI.
  - exists glow. exact HI.
Qed.

Lemma Hook_Inv_step : forall st glow a,
  Hook_Inv st glow -> exists glow', Hook_Inv (Hook.step JSON_parse st a) glow'.
Proof.
  intros st glow a HI. destruct a as [payload|i|ms]; simpl.
  - apply (Hook_Inv_onmessage _ glow). exact HI.
  - destruct (nth_error (Hook.timers st) i) as [[due cb]|] eqn:En; [|exists glow; exact HI].
    destruct (Nat.leb_spec due (Hook.now st)) as [Hdue|]; [|exists glow; exact HI].
    pose proof (Hook_glowTimers_remove _ _ _ _ En) as Hrem.
    pose proof HI as [Hr Hb Hn Hi Ht Hc Hk].
    destruct cb as [u|]; simpl.
    + destruct Hrem as (pre & post & E1 & E2). rewrite Ht in E1.
      destruct glow as [t0|]; [|destruct pre; discriminate].
      destruct pre as [|x pre]; [|destruct pre; discriminate].
      simpl in E1. injection E1 as E1 Epost. subst post. simpl in E2.
      exists None. apply (Hook_Inv_animationDone st t0); [exact HI | exact E2 | lia].
    + apply (Hook_Inv_processNextUpdate _ glow).
      constructor; try assumption. cbn. rewrite Hrem. exact Ht.
  - exists glow. destruct HI as [Hr Hb Hn Hi Ht Hc Hk].
    constructor; try assumption. cbn. lia.
Qed.

Lemma Hook_Inv_run : forall acts st glow,
  Hook_Inv st glow -> exists glow', Hook_Inv (Hook.run JSON_parse st acts) glow'.
Proof.
  induction acts as [|a acts IH]; intros st glow HI; simpl.
  - exists glow. exact HI.
  - destruct (Hook_Inv_step st glow a HI) as (glow1 & H1). apply (IH _ glow1 H1).
Qed.

Lemma Hook_bodies_processNextUpdate : forall st,
  Hook_bodies (Hook.processNextUpdate st) = Hook_bodies st.
Proof.
  intro st. unfold Hook.processNextUpdate, Hook_bodies.
  destruct (Hook.isProcessing st); simpl orb; [reflexivity|].
  destruct (Hook.updateQueue st) as [|u rest] eqn:Eq; simpl; [rewrite Eq; reflexivity|].
  destruct (Hook.sectionName u) as [[|c s]|]; unfold Hook.scheduleNext, Hook.setTimeout; cbn;
    try destruct rest; cbn; rewrite ?swaps_app, <- ?app_assoc; reflexivity.
Qed.

Lemma Hook_bodies_step : forall st a,
  Hook_bodies (Hook.step JSON_parse st a) = Hook_bodies st ++ arrival JSON_parse a.
Proof.
  intros st a. destruct a as [payload|i|ms]; simpl.
  - unfold Hook.onmessage. destruct (JSON_parse payload) as [data|]; [|rewrite app_nil_r; reflexivity].
    destruct (type data); try (rewrite app_nil_r; reflexivity).
    + destruct (Wire.transcript data); rewrite app_nil_r; reflexivity.
    + unfold Hook.handleFileUpdated, Hook.scheduleFileUpdate.
      rewrite Hook_bodies_processNextUpdate. unfold Hook_bodies. cbn.
      rewrite map_app, app_assoc. reflexivity.
    + destruct (pending data) as [[l|p]|]; rewrite app_nil_r; reflexivity.
  - rewrite app_nil_r.
    destruct (nth_error (Hook.timers st) i) as [[due cb]|]; [|reflexivity].
    destruct (due <=? Hook.now st); [|reflexivity].
    destruct cb as [u|]; simpl.
    + unfold Hook.animationDone, Hook.scheduleNext, Hook.setTimeout, Hook_bodies. cbn.
      destruct (Hook.updateQueue st) eqn:Eq; cbn; rewrite Eq, swaps_app, app_nil_r; reflexivity.
    + rewrite Hook_bodies_processNextUpdate. reflexivity.
  - rewrite app_nil_r. reflexivity.
Qed.

Lemma Hook_bodies_run : forall acts st,
  Hook_bodies (Hook.run JSON_parse st acts) = Hook_bodies st ++ arrivals JSON_parse acts.
Proof.
  induction acts as [|a acts IH]; intro st; simpl.
  - rewrite app_nil_r. reflexivity.
  - rewrite IH, Hook_bodies_step, <- app_assoc. reflexivity.
Qed.

(** While a section glows, a [file_updated] message only joins the
    queue. *)
Lemma Hook_busy_waits : forall st payload data,
  JSON_parse payload = Some data -> type data = file_updated ->
  Hook.isProcessing st = true ->
  let st' := Hook.onmessage JSON_parse payload st in
  exists item,
    Hook.updateQueue st' = Hook.updateQueue st ++ [item] /\
    Hook.newContent item = Hook.contentOf data /\
    Hook.history st' = Hook.history st /\
    Hook.markdownContent st' = Hook.markdownContent st /\
    Hook.animatingSection st' = Hook.animatingSection st /\
    Hook.timers st' = Hook.timers st.
Proof.
  intros st payload data Hp Ht Hb. cbv zeta. unfold Hook.onmessage. rewrite Hp, Ht.
  unfold Hook.handleFileUpdated, Hook.scheduleFileUpdate, Hook.processNextUpdate.
  cbn. rewrite Hb. cbn. eexists. repeat split; reflexivity.
Qed.
End HookRuns.

(** ** The page *)

Lemma Legacy_glowTimers_app : forall l1 l2,
  Legacy_glowTimers (l1 ++ l2) = Legacy_glowTimers l1 ++ Legacy_glowTimers l2.
Proof. intros. unfold Legacy_glowTimers. apply flat_map_app. Qed.

Lemma Legacy_glowTimers_remove : forall l i due cb,
  nth_error l i = Some (due, cb) ->
  match cb with
  | Legacy.ProcessNext => Legacy_glowTimers (removeNth i l) = Legacy_glowTimers l
  | Legacy.GlowDone h =>
      exists pre post,
        Legacy_glowTimers l = pre ++ (due, h) :: post /\
        Legacy_glowTimers (removeNth i l) = pre ++ post
  end.
Proof.
  induction l as [|[d c] l IH]; intros i due cb H.
  - destruct i; discriminate.
  - destruct i as [|i]; simpl in H.
    + injection H as -> ->. destruct cb as [h|]; simpl.
      * exists [], (Legacy_glowTimers l). split; reflexivity.
      * reflexivity.
    + specialize (IH i due cb H). destruct cb as [h|].
      * destruct IH as (pre & post & E1 & E2).
        destruct c as [h'|]; simpl; rewrite E1, E2.
        -- exists ((d, h') :: pre), post. split; reflexivity.
        -- exists pre, post. split; reflexivity.
      * simpl. rewrite IH. reflexivity.
Qed.

Arguments Legacy_glowTimers : simpl never.

Ltac page_fields Hr Ht Hc Hk :=
  cbn; try reflexivity;
  rewrite ?Legacy_glowTimers_app, ?replay_app, ?chronological_app, ?lastTime_app, ?Hr, ?Hc;
  cbn; try reflexivity; try lia;
  try (apply Nat.leb_le; exact Hk);
  try (rewrite Nat.leb_refl, andb_true_r; apply Nat.leb_le; exact Hk).

Lemma Legacy_Inv_finishProcessing : forall st,
  replay Legacy.GLOW_DURATION None (Legacy.history st) = Some None ->
  Legacy_glowTimers (Legacy.timers st) = [] ->
  Legacy.glowing st = [] ->
  chronological 0 (Legacy.history st) = true ->
  lastTime 0 (Legacy.history st) <= Legacy.now st ->
  Legacy_Inv (Legacy.finishProcessing st) None.
Proof.
  intros st Hr Ht Hg Hc Hk. unfold Legacy.finishProcessing, Legacy.scheduleTimeout. cbn.
  destruct (Legacy.updateQueue st); constructor; cbn; try assumption; try reflexivity.
  - split; [exact Ht | exact Hg].
  - rewrite Legacy_glowTimers_app, Ht. split; [reflexivity | exact Hg].
Qed.

Section PageRuns.
Variable toLowerCase : jsstring -> jsstring.
Variable headings : jsstring -> list jsstring.
Variable JSON_parse : jsstring -> option SSEData.

Lemma Legacy_Inv_processNextUpdate : forall st glow,
  Legacy_Inv st glow ->
  exists glow', Legacy_Inv (Legacy.processNextUpdate toLowerCase headings st) glow'.
Proof.
  intros st glow HI. pose proof HI as [Hr Hb Ht Hc Hk].
  unfold Legacy.processNextUpdate.
  destruct (Legacy.isProcessingQueue st) eqn:Ep; simpl orb.
  { exists glow. exact HI. }
  destruct (Legacy.updateQueue st) as [|u rest] eqn:Eq; simpl.
  { exists glow. exact HI. }
  destruct glow as [t0|]; [discriminate|]. destruct Ht as [Ht Hg].
  assert (Hfinish : forall st1,
            Legacy.history st1 = Legacy.history st ++ [Swapped (Legacy.now st) (Legacy.newContent u)] ->
            Legacy.timers st1 = Legacy.timers st -> Legacy.glowing st1 = [] ->
            Legacy.now st1 = Legacy.now st ->
            Legacy_Inv (Legacy.finishProcessing st1) None).
  { intros st1 E1 E2 E3 E4. apply Legacy_Inv_finishProcessing; rewrite ?E1, ?E2, ?E4; try assumption.
    - rewrite replay_app, Hr. reflexivity.
    - rewrite chronological_app, Hc. apply Nat.leb_le. exact Hk.
    - rewrite lastTime_app. apply le_n. }
  destruct (truthy (Legacy.sectionName u)).
  - unfold Legacy.animateSection.
    match goal with |- context [Legacy.targetHeader ?a ?b ?c ?d] =>
      destruct (Legacy.targetHeader a b c d) as [h|] end.
    + exists (Some (Legacy.now st)). unfold Legacy.scheduleTimeout. cbn.
      constructor; page_fields Hr Ht Hc Hk.
      exists h. rewrite Ht. split; [reflexivity | right; reflexivity].
    + exists None. apply Hfinish; reflexivity.
  - exists None. apply Hfinish; reflexivity.
Qed.

Lemma Legacy_Inv_glowDone : forall st t0 timers' h,
  Legacy_Inv st (Some t0) ->
  Legacy_glowTimers timers' = [] ->
  (Legacy.glowing st = [] \/ Legacy.glowing st = [h]) ->
  t0 + Legacy.GLOW_DURATION <= Legacy.now st ->
  Legacy_Inv (Legacy.glowDone h (Legacy.setTimers timers' st)) None.
Proof.
  intros st t0 timers' h [Hr Hb Ht Hc Hk] Hnone Hg Hdue.
  unfold Legacy.glowDone. apply Legacy_Inv_finishProcessing; cbn.
  - rewrite replay_app, Hr. cbn.
    replace (t0 + Legacy.GLOW_DURATION <=? Legacy.now st) with true
      by (symmetry; apply Nat.leb_le; exact Hdue). reflexivity.
  - exact Hnone.
  - destruct Hg as [->| ->]; cbn; [reflexivity|]. rewrite Nat.eqb_refl. reflexivity.
  - rewrite chronological_app, Hc. apply Nat.leb_le. exact Hk.
  - rewrite lastTime_app. apply le_n.
Qed.

Lemma Legacy_Inv_setPending : forall st glow l,
  Legacy_Inv st glow -> Legacy_Inv (Legacy.setPendingUpdates l st) glow.
Proof. intros st glow l [Hr Hb Ht Hc Hk]. constructor; assumption. Qed.

Lemma Legacy_Inv_start : forall body, Legacy_Inv (Legacy.start body) None.
Proof.
  intro body. constructor; cbn; try reflexivity; try apply le_n. split; reflexivity.
Qed.

Lemma Legacy_Inv_onmessage : forall st glow payload,
  Legacy_Inv st glow ->
  exists glow', Legacy_Inv (Legacy.onmessage toLowerCase headings JSON_parse payload st) glow'.
Proof.
  intros st glow payload HI. pose proof HI as [Hr Hb Ht Hc Hk].
  unfold Legacy.onmessage.
  destruct (JSON_parse payload) as [data|]; [|exists glow; constructor; assumption].
  destruct (type data).
  - exists glow. constructor; try assumption. cbn.
    destruct glow as [t0|].
    + destruct Ht as (h & Ht & _). exists h. split; [exact Ht | left; reflexivity].
    + destruct Ht as [Ht _]. split; [exact Ht | reflexivity].
  - unfold Legacy.handleFileUpdated, Legacy.scheduleFileUpdate.
    apply (Legacy_Inv_processNextUpdate _ glow). constructor; assumption.
  - exists glow. destruct (pending data) as [[l|p]|]; try exact HI.
    apply Legacy_Inv_setPending. exact HI.
  - exists glow. apply Legacy_Inv_setPending. exact HI.
  - exists glow. exact HI.
Qed.

Lemma Legacy_Inv_step : forall st glow a,
  Legacy_Inv st glow ->
  exists glow', Legacy_Inv (Legacy.step toLowerCase headings JSON_parse st a) glow'.
Proof.
  intros st glow a HI. destruct a as [payload|i|ms]; simpl.
  - apply (Legacy_Inv_onmessage _ glow). exact HI.
  - destruct (nth_error (Legacy.timers st) i) as [[due cb]|] eqn:En; [|exists glow; exact HI].
    destruct (Nat.leb_spec due (Legacy.now st)) as [Hdue|]; [|exists glow; exact HI].
    pose proof (Legacy_glowTimers_remove _ _ _ _ En) as Hrem.
    pose proof HI as [Hr Hb Ht Hc Hk].
    destruct cb as [h|]; simpl.
    + destruct Hrem as (pre & post & E1 & E2).
      destruct glow as [t0|].
      * destruct Ht as (h' & Ht & Hg). rewrite Ht in E1.
        destruct pre as [|x pre]; [|destruct pre; discriminate].
        simpl in E1. injection E1 as E1 Eh Epost. subst post h'. simpl in E2.
        exists None. apply (Legacy_Inv_glowDone st t0); [exact HI | exact E2 | exact Hg | lia].
      * destruct Ht as [Ht _]. rewrite Ht in E1. destruct pre; discriminate.
    + apply (Legacy_Inv_processNextUpdate _ glow).
      constructor; try assumption. cbn. rewrite Hrem. exact Ht.
  - exists glow. destruct HI as [Hr Hb Ht Hc Hk].
    constructor; try assumption. cbn. lia.
Qed.

Lemma Legacy_Inv_run : forall acts st glow,
  Legacy_Inv st glow ->
  exists glow', Legacy_Inv (Legacy.run toLowerCase headings JSON_parse st acts) glow'.
Proof.
  induction acts as [|a acts IH]; intros st glow HI; simpl.
  - exists glow. exact HI.
  - destruct (Legacy_Inv_step st glow a HI) as (glow1 & H1). apply (IH _ glow1 H1).
Qed.
End PageRuns.

Section PageBodies.
Variable toLowerCase : jsstring -> jsstring.
Variable headings : jsstring -> list jsstring.
Variable JSON_parse : jsstring -> option SSEData.

Lemma Legacy_bodies_finishProcessing : forall st,
  Legacy_bodies (Legacy.finishProcessing st) = Legacy_bodies st.
Proof.
  intro st. unfold Legacy.finishProcessing, Legacy.scheduleTimeout, Legacy_bodies. cbn.
  destruct (Legacy.updateQueue st) eqn:Eq; cbn; rewrite ?Eq; reflexivity.
Qed.

Lemma Legacy_bodies_processNextUpdate : forall st,
  Legacy_bodies (Legacy.processNextUpdate toLowerCase headings st) = Legacy_bodies st.
Proof.
  intro st. unfold Legacy.processNextUpdate.
  destruct (Legacy.isProcessingQueue st); simpl orb; [reflexivity|].
  destruct (Legacy.updateQueue st) as [|u rest] eqn:Eq; simpl; [reflexivity|].
  assert (Hswap : forall st1,
            Legacy.history st1 = Legacy.history st ++ [Swapped (Legacy.now st) (Legacy.newContent u)] ->
            Legacy.updateQueue st1 = rest ->
            Legacy_bodies st1 = Legacy_bodies st).
  { intros st1 E1 E2. unfold Legacy_bodies. rewrite E1, E2, Eq, swaps_app, <- app_assoc.
    reflexivity. }
  destruct (truthy (Legacy.sectionName u)).
  - unfold Legacy.animateSection.
    match goal with |- context [Legacy.targetHeader ?a ?b ?c ?d] =>
      destruct (Legacy.targetHeader a b c d) as [h|] end.
    + unfold Legacy.scheduleTimeout, Legacy_bodies. cbn.
      rewrite Eq, !swaps_app, <- !app_assoc. reflexivity.
    + rewrite Legacy_bodies_finishProcessing. apply Hswap; reflexivity.
  - rewrite Legacy_bodies_finishProcessing. apply Hswap; reflexivity.
Qed.

Lemma Legacy_bodies_step : forall st a,
  Legacy_bodies (Legacy.step toLowerCase headings JSON_parse st a) =
  Legacy_bodies st ++ arrival JSON_parse a.
Proof.
  intros st a. destruct a as [payload|i|ms]; simpl.
  - unfold Legacy.onmessage.
    destruct (JSON_parse payload) as [data|]; [|rewrite app_nil_r; reflexivity].
    destruct (type data); try (rewrite app_nil_r; reflexivity).
    + unfold Legacy.handleFileUpdated, Legacy.scheduleFileUpdate.
      rewrite Legacy_bodies_processNextUpdate. unfold Legacy_bodies. cbn.
      rewrite map_app, app_assoc. reflexivity.
    + destruct (pending data) as [[l|p]|]; rewrite app_nil_r; reflexivity.
  - rewrite app_nil_r.
    destruct (nth_error (Legacy.timers st) i) as [[due cb]|]; [|reflexivity].
    destruct (due <=? Legacy.now st); [|reflexivity].
    destruct cb as [h|]; simpl.
    + unfold Legacy.glowDone. rewrite Legacy_bodies_finishProcessing.
      unfold Legacy_bodies. cbn. rewrite swaps_app, app_nil_r. reflexivity.
    + rewrite Legacy_bodies_processNextUpdate. reflexivity.
  - rewrite app_nil_r. reflexivity.
Qed.

Lemma Legacy_bodies_run : forall acts st,
  Legacy_bodies (Legacy.run toLowerCase headings JSON_parse st acts) =
  Legacy_bodies st ++ arrivals JSON_parse acts.
Proof.
  induction acts as [|a acts IH]; intro st; simpl.
  - rewrite app_nil_r. reflexivity.
  - rewrite IH, Legacy_bodies_step, <- app_assoc. reflexivity.
Qed.

Lemma Legacy_busy_waits : forall st payload data,
  JSON_parse payload = Some data -> type data = file_updated ->
  Legacy.isProcessingQueue st = true ->
  let st' := Legacy.onmessage toLowerCase headings JSON_parse payload st in
  exists item,
    Legacy.updateQueue st' = Legacy.updateQueue st ++ [item] /\
    Legacy.newContent item = Legacy.contentOf data /\
    Legacy.history st' = Legacy.history st /\
    Legacy.markdownContent st' = Legacy.markdownContent st /\
    Legacy.glowing st' = Legacy.glowing st /\
    Legacy.timers st' = Legacy.timers st.
Proof.
  intros st payload data Hp Ht Hb. cbv zeta. unfold Legacy.onmessage. rewrite Hp, Ht.
  unfold Legacy.handleFileUpdated, Legacy.scheduleFileUpdate, Legacy.processNextUpdate.
  cbn. rewrite Hb. cbn. eexists. repeat split; reflexivity.
Qed.

End PageBodies.

(* ================================================================= *)
(** * Draining one event *)
(* ================================================================= *)

Lemma detectNewSection_same : forall body, detectNewSection body body = None.
Proof.
  intro body. unfold detectNewSection. apply firstNotIn_None. intros x H. exact H.
Qed.

Section Drain.
Variable toLowerCase : jsstring -> jsstring.
Variable headings : jsstring -> list jsstring.
Variable JSON_parse : jsstring -> option SSEData.

(** After the swap the baseline of the page is the new text already, so
    the safety net of [animateSection] finds nothing that the name did
    not. *)
Lemma Legacy_targetHeader_after_swap : forall name st,
  Legacy.displayedContent st = Legacy.markdownContent st ->
  Legacy.targetHeader toLowerCase headings name st =
  Matching.findHeaderElement toLowerCase name (headings (Legacy.rendered st)).
Proof.
  intros name st E. unfold Legacy.targetHeader. rewrite E, detectNewSection_same.
  destruct (Matching.findHeaderElement toLowerCase name (headings (Legacy.rendered st)));
    reflexivity.
Qed.

Lemma Hook_drain : forall st u rest,
  Hook.isProcessing st = false -> Hook.updateQueue st = u :: rest ->
  let st1 := Hook.processNextUpdate st in
  Hook.markdownContent st1 = Hook.newContent u /\
  Hook.updateQueue st1 = rest /\
  match Hook.sectionName u with
  | Some (c :: s) =>
      Hook.history st1 = Hook.history st ++
        [Swapped (Hook.now st) (Hook.newContent u); AnimStart (Hook.now st) (c :: s)] /\
      Hook.animatingSection st1 = Some (c :: s) /\
      Hook.isProcessing st1 = true /\
      Hook.displayedContent st1 = Hook.displayedContent st /\
      Hook.timers st1 = Hook.timers st ++ [(Hook.now st + 500, Hook.AnimationDone u)]
  | _ =>
      Hook.history st1 = Hook.history st ++ [Swapped (Hook.now st) (Hook.newContent u)] /\
      Hook.animatingSection st1 = Hook.animatingSection st /\
      Hook.isProcessing st1 = false /\
      Hook.displayedContent st1 = Hook.newContent u /\
      Hook.timers st1 = Hook.timers st ++ gapTimer rest (Hook.now st) Hook.ProcessNext
  end.
Proof.
  intros st u rest Hp Hq. cbv zeta. unfold Hook.processNextUpdate. rewrite Hp, Hq.
  cbn [List.length Nat.eqb orb].
  destruct (Hook.sectionName u) as [[|c s]|]; unfold Hook.scheduleNext, Hook.setTimeout; cbn;
    try (destruct rest; cbn; rewrite ?app_nil_r; repeat split; reflexivity).
  rewrite <- app_assoc. repeat split; reflexivity.
Qed.

Lemma Hook_expiry : forall st u,
  let st1 := Hook.animationDone u st in
  Hook.history st1 = Hook.history st ++ [AnimEnd (Hook.now st)] /\
  Hook.animatingSection st1 = None /\
  Hook.isProcessing st1 = false /\
  Hook.displayedContent st1 = Hook.newContent u /\
  Hook.markdownContent st1 = Hook.markdownContent st /\
  Hook.updateQueue st1 = Hook.updateQueue st /\
  Hook.timers st1 = Hook.timers st ++ gapTimer (Hook.updateQueue st) (Hook.now st) Hook.ProcessNext.
Proof.
  intros st u. cbv zeta. unfold Hook.animationDone, Hook.scheduleNext, Hook.setTimeout. cbn.
  destruct (Hook.updateQueue st) eqn:Eq; cbn; rewrite ?Eq, ?app_nil_r; repeat split; reflexivity.
Qed.

Lemma Legacy_drain : forall st u rest,
  Legacy.isProcessingQueue st = false -> Legacy.updateQueue st = u :: rest ->
  let st1 := Legacy.processNextUpdate toLowerCase headings st in
  let found :=
    if truthy (Legacy.sectionName u)
    then Matching.findHeaderElement toLowerCase (Legacy.sectionName u)
           (headings (Legacy.newContent u))
    else None in
  Legacy.markdownContent st1 = Legacy.newContent u /\
  Legacy.rendered st1 = Legacy.newContent u /\
  Legacy.updateQueue st1 = rest /\
  Legacy.displayedContent st1 = Legacy.newContent u /\
  match found with
  | Some h =>
      Legacy.history st1 = Legacy.history st ++
        [Swapped (Legacy.now st) (Legacy.newContent u);
         AnimStart (Legacy.now st) (nth h (headings (Legacy.newContent u)) [])] /\
      Legacy.glowing st1 = [h] /\
      Legacy.isProcessingQueue st1 = true /\
      Legacy.timers st1 = Legacy.timers st ++
        [(Legacy.now st + Legacy.GLOW_DURATION, Legacy.GlowDone h)]
  | None =>
      Legacy.history st1 = Legacy.history st ++
        [Swapped (Legacy.now st) (Legacy.newContent u)] /\
      Legacy.glowing st1 = [] /\
      Legacy.isProcessingQueue st1 = false /\
      Legacy.timers st1 = Legacy.timers st ++ gapTimer rest (Legacy.now st) Legacy.ProcessNext
  end.
Proof.
  intros st u rest Hp Hq. cbv zeta. unfold Legacy.processNextUpdate. rewrite Hp, Hq.
  cbn [List.length Nat.eqb orb].
  destruct (truthy (Legacy.sectionName u)).
  - unfold Legacy.animateSection. rewrite Legacy_targetHeader_after_swap by reflexivity.
    cbn [Legacy.rendered Legacy.observe Legacy.setHistory Legacy.renderMarkdownBase
         Legacy.setDisplayedContent Legacy.setGlowing Legacy.setRendered
         Legacy.markdownContent Legacy.setMarkdownContent].
    destruct (Matching.findHeaderElement toLowerCase (Legacy.sectionName u)
                (headings (Legacy.newContent u))) as [h|].
    + unfold Legacy.scheduleTimeout. cbn. rewrite <- app_assoc. repeat split; reflexivity.
    + unfold Legacy.finishProcessing, Legacy.scheduleTimeout. cbn.
      destruct rest; cbn; rewrite ?app_nil_r; repeat split; reflexivity.
  - unfold Legacy.finishProcessing, Legacy.scheduleTimeout. cbn.
    destruct rest; cbn; rewrite ?app_nil_r; repeat split; reflexivity.
Qed.

Lemma Legacy_expiry : forall st h,
  let st1 := Legacy.glowDone h st in
  Legacy.history st1 = Legacy.history st ++ [AnimEnd (Legacy.now st)] /\
  Legacy.isProcessingQueue st1 = false /\
  Legacy.displayedContent st1 = Legacy.markdownContent st /\
  Legacy.markdownContent st1 = Legacy.markdownContent st /\
  Legacy.updateQueue st1 = Legacy.updateQueue st /\
  Legacy.timers st1 = Legacy.timers st ++
    gapTimer (Legacy.updateQueue st) (Legacy.now st) Legacy.ProcessNext.
Proof.
  intros st h. cbv zeta. unfold Legacy.glowDone, Legacy.finishProcessing, Legacy.scheduleTimeout.
  cbn. destruct (Legacy.updateQueue st) eqn:Eq; cbn; rewrite ?Eq, ?app_nil_r;
    repeat split; reflexivity.
Qed.
End Drain.

Section DrainTiming.
Variable toLowerCase : jsstring -> jsstring.
Variable headings : jsstring -> list jsstring.
Variable JSON_parse : jsstring -> option SSEData.

Lemma Hook_timer_not_early : forall st i due cb,
  nth_error (Hook.timers st) i = Some (due, cb) -> Hook.now st < due ->
  Hook.step JSON_parse st (Fire i) = st.
Proof.
  intros st i due cb Hn Hlt. simpl. rewrite Hn.
  destruct (Nat.leb_spec due (Hook.now st)); [lia | reflexivity].
Qed.

Lemma Legacy_timer_not_early : forall st i due cb,
  nth_error (Legacy.timers st) i = Some (due, cb) -> Legacy.now st < due ->
  Legacy.step toLowerCase headings JSON_parse st (Fire i) = st.
Proof.
  intros st i due cb Hn Hlt. simpl. rewrite Hn.
  destruct (Nat.leb_spec due (Legacy.now st)); [lia | reflexivity].
Qed.

End DrainTiming.




(* ================================================================= *)
(** * More on matching and on the baseline of the page *)
(* ================================================================= *)

Section MoreMatching.
Variable toLowerCase : jsstring -> jsstring.

Lemma glowEach_sorted : forall search headers i,
  StronglySorted lt (Matching.glowEach toLowerCase search headers i) /\
  Forall (fun j => i <= j) (Matching.glowEach toLowerCase search headers i).
Proof.
  intros search. induction headers as [|h rest IH]; intro i; simpl.
  - split; constructor.
  - destruct (IH (S i)) as [Hs Hf].
    assert (Hf' : Forall (fun j => i <= j) (Matching.glowEach toLowerCase search rest (S i))).
    { eapply Forall_impl; [|exact Hf]. simpl. intros; lia. }
    destruct (Matching.isMatch (trim (toLowerCase h)) search).
    + split.
      * constructor; [exact Hs|]. eapply Forall_impl; [|exact Hf]. simpl. intros; lia.
      * constructor; [lia | exact Hf'].
    + split; assumption.
Qed.

(** X2.  The React renderer gives the glow to exactly the headers the page
    would score above zero, in document order; the header the page selects
    is one of them, and the renderer lights none exactly when the page
    finds none. *)
Theorem highlighted_are_the_positive_scores : forall name headers,
  (forall j,
     In j (Matching.highlighted toLowerCase name headers) <->
     exists c s h,
       name = Some (c :: s) /\ nth_error headers j = Some h /\
       (0 < Matching.scoreOf toLowerCase (trim (toLowerCase (c :: s))) h)%Z) /\
  StronglySorted lt (Matching.highlighted toLowerCase name headers) /\
  (forall i,
     Matching.findHeaderElement toLowerCase name headers = Some i ->
     In i (Matching.highlighted toLowerCase name headers)) /\
  (Matching.highlighted toLowerCase name headers = [] <->
   Matching.findHeaderElement toLowerCase name headers = None).
Proof.
  intros name headers.
  assert (Hin : forall j,
     In j (Matching.highlighted toLowerCase name headers) <->
     exists c s h,
       name = Some (c :: s) /\ nth_error headers j = Some h /\
       (0 < Matching.scoreOf toLowerCase (trim (toLowerCase (c :: s))) h)%Z).
  { intro j. unfold Matching.highlighted. destruct name as [[|c s]|].
    - split; [contradiction | intros (c & s & h & E & _); discriminate].
    - rewrite glowEach_In. split.
      + intros (k & h & Hj & Hk & Hm). simpl in Hj. subst k.
        exists c, s, h. split; [reflexivity|]. split; [exact Hk|].
        rewrite isMatch_score in Hm. apply negb_true_iff, Z.eqb_neq in Hm.
        pose proof (score_nonneg (trim (toLowerCase h)) (trim (toLowerCase (c :: s)))).
        unfold Matching.scoreOf. lia.
      + intros (c' & s' & h & E & Hk & Hpos). injection E as <- <-.
        exists j, h. split; [reflexivity|]. split; [exact Hk|].
        rewrite isMatch_score. apply negb_true_iff, Z.eqb_neq.
        unfold Matching.scoreOf in Hpos. lia.
    - split; [contradiction | intros (c & s & h & E & _); discriminate]. }
  assert (Hpick : forall i,
     Matching.findHeaderElement toLowerCase name headers = Some i ->
     In i (Matching.highlighted toLowerCase name headers)).
  { intros i Hi. pose proof (findHeaderElement_first_best toLowerCase name headers) as H.
    rewrite Hi in H. destruct H as (c & s & h & E & Hn & Hpos & _).
    apply Hin. exists c, s, h. auto. }
  split; [exact Hin|]. split.
  - unfold Matching.highlighted. destruct name as [[|c s]|]; try constructor.
    apply glowEach_sorted.
  - split; [exact Hpick|]. split.
    + intro Hnil.
      destruct (Matching.findHeaderElement toLowerCase name headers) as [i|] eqn:E; [|reflexivity].
      specialize (Hpick i eq_refl). rewrite Hnil in Hpick. contradiction.
    + intro Hnone. pose proof (findHeaderElement_first_best toLowerCase name headers) as H.
      rewrite Hnone in H.
      destruct (Matching.highlighted toLowerCase name headers) as [|j l] eqn:E; [reflexivity|].
      exfalso. destruct (proj1 (Hin j) (or_introl eq_refl)) as (c & s & h & En & Hk & Hpos).
      destruct H as [Ht | (c' & s' & En' & Hzero)].
      * rewrite En in Ht. discriminate.
      * rewrite En in En'. injection En' as <- <-.
        specialize (Hzero j h Hk). lia.
Qed.
End MoreMatching.

Section PageBaseline.
Variable toLowerCase : jsstring -> jsstring.
Variable headings : jsstring -> list jsstring.
Variable JSON_parse : jsstring -> option SSEData.

Lemma Legacy_synced_finishProcessing : forall st,
  Legacy.rendered st = Legacy.markdownContent st ->
  Legacy_synced (Legacy.finishProcessing st).
Proof.
  intros st H. unfold Legacy.finishProcessing, Legacy.scheduleTimeout, Legacy_synced. cbn.
  destruct (Legacy.updateQueue st); cbn; split; try reflexivity; exact H.
Qed.

Lemma Legacy_synced_processNextUpdate : forall st,
  Legacy_synced st -> Legacy_synced (Legacy.processNextUpdate toLowerCase headings st).
Proof.
  intros st Hs. unfold Legacy.processNextUpdate.
  destruct (Legacy.isProcessingQueue st); simpl orb; [exact Hs|].
  destruct (Legacy.updateQueue st) as [|u rest]; simpl; [exact Hs|].
  destruct (truthy (Legacy.sectionName u)).
  - unfold Legacy.animateSection.
    match goal with |- context [Legacy.targetHeader ?a ?b ?c ?d] =>
      destruct (Legacy.targetHeader a b c d) as [h|] end.
    + split; reflexivity.
    + apply Legacy_synced_finishProcessing. reflexivity.
  - apply Legacy_synced_finishProcessing. reflexivity.
Qed.

Lemma Legacy_synced_step : forall st a,
  Legacy_synced st -> Legacy_synced (Legacy.step toLowerCase headings JSON_parse st a).
Proof.
  intros st a Hs. destruct a as [payload|i|ms]; simpl.
  - unfold Legacy.onmessage. destruct (JSON_parse payload) as [data|]; [|exact Hs].
    destruct (type data); try exact Hs.
    + split; reflexivity.
    + unfold Legacy.handleFileUpdated, Legacy.scheduleFileUpdate.
      apply Legacy_synced_processNextUpdate. exact Hs.
    + destruct (pending data) as [[l|p]|]; exact Hs.
  - destruct (nth_error (Legacy.timers st) i) as [[due cb]|]; [|exact Hs].
    destruct (due <=? Legacy.now st); [|exact Hs].
    destruct cb as [h|]; simpl.
    + unfold Legacy.glowDone. apply Legacy_synced_finishProcessing. apply Hs.
    + apply Legacy_synced_processNextUpdate. exact Hs.
  - exact Hs.
Qed.

Lemma Legacy_synced_run : forall acts st,
  Legacy_synced st -> Legacy_synced (Legacy.run toLowerCase headings JSON_parse st acts).
Proof.
  induction acts as [|a acts IH]; intros st Hs; simpl; [exact Hs|].
  apply IH, Legacy_synced_step, Hs.
Qed.

End PageBaseline.

(* ================================================================= *)
(** * The pending list *)
(* ================================================================= *)

Lemma filter_otherId_fresh : forall pid l,
  (forall q, In q l -> Some (id q) <> pid) -> filter (otherId pid) l = l.
Proof.
  intros pid. induction l as [|q l IH]; intro H; simpl; [reflexivity|].
  assert (Hq : otherId pid q = true) by (apply otherId_true, H; left; reflexivity).
  rewrite Hq, IH; [reflexivity|]. intros x Hx. apply H. right. exact Hx.
Qed.

Lemma filter_otherId_twice : forall pid l,
  filter (otherId pid) (filter (otherId pid) l) = filter (otherId pid) l.
Proof.
  intros pid l. apply filter_otherId_fresh. intros q Hq.
  apply filter_In in Hq. apply otherId_true, Hq.
Qed.

Section PendingRoundTrip.
Variable toLowerCase : jsstring -> jsstring.
Variable headings : jsstring -> list jsstring.
Variable JSON_parse : jsstring -> option SSEData.

(** X4.  A pending update whose id is new to the list, followed by the
    resolution of that id, leaves both viewers exactly as they were;
    resolving the id once more, or resolving an id that is not in the
    list, changes nothing. *)
Theorem pending_update_then_resolved : forall created resolved d1 d2 p
    (st : Hook.State) (lst : Legacy.State),
  JSON_parse created = Some d1 -> type d1 = pending_update ->
  pending d1 = Some (PendingObject p) ->
  JSON_parse resolved = Some d2 -> type d2 = pending_resolved ->
  pending_id d2 = Some (id p) ->
  (forall q, In q (Hook.pendingUpdates st) -> id q <> id p) ->
  (forall q, In q (Legacy.pendingUpdates lst) -> id q <> id p) ->
  Hook.run JSON_parse st [Deliver created; Deliver resolved] = st /\
  Legacy.run toLowerCase headings JSON_parse lst [Deliver created; Deliver resolved] = lst /\
  Hook.run JSON_parse st [Deliver resolved] = st /\
  Legacy.run toLowerCase headings JSON_parse lst [Deliver resolved] = lst /\
  (forall st', Hook.run JSON_parse st' [Deliver resolved; Deliver resolved]
               = Hook.run JSON_parse st' [Deliver resolved]) /\
  (forall lst', Legacy.run toLowerCase headings JSON_parse lst' [Deliver resolved; Deliver resolved]
                = Legacy.run toLowerCase headings JSON_parse lst' [Deliver resolved]).
Proof.
  intros created resolved d1 d2 p st lst P1 T1 O1 P2 T2 I2 Hfresh Lfresh.
  assert (Hf : forall l, (forall q, In q l -> id q <> id p) ->
                 filter (otherId (Some (id p))) (l ++ [p]) = l).
  { intros l H. rewrite filter_app. cbn [filter].
    assert (Hp : otherId (Some (id p)) p = false)
      by (simpl; rewrite streq_refl; reflexivity).
    rewrite Hp, app_nil_r. apply filter_otherId_fresh. intros q Hq E.
    injection E as E. apply (H q Hq E). }
  assert (Hg : forall l, (forall q, In q l -> id q <> id p) ->
                 filter (otherId (Some (id p))) l = l).
  { intros l H. apply filter_otherId_fresh. intros q Hq E. injection E as E. apply (H q Hq E). }
  unfold Hook.run, Legacy.run. simpl.
  unfold Hook.onmessage, Legacy.onmessage. rewrite P1, P2, T1, T2, O1, I2.
  repeat split.
  - cbn. rewrite (Hf _ Hfresh). destruct st; reflexivity.
  - cbn. rewrite (Hf _ Lfresh). destruct lst; reflexivity.
  - rewrite (Hg _ Hfresh). destruct st; reflexivity.
  - rewrite (Hg _ Lfresh). destruct lst; reflexivity.
  - intro st'. cbn. rewrite filter_otherId_twice. reflexivity.
  - intro lst'. cbn. rewrite filter_otherId_twice. reflexivity.
Qed.
End PendingRoundTrip.


(** ** The header the page picks *)

Section FirstBest.
Variable toLowerCase : jsstring -> jsstring.

(** The header [findHeaderElement] returns is the only one that scores
    above zero, at least as high as every header and higher than every
    header before it. *)
Lemma findHeaderElement_unique : forall c s headers i h,
  let search := trim (toLowerCase (c :: s)) in
  nth_error headers i = Some h ->
  (0 < Matching.scoreOf toLowerCase search h)%Z ->
  (forall k h', nth_error headers k = Some h' ->
     (Matching.scoreOf toLowerCase search h' <= Matching.scoreOf toLowerCase search h)%Z) ->
  (forall k h', k < i -> nth_error headers k = Some h' ->
     (Matching.scoreOf toLowerCase search h' < Matching.scoreOf toLowerCase search h)%Z) ->
  Matching.findHeaderElement toLowerCase (Some (c :: s)) headers = Some i.
Proof.
  intros c s headers i h search Hi Hpos Hmax Hfirst.
  pose proof (findHeaderElement_first_best toLowerCase (Some (c :: s)) headers) as Hb.
  destruct (Matching.findHeaderElement toLowerCase (Some (c :: s)) headers) as [j|].
  - destruct Hb as (c' & s' & hj & En & Hj & _ & Hmaxj & Hfirstj).
    injection En as <- <-. fold search in Hmaxj, Hfirstj.
    destruct (Nat.lt_trichotomy j i) as [Hlt|[->|Hgt]].
    + specialize (Hfirst j hj Hlt Hj). specialize (Hmaxj i h Hi). lia.
    + reflexivity.
    + specialize (Hfirstj i h Hgt Hi). specialize (Hmax j hj Hj). lia.
  - destruct Hb as [Hb|(c' & s' & En & Hz)]; [discriminate|].
    injection En as <- <-. fold search in Hz. rewrite (Hz i h Hi) in Hpos. lia.
Qed.

(** X5.  When a header reads as the section name does, case and surrounding
    white space apart, the page picks the first such header, whatever
    headers begin with the name or hold it; and the React renderer glows
    that header too. *)
Theorem page_picks_the_first_exact_header : forall c s headers i h,
  nth_error headers i = Some h ->
  trim (toLowerCase h) = trim (toLowerCase (c :: s)) ->
  (forall k h', k < i -> nth_error headers k = Some h' ->
     trim (toLowerCase h') <> trim (toLowerCase (c :: s))) ->
  Matching.findHeaderElement toLowerCase (Some (c :: s)) headers = Some i /\
  In i (Matching.highlighted toLowerCase (Some (c :: s)) headers).
Proof.
  intros c s headers i h Hi He Hfirst.
  assert (Hh : Matching.scoreOf toLowerCase (trim (toLowerCase (c :: s))) h = 100%Z).
  { unfold Matching.scoreOf, Matching.score. rewrite He, streq_refl. reflexivity. }
  split.
  - apply (findHeaderElement_unique c s headers i h Hi); rewrite Hh.
    + lia.
    + intros k h' _. unfold Matching.scoreOf.
      destruct (score_cases (trim (toLowerCase h')) (trim (toLowerCase (c :: s))))
        as [[H _]|[[H _]|[[H _]|[H _]]]]; rewrite H; lia.
    + intros k h' Hk Hn. unfold Matching.scoreOf.
      destruct (score_cases (trim (toLowerCase h')) (trim (toLowerCase (c :: s))))
        as [[H E]|[[H _]|[[H _]|[H _]]]]; rewrite H; try lia.
      exfalso. apply (Hfirst k h' Hk Hn E).
  - unfold Matching.highlighted. apply glowEach_In. exists i, h.
    split; [reflexivity|]. split; [exact Hi|].
    rewrite isMatch_score. fold (Matching.scoreOf toLowerCase (trim (toLowerCase (c :: s))) h).
    rewrite Hh. reflexivity.
Qed.
End FirstBest.

(** The page passes over two headers that hold the name and picks the one
    that reads as the name does. *)
Lemma page_picks_the_first_exact_header_witness :
  Matching.findHeaderElement toLowerASCII (Some (str "plan"))
    [str "Plan B"; str "The plan"; str " PLAN "; str "plan"] = Some 2.
Proof.
  refine (proj1 (page_picks_the_first_exact_header toLowerASCII 112%N (str "lan")
                   [str "Plan B"; str "The plan"; str " PLAN "; str "plan"] 2
                   (str " PLAN ") _ _ _)).
  - reflexivity.
  - vm_compute. reflexivity.
  - intros [|[|k]] h' Hk Hn; [| |lia]; injection Hn as <-; vm_compute; discriminate.
Defined.


(* ================================================================= *)
(** * The elements of a section *)
(* ================================================================= *)

Lemma collect_In : forall siblings j x,
  In x (Dom.collect siblings j) <->
  j <= x /\ x < j + List.length siblings /\
  forall m, m <= x - j ->
    exists tagName, nth_error siblings m = Some tagName /\ Dom.isHeaderTag tagName = false.
Proof.
  induction siblings as [|t rest IH]; intros j x; simpl.
  - split; [contradiction | intros (H1 & H2 & _); lia].
  - destruct (Dom.isHeaderTag t) eqn:Et; simpl.
    + split; [contradiction|]. intros (_ & _ & H).
      destruct (H 0 (Nat.le_0_l _)) as (t' & E & Ht'). simpl in E. injection E as <-. congruence.
    + rewrite IH. split.
      * intros [<- | (H1 & H2 & H3)].
        -- split; [lia|]. split; [lia|]. intros m Hm. replace m with 0 by lia.
           exists t. split; [reflexivity | exact Et].
        -- split; [lia|]. split; [lia|]. intros [|m] Hm.
           ++ exists t. split; [reflexivity | exact Et].
           ++ simpl. apply H3. lia.
      * intros (H1 & H2 & H3). destruct (Nat.eq_dec j x) as [E|N]; [left; exact E|].
        right. split; [lia|]. split; [lia|]. intros m Hm.
        destruct (H3 (S m)) as (t' & E' & Ht'); [lia|]. exists t'. split; assumption.
Qed.

(** X6.  The elements [getSectionElements] collects for a header are exactly
    the children after it up to the next [h1], [h2] or [h3]: none of them
    is a header, and the sections of two different headers share no
    element. *)
Theorem section_elements_stop_at_next_header : forall children i,
  (forall x,
     In x (Dom.getSectionElements children (Some i)) <->
     i < x /\ x < List.length children /\
     forall m, i < m -> m <= x ->
       exists tagName, nth_error children m = Some tagName /\
                       Dom.isHeaderTag tagName = false) /\
  (forall i' t t' x,
     nth_error children i = Some t -> Dom.isHeaderTag t = true ->
     nth_error children i' = Some t' -> Dom.isHeaderTag t' = true ->
     i <> i' ->
     In x (Dom.getSectionElements children (Some i)) ->
     ~ In x (Dom.getSectionElements children (Some i'))) /\
  Dom.getSectionElements children None = [].
Proof.
  intros children i.
  assert (Hin : forall k x,
     In x (Dom.getSectionElements children (Some k)) <->
     k < x /\ x < List.length children /\
     forall m, k < m -> m <= x ->
       exists tagName, nth_error children m = Some tagName /\
                       Dom.isHeaderTag tagName = false).
  { intros k x. unfold Dom.getSectionElements. rewrite collect_In, length_skipn. split.
    - intros (H1 & H2 & H3). split; [lia|]. split; [lia|]. intros m Hm1 Hm2.
      destruct (H3 (m - S k)) as (t & E & Ht); [lia|].
      rewrite nth_error_skipn in E. replace (S k + (m - S k)) with m in E by lia.
      exists t. split; assumption.
    - intros (H1 & H2 & H3). split; [lia|]. split; [lia|]. intros m Hm.
      destruct (H3 (S k + m)) as (t & E & Ht); [lia | lia|].
      exists t. rewrite nth_error_skipn. split; assumption. }
  split; [apply Hin|]. split; [|reflexivity].
  intros i' t t' x Ei Hi Ei' Hi' Hne Hx Hx'.
  apply Hin in Hx. apply Hin in Hx'.
  destruct Hx as (A1 & A2 & A3). destruct Hx' as (B1 & B2 & B3).
  destruct (Nat.lt_ge_cases i i') as [Hlt|Hge].
  - destruct (A3 i' Hlt) as (t0 & E0 & H0); [lia|]. congruence.
  - destruct (B3 i) as (t0 & E0 & H0); [lia | lia|]. congruence.
Qed.

(* ================================================================= *)
(** * The countdown *)
(* ================================================================= *)

(** X7.  While a chunk is being recorded the countdown shows a whole number of
    seconds from 10 down to 0; it shows 10 during the first second, it is 0
    exactly from 10 s on, and it never goes up as time passes. *)
Theorem secondsLeft_counts_down : forall elapsed later,
  (0 <= elapsed)%Z -> (elapsed <= later)%Z ->
  (0 <= secondsLeft elapsed <= 10)%Z /\
  (secondsLeft elapsed = 10 <-> elapsed < 1000)%Z /\
  (secondsLeft elapsed = 0 <-> 10000 <= elapsed)%Z /\
  (secondsLeft later <= secondsLeft elapsed)%Z /\
  (elapsed < 10000 -> 1000 * (secondsLeft elapsed - 1) < 10000 - elapsed <= 1000 * secondsLeft elapsed)%Z.
Proof.
  intros elapsed later H0 Hl. unfold secondsLeft, CHUNK_DURATION.
  pose proof (Z.div_mod (- (10000 - elapsed)) 1000 ltac:(lia)) as D1.
  pose proof (Z.mod_pos_bound (- (10000 - elapsed)) 1000 ltac:(lia)) as M1.
  pose proof (Z.div_mod (- (10000 - later)) 1000 ltac:(lia)) as D2.
  pose proof (Z.mod_pos_bound (- (10000 - later)) 1000 ltac:(lia)) as M2.
  repeat split; lia.
Qed.


(* ================================================================= *)
(** * Recordings *)
(* ================================================================= *)

Lemma StronglySorted_lt_NoDup : forall l, StronglySorted lt l -> NoDup l.
Proof.
  induction l as [|a l IH]; intro H; [constructor|].
  inversion H as [|? ? Hs Ha]; subst. constructor; [|apply IH; exact Hs].
  intro Hin. rewrite Forall_forall in Ha. specialize (Ha a Hin). lia.
Qed.

Lemma StronglySorted_snoc : forall l x,
  StronglySorted lt l -> Forall (fun y => y < x) l -> StronglySorted lt (l ++ [x]).
Proof.
  induction l as [|a l IH]; intros x Hs Hf; simpl.
  - constructor; constructor.
  - inversion Hs as [|? ? Hs' Ha]; subst. inversion Hf as [|? ? Hax Hf']; subst.
    constructor; [apply IH; assumption|].
    apply Forall_app. split; [exact Ha | constructor; [exact Hax | constructor]].
Qed.

Lemma sorted_filter_out : forall l n,
  StronglySorted lt l -> existsb (Nat.eqb n) l = true ->
  StronglySorted lt (filter (fun m => negb (m =? n)) l) /\
  S (List.length (filter (fun m => negb (m =? n)) l)) = List.length l.
Proof.
  induction l as [|a l IH]; intros n Hs He; simpl in *; [discriminate|].
  inversion Hs as [|? ? Hs' Ha]; subst.
  destruct (Nat.eqb_spec a n) as [->|Hne]; simpl.
  - assert (Hid : filter (fun m => negb (m =? n)) l = l).
    { clear IH He Hs. induction l as [|b l IHl]; simpl; [reflexivity|].
      inversion Ha as [|? ? Hb Ha']; subst. inversion Hs' as [|? ? Hs'' Hb']; subst.
      destruct (Nat.eqb_spec b n); [lia|]. simpl. rewrite IHl by assumption. reflexivity. }
    rewrite Hid. split; [exact Hs' | reflexivity].
  - destruct (Nat.eqb_spec n a); [congruence|]. simpl in He.
    destruct (IH n Hs' He) as [Hs2 Hl]. split; [|simpl; lia].
    constructor; [exact Hs2|].
    rewrite Forall_forall in *. intros x Hx. apply filter_In in Hx. apply Ha, Hx.
Qed.

Lemma Recording_Inv_step : forall s e,
  Recording_Inv s -> Recording_Inv (RecordingRun.step s e).
Proof.
  intros [st waiting] e [Hc Hk Ho Hl Hw Hb Hn Hi]. simpl in *.
  destruct e as [data| |n o]; simpl.
  - (* data arrives *)
    unfold Recording.ondataavailable.
    destruct (Nat.ltb_spec 0 (size data)); constructor; simpl; try assumption.
    apply Forall_app. split; [exact Hc | constructor; [assumption | constructor]].
  - (* the session stops *)
    unfold Recording.onstop.
    destruct (Recording.audioChunks st) as [|b bs] eqn:Ea.
    { simpl. rewrite skipn_all. simpl. rewrite app_nil_r.
      constructor; simpl; try assumption. rewrite Ea. exact Hc. }
    replace (0 <? List.length (b :: bs)) with true by reflexivity.
    assert (Hup : Forall (fun n => n < Recording.chunkCounterRef st + 1)
                    (map snd (Recording.requests st))).
    { rewrite Forall_map. eapply Forall_impl; [|exact Hl]. simpl. intros r Hr. lia. }
    assert (Hl' : Forall (fun r => 1000 < size (fst r) /\
                                   1 <= snd r <= Recording.chunkCounterRef st + 1)
                    (Recording.requests st)).
    { eapply Forall_impl; [|exact Hl]. simpl. intros r Hr. lia. }
    assert (Hb' : Forall (fun n => n <= Recording.chunkCounterRef st + 1) waiting).
    { eapply Forall_impl; [|exact Hb]. simpl. intros; lia. }
    destruct (Nat.ltb_spec 1000 (size (assemble (b :: bs)))) as [Hbig|Hsmall].
    + cbn. rewrite skipn_app, Nat.sub_diag, skipn_all. cbn.
      constructor; cbn; try assumption; try reflexivity.
      * constructor.
      * rewrite map_app. apply StronglySorted_snoc; assumption.
      * apply Forall_app. split; [exact Hl'|]. constructor; [|constructor].
        split; [exact Hbig | simpl; lia].
      * apply StronglySorted_snoc; [exact Hw|].
        eapply Forall_impl; [|exact Hb]. simpl. intros; lia.
      * apply Forall_app. split; [exact Hb'|]. constructor; [lia | constructor].
      * rewrite length_app. simpl. lia.
      * intros n Hin. rewrite map_app. apply in_app_or in Hin. apply in_or_app.
        destruct Hin as [Hin|Hin]; [left; apply Hi; exact Hin | right; exact Hin].
    + cbn. rewrite skipn_all. cbn. rewrite app_nil_r.
      constructor; cbn; try assumption; try reflexivity. constructor.
  - (* a request ends *)
    destruct (existsb (Nat.eqb n) waiting) eqn:Ew; [|constructor; assumption].
    destruct (sorted_filter_out waiting n Hw Ew) as [Hs Hlen].
    constructor; simpl; try assumption.
    + rewrite Forall_forall in *. intros x Hx. apply filter_In in Hx. apply Hb, Hx.
    + lia.
    + intros x Hx. apply filter_In in Hx. apply Hi, Hx.
Qed.

Lemma Recording_Inv_run : forall events s,
  Recording_Inv s -> Recording_Inv (RecordingRun.run s events).
Proof.
  induction events as [|e events IH]; intros s H; simpl; [exact H|].
  apply IH, Recording_Inv_step, H.
Qed.

(** X8.  Throughout a recording with the hook: no empty blob is kept; every
    request carries more than 1000 bytes and a chunk number between 1 and
    the chunk counter; the chunk numbers of the requests go up strictly, so
    no two requests share one; and the number shown as processing is the
    number of requests that have not ended, zero when none is under way. *)
Theorem recording_requests_are_numbered : forall events,
  let st := fst (RecordingRun.run RecordingRun.started events) in
  let waiting := snd (RecordingRun.run RecordingRun.started events) in
  Forall (fun b => 0 < size b) (Recording.audioChunks st) /\
  Recording.chunkCounter st = Recording.chunkCounterRef st /\
  StronglySorted lt (map snd (Recording.requests st)) /\
  NoDup (map snd (Recording.requests st)) /\
  Forall (fun r => 1000 < size (fst r) /\ 1 <= snd r <= Recording.chunkCounter st)
    (Recording.requests st) /\
  Recording.processingCount st = List.length waiting /\
  (forall n, In n waiting -> In n (map snd (Recording.requests st))) /\
  (waiting = [] -> Recording.processingCount st = 0).
Proof.
  intros events st waiting.
  assert (H0 : Recording_Inv RecordingRun.started).
  { constructor; simpl; try constructor; try reflexivity. intros n []. }
  pose proof (Recording_Inv_run events _ H0) as [Hc Hk Ho Hl Hw Hb Hn Hi].
  fold st in Hc, Hk, Ho, Hl, Hb, Hn, Hi. fold waiting in Hw, Hb, Hn, Hi.
  split; [exact Hc|]. split; [exact Hk|]. split; [exact Ho|]. split.
  { apply StronglySorted_lt_NoDup. exact Ho. }
  split; [rewrite Hk; exact Hl|]. split; [exact Hn|]. split.
  - exact Hi.
  - intro E. rewrite Hn, E. reflexivity.
Qed.

(** ** The recorder of the page *)

Lemma existsb_fresh_id : forall (l : list (nat * nat)) n t,
  Forall (fun x => fst x < n) l ->
  existsb (fun x => (fst x =? n) && (snd x =? t)) l = false.
Proof.
  induction l as [|[a b] l IH]; intros n t H; simpl; [reflexivity|].
  inversion H as [|? ? Ha Hl]; subst. simpl in Ha.
  destruct (Nat.eqb_spec a n); [lia|]. simpl. apply IH, Hl.
Qed.

Lemma LegacyRecording_Inv_step : forall st e,
  LegacyRecording_Inv st -> LegacyRecording_Inv (LegacyRecordingRun.step st e).
Proof.
  intros st e [Hc Ho Hl Hr Hb Hs]. destruct e as [data| |ms]; simpl.
  - unfold LegacyRecording.ondataavailable.
    destruct (Nat.ltb_spec 0 (size data)); constructor; simpl; try assumption.
    apply Forall_app. split; [exact Hc | constructor; [assumption | constructor]].
  - unfold LegacyRecording.onstop.
    destruct (LegacyRecording.audioChunks st) as [|b bs] eqn:Ea.
    { simpl. constructor; simpl; try assumption. rewrite Ea. exact Hc. }
    replace (0 <? List.length (b :: bs)) with true by reflexivity.
    assert (Hup : Forall (fun n => n < LegacyRecording.chunkCounter st + 1)
                    (map snd (LegacyRecording.requests st))).
    { rewrite Forall_map. eapply Forall_impl; [|exact Hl]. simpl. intros r Hx. lia. }
    assert (Hl' : Forall (fun r => 1000 < size (fst r) /\
                                   1 <= snd r <= LegacyRecording.chunkCounter st + 1)
                    (LegacyRecording.requests st)).
    { eapply Forall_impl; [|exact Hl]. simpl. intros r Hx. lia. }
    assert (Hfresh : existsb (fun x => (fst x =? LegacyRecording.chunkCounter st + 1) &&
                                       (snd x =? LegacyRecording.clock st))
                       (LegacyRecording.processingChunks st) = false).
    { apply existsb_fresh_id. rewrite Hs, Forall_map. rewrite <- Hr, Forall_map in Hup.
      exact Hup. }
    destruct (Nat.ltb_spec 1000 (size (assemble (b :: bs)))) as [Hbig|Hsmall].
    + cbn. rewrite Hfresh. constructor; cbn; try assumption.
      * constructor.
      * rewrite map_app. apply StronglySorted_snoc; assumption.
      * apply Forall_app. split; [exact Hl'|]. constructor; [|constructor].
        split; [exact Hbig | simpl; lia].
      * rewrite !map_app, Hr. reflexivity.
      * apply Forall_app. split; [exact Hb|]. constructor; [reflexivity | constructor].
      * rewrite map_app, Hs. reflexivity.
    + cbn. constructor; cbn; try assumption. constructor.
  - constructor; simpl; assumption.
Qed.

Lemma LegacyRecording_Inv_run : forall events st,
  LegacyRecording_Inv st -> LegacyRecording_Inv (LegacyRecordingRun.run st events).
Proof.
  induction events as [|e events IH]; intros st H; simpl; [exact H|].
  apply IH, LegacyRecording_Inv_step, H.
Qed.

Lemma NoDup_of_fst : forall (A B : Type) (l : list (A * B)),
  NoDup (map fst l) -> NoDup l.
Proof.
  intros A B l. induction l as [|x l IH]; intro H; [constructor|].
  simpl in H. inversion H as [|? ? Hn Hd]; subst. constructor; [|apply IH, Hd].
  intro Hin. apply Hn, in_map, Hin.
Qed.

(** X9.  Throughout a recording with the page, up to the answers of the
    server: no empty blob is kept; every request carries more than 1000
    bytes and a chunk number between 1 and the chunk counter, and the
    numbers go up strictly; each request has put one item in the transcript
    list, named after its chunk; and no two items share a transcript id,
    whatever the clock does, so that [updateTranscriptItem] finds the item
    of its own chunk and [processingChunks.add] never meets an id it
    already holds. *)
Theorem page_recording_ids_are_distinct : forall t events,
  let st := LegacyRecordingRun.run (LegacyRecordingRun.started t) events in
  Forall (fun b => 0 < size b) (LegacyRecording.audioChunks st) /\
  StronglySorted lt (map snd (LegacyRecording.requests st)) /\
  Forall (fun r => 1000 < size (fst r) /\ 1 <= snd r <= LegacyRecording.chunkCounter st)
    (LegacyRecording.requests st) /\
  map LegacyRecording.rowChunk (LegacyRecording.rows st) =
    map snd (LegacyRecording.requests st) /\
  NoDup (map LegacyRecording.rowId (LegacyRecording.rows st)) /\
  NoDup (LegacyRecording.processingChunks st) /\
  List.length (LegacyRecording.processingChunks st) =
    List.length (LegacyRecording.requests st).
Proof.
  intros t events st.
  assert (H0 : LegacyRecording_Inv (LegacyRecordingRun.started t)).
  { constructor; simpl; try constructor; reflexivity. }
  pose proof (LegacyRecording_Inv_run events _ H0) as [Hc Ho Hl Hr Hb Hs].
  fold st in Hc, Ho, Hl, Hr, Hb, Hs.
  assert (Hd : NoDup (map LegacyRecording.rowId (LegacyRecording.rows st))).
  { apply NoDup_of_fst. rewrite map_map, Hr. apply StronglySorted_lt_NoDup, Ho. }
  split; [exact Hc|]. split; [exact Ho|]. split; [exact Hl|]. split.
  { rewrite <- Hr. apply map_ext_Forall. exact Hb. }
  split; [exact Hd|]. split; [rewrite Hs; exact Hd|].
  rewrite Hs, length_map. rewrite <- (length_map snd (LegacyRecording.requests st)), <- Hr.
  rewrite length_map. reflexivity.
Qed.


(* ================================================================= *)
(** * The queue is never stranded, and drains *)
(* ================================================================= *)

Lemma nth_error_snoc_last : forall {A} (l : list A) x,
  nth_error (l ++ [x]) (List.length l) = Some x.
Proof. intros A l x. rewrite nth_error_app2, Nat.sub_diag by lia. reflexivity. Qed.

Lemma Forall_removeNth : forall (A : Type) (P : A -> Prop) l i,
  Forall P l -> Forall P (removeNth i l).
Proof.
  intros A P l. induction l as [|x l IH]; intros i H; [destruct i; exact H|].
  inversion H as [|? ? Hx Hl]; subst. destruct i as [|i]; simpl; [exact Hl|].
  constructor; [exact Hx | apply IH, Hl].
Qed.

Lemma run_app_Hook : forall parse a1 a2 st,
  Hook.run parse st (a1 ++ a2) = Hook.run parse (Hook.run parse st a1) a2.
Proof. intros. unfold Hook.run. apply fold_left_app. Qed.

Lemma arrivals_silent : forall parse acts,
  forallb silent acts = true -> arrivals parse acts = [].
Proof.
  intros parse. induction acts as [|a acts IH]; intro H; simpl in *; [reflexivity|].
  apply andb_true_iff in H. destruct H as [Ha Hs].
  destruct a; try discriminate; simpl; apply IH; exact Hs.
Qed.

Lemma Hook_Ready_scheduleNext : forall st,
  Hook.isProcessing st = false -> Hook_Ready (Hook.scheduleNext st).
Proof.
  intros st Hp. unfold Hook.scheduleNext, Hook.setTimeout, Hook_Ready.
  destruct (Hook.updateQueue st) as [|u rest] eqn:Eq; cbn.
  - rewrite Eq. intros _ H. contradiction.
  - intros _ _. exists (List.length (Hook.timers st)), (Hook.now st + 100).
    apply nth_error_snoc_last.
Qed.

(** However it is called, [processNextUpdate] leaves a timer behind when
    it leaves the hook idle with items waiting. *)
Lemma Hook_Ready_processNextUpdate : forall st,
  Hook_Ready st -> Hook_Ready (Hook.processNextUpdate st).
Proof.
  intros st Hr. unfold Hook.processNextUpdate.
  destruct (Hook.isProcessing st) eqn:Ep; simpl orb; [exact Hr|].
  destruct (Hook.updateQueue st) as [|u rest] eqn:Eq; simpl; [exact Hr|].
  destruct (Hook.sectionName u) as [[|c s]|].
  - apply Hook_Ready_scheduleNext. reflexivity.
  - intros Hp. discriminate.
  - apply Hook_Ready_scheduleNext. reflexivity.
Qed.

Lemma Hook_Ready_arrival : forall st item,
  Hook_Ready st ->
  Hook_Ready (Hook.processNextUpdate (Hook.setUpdateQueue (Hook.updateQueue st ++ [item]) st)).
Proof.
  intros st item Hr. unfold Hook.processNextUpdate. cbn.
  destruct (Hook.isProcessing st) eqn:Ep; simpl orb.
  { intro Hp. cbn in Hp. congruence. }
  destruct (Hook.updateQueue st ++ [item]) as [|u rest] eqn:Eq; simpl.
  { destruct (Hook.updateQueue st); discriminate. }
  destruct (Hook.sectionName u) as [[|c s]|].
  - apply Hook_Ready_scheduleNext. reflexivity.
  - intros Hp. discriminate.
  - apply Hook_Ready_scheduleNext. reflexivity.
Qed.

Lemma Hook_glowTimers_In : forall l x,
  In x (Hook_glowTimers l) -> exists i u, nth_error l i = Some (x, Hook.AnimationDone u).
Proof.
  induction l as [|[d c] l IH]; intros x H.
  - contradiction.
  - unfold Hook_glowTimers in H. simpl in H. apply in_app_or in H. destruct H as [H|H].
    + destruct c as [u|]; simpl in H; [|contradiction].
      destruct H as [<-|[]]. exists 0, u. reflexivity.
    + destruct (IH x H) as (i & u & E). exists (S i), u. exact E.
Qed.

Lemma Hook_Timely_scheduleNext : forall st,
  Hook_Timely st -> Hook_Timely (Hook.scheduleNext st).
Proof.
  intros st H. unfold Hook.scheduleNext, Hook.setTimeout, Hook_Timely.
  destruct (0 <? List.length (Hook.updateQueue st)); [|exact H].
  cbn. apply Forall_app. split; [exact H|]. constructor; [simpl; lia | constructor].
Qed.

Lemma Hook_Timely_processNextUpdate : forall st,
  Hook_Timely st -> Hook_Timely (Hook.processNextUpdate st).
Proof.
  intros st H. unfold Hook.processNextUpdate.
  destruct (Hook.isProcessing st || (List.length (Hook.updateQueue st) =? 0)); [exact H|].
  destruct (Hook.updateQueue st) as [|u rest]; [exact H|].
  destruct (Hook.sectionName u) as [[|c s]|].
  - apply Hook_Timely_scheduleNext. exact H.
  - unfold Hook.setTimeout, Hook_Timely. cbn.
    apply Forall_app. split; [exact H|]. constructor; [simpl; lia | constructor].
  - apply Hook_Timely_scheduleNext. exact H.
Qed.

Section HookProgress.
Variable JSON_parse : jsstring -> option SSEData.

Lemma Hook_Ready_step : forall st a,
  Hook_Ready st -> Hook_Ready (Hook.step JSON_parse st a).
Proof.
  intros st a Hr. destruct a as [payload|i|ms]; simpl.
  - unfold Hook.onmessage. destruct (JSON_parse payload) as [data|]; [|exact Hr].
    destruct (type data); try exact Hr.
    + destruct (Wire.transcript data); exact Hr.
    + unfold Hook.handleFileUpdated, Hook.scheduleFileUpdate.
      apply Hook_Ready_arrival. exact Hr.
    + destruct (pending data) as [[l|p]|]; exact Hr.
  - destruct (nth_error (Hook.timers st) i) as [[due cb]|]; [|exact Hr].
    destruct (due <=? Hook.now st); [|exact Hr].
    destruct cb as [u|]; simpl.
    + unfold Hook.animationDone. apply Hook_Ready_scheduleNext. reflexivity.
    + unfold Hook.processNextUpdate. cbn.
      destruct (Hook.isProcessing st) eqn:Ep; simpl orb.
      { intro Hp. cbn in Hp. congruence. }
      destruct (Hook.updateQueue st) as [|u rest] eqn:Eq; simpl.
      { intros _ Hq. cbn in Hq. congruence. }
      destruct (Hook.sectionName u) as [[|c s]|].
      * apply Hook_Ready_scheduleNext. reflexivity.
      * intros Hp. discriminate.
      * apply Hook_Ready_scheduleNext. reflexivity.
  - exact Hr.
Qed.

Lemma Hook_Ready_run : forall acts st,
  Hook_Ready st -> Hook_Ready (Hook.run JSON_parse st acts).
Proof.
  induction acts as [|a acts IH]; intros st H; simpl; [exact H|].
  apply IH, Hook_Ready_step, H.
Qed.

Lemma Hook_Timely_step : forall st a,
  Hook_Timely st -> Hook_Timely (Hook.step JSON_parse st a).
Proof.
  intros st a H. destruct a as [payload|i|ms]; simpl.
  - unfold Hook.onmessage. destruct (JSON_parse payload) as [data|]; [|exact H].
    destruct (type data); try exact H.
    + destruct (Wire.transcript data); exact H.
    + unfold Hook.handleFileUpdated, Hook.scheduleFileUpdate.
      apply Hook_Timely_processNextUpdate. exact H.
    + destruct (pending data) as [[l|p]|]; exact H.
  - destruct (nth_error (Hook.timers st) i) as [[due cb]|]; [|exact H].
    destruct (due <=? Hook.now st); [|exact H].
    assert (H' : Hook_Timely (Hook.setTimers (removeNth i (Hook.timers st)) st)).
    { unfold Hook_Timely. cbn. apply Forall_removeNth. exact H. }
    destruct cb as [u|]; simpl.
    + unfold Hook.animationDone. apply Hook_Timely_scheduleNext. exact H'.
    + apply Hook_Timely_processNextUpdate. exact H'.
  - unfold Hook_Timely in *. cbn. eapply Forall_impl; [|exact H]. simpl. intros t Ht. lia.
Qed.

Lemma Hook_Timely_run : forall acts st,
  Hook_Timely st -> Hook_Timely (Hook.run JSON_parse st acts).
Proof.
  induction acts as [|a acts IH]; intros st H; simpl; [exact H|].
  apply IH, Hook_Timely_step, H.
Qed.

(** Two turns of the event loop: the time passes until the timer [i] is
    due, and it fires. *)
Lemma Hook_wait_and_fire : forall st i due cb,
  nth_error (Hook.timers st) i = Some (due, cb) ->
  Hook.run JSON_parse st [Tick (due - Hook.now st); Fire i] =
  Hook.runCallback cb
    (Hook.setTimers (removeNth i (Hook.timers st))
       (Hook.setNow (Hook.now st + (due - Hook.now st)) st)).
Proof.
  intros st i due cb Hn. simpl. rewrite Hn.
  replace (due <=? Hook.now st + (due - Hook.now st)) with true
    by (symmetry; apply Nat.leb_le; lia).
  reflexivity.
Qed.

Lemma Hook_drains : forall n st glow,
  Hook_Inv st glow -> Hook_Ready st -> Hook_Timely st -> Hook_todo st <= n ->
  exists more,
    forallb silent more = true /\
    Hook.updateQueue (Hook.run JSON_parse st more) = [] /\
    Hook.isProcessing (Hook.run JSON_parse st more) = false /\
    waited more <= 600 * List.length (Hook.updateQueue st) +
                   (if Hook.isProcessing st then 500 else 0).
Proof.
  induction n as [|n IH]; intros st glow HI Hr Hy Hn; unfold Hook_todo in Hn.
  - exists []. simpl. split; [reflexivity|].
    destruct (Hook.updateQueue st); [|simpl in Hn; lia].
    destruct (Hook.isProcessing st); [simpl in Hn; lia|]. repeat split; lia.
  - destruct (Hook.isProcessing st) eqn:Ep.
    + (* a section glows: wait for its timer *)
      pose proof HI as [_ Hb _ _ Ht _ _]. rewrite Ep in Hb.
      destruct glow as [t0|]; [|discriminate].
      destruct (Hook_glowTimers_In (Hook.timers st) (t0 + 500)) as (i & u & Ei).
      { rewrite Ht. left. reflexivity. }
      pose proof (Hook_wait_and_fire st i _ _ Ei) as E1. simpl Hook.runCallback in E1.
      destruct (Hook_Inv_run JSON_parse [Tick (t0 + 500 - Hook.now st); Fire i] st _ HI)
        as (g1 & HI1).
      pose proof (Hook_Ready_run [Tick (t0 + 500 - Hook.now st); Fire i] st Hr) as Hr1.
      pose proof (Hook_Timely_run [Tick (t0 + 500 - Hook.now st); Fire i] st Hy) as Hy1.
      assert (Hdue : t0 + 500 <= Hook.now st + 500).
      { unfold Hook_Timely in Hy. rewrite Forall_forall in Hy.
        apply (Hy _ (nth_error_In _ _ Ei)). }
      rewrite E1 in HI1, Hr1, Hy1.
      destruct (Hook_expiry (Hook.setTimers (removeNth i (Hook.timers st))
                   (Hook.setNow (Hook.now st + (t0 + 500 - Hook.now st)) st)) u)
        as (_ & _ & Hp1 & _ & _ & Hq1 & _).
      destruct (IH _ g1 HI1 Hr1 Hy1) as (more & Hs & Hq & Hp & Hw).
      { unfold Hook_todo. rewrite Hp1, Hq1. cbn. lia. }
      rewrite Hp1, Hq1 in Hw. cbn in Hw.
      exists ([Tick (t0 + 500 - Hook.now st); Fire i] ++ more).
      rewrite run_app_Hook, E1. split; [exact Hs|]. split; [exact Hq|].
      split; [exact Hp|]. simpl. lia.
    + destruct (Hook.updateQueue st) as [|u rest] eqn:Eq.
      { exists []. simpl. rewrite Eq, Ep. repeat split; lia. }
      (* items wait: wait for the timer that runs [processNextUpdate] *)
      assert (Hr0 : Hook_Ready st) by exact Hr.
      destruct Hr as (i & due & Ei); [exact Ep | rewrite Eq; discriminate|].
      pose proof (Hook_wait_and_fire st i _ _ Ei) as E1. simpl Hook.runCallback in E1.
      destruct (Hook_Inv_run JSON_parse [Tick (due - Hook.now st); Fire i] st _ HI)
        as (g1 & HI1).
      pose proof (Hook_Ready_run [Tick (due - Hook.now st); Fire i] st Hr0) as Hr1.
      pose proof (Hook_Timely_run [Tick (due - Hook.now st); Fire i] st Hy) as Hy1.
      assert (Hdue : due <= Hook.now st + 100).
      { unfold Hook_Timely in Hy. rewrite Forall_forall in Hy.
        apply (Hy _ (nth_error_In _ _ Ei)). }
      rewrite E1 in HI1, Hr1, Hy1.
      destruct (Hook_drain (Hook.setTimers (removeNth i (Hook.timers st))
                   (Hook.setNow (Hook.now st + (due - Hook.now st)) st)) u rest Ep Eq)
        as (_ & Hq1 & _).
      destruct (IH _ g1 HI1 Hr1 Hy1) as (more & Hs & Hq & Hp & Hw).
      { unfold Hook_todo. rewrite Hq1. simpl in Hn.
        match goal with |- context [if ?b then 1 else 0] => destruct b end; lia. }
      rewrite Hq1 in Hw.
      exists ([Tick (due - Hook.now st); Fire i] ++ more).
      rewrite run_app_Hook, E1. split; [exact Hs|]. split; [exact Hq|].
      split; [exact Hp|]. simpl List.length. simpl waited.
      match type of Hw with context [if ?b then 500 else 0] => destruct b end; lia.
Qed.

(** X10.  In every run of the hook the queue is never stranded: while a section
    glows the timer that ends the glow is pending, and when the hook is
    idle with items waiting a timer is pending that shows the next one.
    Letting the time pass and the timers fire empties the queue, within
    600 ms for each item that waits and 500 ms for the glow under way:
    every body that has arrived is then shown, in the order of arrival. *)
Theorem hook_queue_drains : forall body acts,
  let st := Hook.run JSON_parse (Hook.start body) acts in
  (Hook.isProcessing st = true ->
   exists i due u, nth_error (Hook.timers st) i = Some (due, Hook.AnimationDone u)) /\
  (Hook.isProcessing st = false -> Hook.updateQueue st <> [] ->
   exists i due, nth_error (Hook.timers st) i = Some (due, Hook.ProcessNext)) /\
  exists more,
    forallb silent more = true /\
    let st' := Hook.run JSON_parse st more in
    Hook.updateQueue st' = [] /\
    Hook.isProcessing st' = false /\
    Hook.animatingSection st' = None /\
    swaps (Hook.history st') = arrivals JSON_parse acts /\
    waited more <= 600 * List.length (Hook.updateQueue st) +
                   (if Hook.isProcessing st then 500 else 0).
Proof.
  intros body acts st.
  destruct (Hook_Inv_run JSON_parse acts (Hook.start body) None (Hook_Inv_start body))
    as (g & HI).
  assert (Hr : Hook_Ready st).
  { apply Hook_Ready_run. intros _ H. exfalso. apply H. reflexivity. }
  fold st in HI. split; [|split; [exact Hr|]].
  - intro Hp. pose proof HI as [_ Hb _ _ Ht _ _]. rewrite Hp in Hb.
    destruct g as [t0|]; [|discriminate].
    destruct (Hook_glowTimers_In (Hook.timers st) (t0 + 500)) as (i & u & Ei).
    { rewrite Ht. left. reflexivity. }
    exists i, (t0 + 500), u. exact Ei.
  - assert (Hy : Hook_Timely st) by (apply Hook_Timely_run; constructor).
    destruct (Hook_drains (Hook_todo st) st g HI Hr Hy (le_n _))
      as (more & Hs & Hq & Hp & Hw).
    exists more. split; [exact Hs|]. cbv zeta. split; [exact Hq|]. split; [exact Hp|].
    destruct (Hook_Inv_run JSON_parse more st g HI) as (g' & [_ _ _ Hi _ _ _]).
    split; [apply Hi; exact Hp|]. split; [|exact Hw].
    pose proof (Hook_bodies_run JSON_parse (acts ++ more) (Hook.start body)) as Hb.
    rewrite run_app_Hook in Hb. fold st in Hb. unfold Hook_bodies in Hb.
    rewrite Hq, arrivals_app, (arrivals_silent _ _ Hs), !app_nil_r in Hb. exact Hb.
Qed.
End HookProgress.

(** ** The page *)

Lemma Legacy_Ready_finishProcessing : forall st,
  Legacy_Ready (Legacy.finishProcessing st).
Proof.
  intros st. unfold Legacy.finishProcessing, Legacy.scheduleTimeout, Legacy_Ready.
  cbn. destruct (Legacy.updateQueue st) as [|u rest] eqn:Eq; cbn.
  - rewrite Eq. intros _ H. contradiction.
  - intros _ _. exists (List.length (Legacy.timers st)), (Legacy.now st + 100).
    apply nth_error_snoc_last.
Qed.

Lemma Legacy_glowTimers_In : forall l x,
  In x (Legacy_glowTimers l) ->
  exists i, nth_error l i = Some (fst x, Legacy.GlowDone (snd x)).
Proof.
  induction l as [|[d c] l IH]; intros x H.
  - contradiction.
  - unfold Legacy_glowTimers in H. simpl in H. apply in_app_or in H. destruct H as [H|H].
    + destruct c as [h|]; simpl in H; [|contradiction].
      destruct H as [<-|[]]. exists 0. reflexivity.
    + destruct (IH x H) as (i & E). exists (S i). exact E.
Qed.

Lemma Legacy_Timely_finishProcessing : forall st,
  Legacy_Timely st -> Legacy_Timely (Legacy.finishProcessing st).
Proof.
  intros st H. unfold Legacy.finishProcessing, Legacy.scheduleTimeout, Legacy_Timely.
  cbn. destruct (Legacy.updateQueue st) as [|u rest]; cbn; [exact H|].
  apply Forall_app. split; [exact H|]. constructor; [simpl; lia | constructor].
Qed.

Section PageProgress.
Variable toLowerCase : jsstring -> jsstring.
Variable headings : jsstring -> list jsstring.
Variable JSON_parse : jsstring -> option SSEData.

Lemma run_app_Legacy : forall a1 a2 st,
  Legacy.run toLowerCase headings JSON_parse st (a1 ++ a2) =
  Legacy.run toLowerCase headings JSON_parse
    (Legacy.run toLowerCase headings JSON_parse st a1) a2.
Proof. intros. unfold Legacy.run. apply fold_left_app. Qed.

Lemma Legacy_Ready_drained : forall st u rest,
  Legacy.updateQueue st = u :: rest -> Legacy.isProcessingQueue st = false ->
  Legacy_Ready (Legacy.processNextUpdate toLowerCase headings st).
Proof.
  intros st u rest Eq Ep. unfold Legacy.processNextUpdate. rewrite Ep, Eq. simpl.
  destruct (truthy (Legacy.sectionName u)).
  - unfold Legacy.animateSection.
    match goal with |- context [Legacy.targetHeader ?a ?b ?c ?d] =>
      destruct (Legacy.targetHeader a b c d) as [h|] end.
    + intro Hp. discriminate.
    + apply Legacy_Ready_finishProcessing.
  - apply Legacy_Ready_finishProcessing.
Qed.

Lemma Legacy_Ready_step : forall st a,
  Legacy_Ready st -> Legacy_Ready (Legacy.step toLowerCase headings JSON_parse st a).
Proof.
  intros st a Hr. destruct a as [payload|i|ms]; simpl.
  - unfold Legacy.onmessage. destruct (JSON_parse payload) as [data|]; [|exact Hr].
    destruct (type data); try exact Hr.
    + unfold Legacy.handleFileUpdated, Legacy.scheduleFileUpdate.
      destruct (Legacy.isProcessingQueue st) eqn:Ep.
      * unfold Legacy.processNextUpdate. cbn. rewrite Ep. simpl.
        intro Hp. cbn in Hp. congruence.
      * destruct (Legacy.updateQueue st ++
                  [{| Legacy.oldContent := Legacy.markdownContent st;
                      Legacy.newContent := Legacy.contentOf data;
                      Legacy.sectionName :=
                        Legacy.resolveSection data (Legacy.markdownContent st)
                          (Legacy.contentOf data);
                      Legacy.timestamp := Legacy.now st |}]) as [|u rest] eqn:Eq.
        { destruct (Legacy.updateQueue st); discriminate. }
        apply (Legacy_Ready_drained _ u rest); [reflexivity | exact Ep].
    + destruct (pending data) as [[l|p]|]; exact Hr.
  - destruct (nth_error (Legacy.timers st) i) as [[due cb]|]; [|exact Hr].
    destruct (due <=? Legacy.now st); [|exact Hr].
    destruct cb as [h|]; simpl.
    + unfold Legacy.glowDone. apply Legacy_Ready_finishProcessing.
    + destruct (Legacy.isProcessingQueue st) eqn:Ep.
      * unfold Legacy.processNextUpdate. cbn. rewrite Ep. simpl.
        intro Hp. cbn in Hp. congruence.
      * destruct (Legacy.updateQueue st) as [|u rest] eqn:Eq.
        -- unfold Legacy.processNextUpdate. cbn. rewrite Ep, Eq. simpl.
           intros _ Hq. cbn in Hq. congruence.
        -- apply (Legacy_Ready_drained _ u rest); [exact Eq | exact Ep].
  - exact Hr.
Qed.

Lemma Legacy_Ready_run : forall acts st,
  Legacy_Ready st -> Legacy_Ready (Legacy.run toLowerCase headings JSON_parse st acts).
Proof.
  induction acts as [|a acts IH]; intros st H; simpl; [exact H|].
  apply IH, Legacy_Ready_step, H.
Qed.

Lemma Legacy_Timely_processNextUpdate : forall st,
  Legacy_Timely st -> Legacy_Timely (Legacy.processNextUpdate toLowerCase headings st).
Proof.
  intros st H. unfold Legacy.processNextUpdate.
  destruct (Legacy.isProcessingQueue st || (List.length (Legacy.updateQueue st) =? 0));
    [exact H|].
  destruct (Legacy.updateQueue st) as [|u rest]; [exact H|].
  cbv zeta. destruct (truthy (Legacy.sectionName u)).
  - unfold Legacy.animateSection.
    match goal with |- context [Legacy.targetHeader ?a ?b ?c ?d] =>
      destruct (Legacy.targetHeader a b c d) as [h|] end.
    + unfold Legacy.scheduleTimeout, Legacy_Timely. cbn.
      apply Forall_app. split; [exact H|]. constructor; [simpl; lia | constructor].
    + apply Legacy_Timely_finishProcessing. exact H.
  - apply Legacy_Timely_finishProcessing. exact H.
Qed.

Lemma Legacy_Timely_step : forall st a,
  Legacy_Timely st -> Legacy_Timely (Legacy.step toLowerCase headings JSON_parse st a).
Proof.
  intros st a H. destruct a as [payload|i|ms]; simpl.
  - unfold Legacy.onmessage. destruct (JSON_parse payload) as [data|]; [|exact H].
    destruct (type data); try exact H.
    + unfold Legacy.handleFileUpdated, Legacy.scheduleFileUpdate.
      apply Legacy_Timely_processNextUpdate. exact H.
    + destruct (pending data) as [[l|p]|]; exact H.
  - destruct (nth_error (Legacy.timers st) i) as [[due cb]|]; [|exact H].
    destruct (due <=? Legacy.now st); [|exact H].
    assert (H' : Legacy_Timely (Legacy.setTimers (removeNth i (Legacy.timers st)) st)).
    { unfold Legacy_Timely. cbn. apply Forall_removeNth. exact H. }
    destruct cb as [h|]; simpl.
    + unfold Legacy.glowDone. apply Legacy_Timely_finishProcessing. exact H'.
    + apply Legacy_Timely_processNextUpdate. exact H'.
  - unfold Legacy_Timely in *. cbn. eapply Forall_impl; [|exact H]. simpl. intros t Ht. lia.
Qed.

Lemma Legacy_Timely_run : forall acts st,
  Legacy_Timely st -> Legacy_Timely (Legacy.run toLowerCase headings JSON_parse st acts).
Proof.
  induction acts as [|a acts IH]; intros st H; simpl; [exact H|].
  apply IH, Legacy_Timely_step, H.
Qed.

Lemma Legacy_wait_and_fire : forall st i due cb,
  nth_error (Legacy.timers st) i = Some (due, cb) ->
  Legacy.run toLowerCase headings JSON_parse st [Tick (due - Legacy.now st); Fire i] =
  Legacy.runCallback toLowerCase headings cb
    (Legacy.setTimers (removeNth i (Legacy.timers st))
       (Legacy.setNow (Legacy.now st + (due - Legacy.now st)) st)).
Proof.
  intros st i due cb Hn. simpl. rewrite Hn.
  replace (due <=? Legacy.now st + (due - Legacy.now st)) with true
    by (symmetry; apply Nat.leb_le; lia).
  reflexivity.
Qed.

Lemma Legacy_drains : forall n st glow,
  Legacy_Inv st glow -> Legacy_Ready st -> Legacy_Timely st -> Legacy_todo st <= n ->
  exists more,
    forallb silent more = true /\
    Legacy.updateQueue (Legacy.run toLowerCase headings JSON_parse st more) = [] /\
    Legacy.isProcessingQueue (Legacy.run toLowerCase headings JSON_parse st more) = false /\
    waited more <= 600 * List.length (Legacy.updateQueue st) +
                   (if Legacy.isProcessingQueue st then 500 else 0).
Proof.
  induction n as [|n IH]; intros st glow HI Hr Hy Hn; unfold Legacy_todo in Hn.
  - exists []. simpl. split; [reflexivity|].
    destruct (Legacy.updateQueue st); [|simpl in Hn; lia].
    destruct (Legacy.isProcessingQueue st); [simpl in Hn; lia|]. repeat split; lia.
  - destruct (Legacy.isProcessingQueue st) eqn:Ep.
    + pose proof HI as [_ Hb Ht _ _]. rewrite Ep in Hb.
      destruct glow as [t0|]; [|discriminate].
      destruct Ht as (h & Ht & _).
      destruct (Legacy_glowTimers_In (Legacy.timers st) (t0 + Legacy.GLOW_DURATION, h))
        as (i & Ei); [rewrite Ht; left; reflexivity|].
      simpl fst in Ei. simpl snd in Ei.
      pose proof (Legacy_wait_and_fire st i _ _ Ei) as E1. simpl Legacy.runCallback in E1.
      destruct (Legacy_Inv_run toLowerCase headings JSON_parse
                  [Tick (t0 + Legacy.GLOW_DURATION - Legacy.now st); Fire i] st _ HI)
        as (g1 & HI1).
      pose proof (Legacy_Ready_run
                    [Tick (t0 + Legacy.GLOW_DURATION - Legacy.now st); Fire i] st Hr) as Hr1.
      pose proof (Legacy_Timely_run
                    [Tick (t0 + Legacy.GLOW_DURATION - Legacy.now st); Fire i] st Hy) as Hy1.
      assert (Hdue : t0 + Legacy.GLOW_DURATION <= Legacy.now st + 500).
      { unfold Legacy_Timely in Hy. rewrite Forall_forall in Hy.
        apply (Hy _ (nth_error_In _ _ Ei)). }
      rewrite E1 in HI1, Hr1, Hy1.
      destruct (Legacy_expiry
                  (Legacy.setTimers (removeNth i (Legacy.timers st))
                     (Legacy.setNow
                        (Legacy.now st + (t0 + Legacy.GLOW_DURATION - Legacy.now st)) st)) h)
        as (_ & Hp1 & _ & _ & Hq1 & _).
      destruct (IH _ g1 HI1 Hr1 Hy1) as (more & Hs & Hq & Hp & Hw).
      { unfold Legacy_todo. rewrite Hp1, Hq1. cbn. lia. }
      rewrite Hp1, Hq1 in Hw. cbn in Hw.
      exists ([Tick (t0 + Legacy.GLOW_DURATION - Legacy.now st); Fire i] ++ more).
      rewrite run_app_Legacy, E1. split; [exact Hs|]. split; [exact Hq|].
      split; [exact Hp|]. simpl. lia.
    + destruct (Legacy.updateQueue st) as [|u rest] eqn:Eq.
      { exists []. simpl. rewrite Eq, Ep. repeat split; lia. }
      assert (Hr0 : Legacy_Ready st) by exact Hr.
      destruct Hr as (i & due & Ei); [exact Ep | rewrite Eq; discriminate|].
      pose proof (Legacy_wait_and_fire st i _ _ Ei) as E1. simpl Legacy.runCallback in E1.
      destruct (Legacy_Inv_run toLowerCase headings JSON_parse
                  [Tick (due - Legacy.now st); Fire i] st _ HI) as (g1 & HI1).
      pose proof (Legacy_Ready_run [Tick (due - Legacy.now st); Fire i] st Hr0) as Hr1.
      pose proof (Legacy_Timely_run [Tick (due - Legacy.now st); Fire i] st Hy) as Hy1.
      assert (Hdue : due <= Legacy.now st + 100).
      { unfold Legacy_Timely in Hy. rewrite Forall_forall in Hy.
        apply (Hy _ (nth_error_In _ _ Ei)). }
      rewrite E1 in HI1, Hr1, Hy1.
      destruct (Legacy_drain toLowerCase headings
                  (Legacy.setTimers (removeNth i (Legacy.timers st))
                     (Legacy.setNow (Legacy.now st + (due - Legacy.now st)) st)) u rest Ep Eq)
        as (_ & _ & Hq1 & _).
      destruct (IH _ g1 HI1 Hr1 Hy1) as (more & Hs & Hq & Hp & Hw).
      { unfold Legacy_todo. rewrite Hq1. simpl in Hn.
        match goal with |- context [if ?b then 1 else 0] => destruct b end; lia. }
      rewrite Hq1 in Hw.
      exists ([Tick (due - Legacy.now st); Fire i] ++ more).
      rewrite run_app_Legacy, E1. split; [exact Hs|]. split; [exact Hq|].
      split; [exact Hp|]. simpl List.length. simpl waited.
      match type of Hw with context [if ?b then 500 else 0] => destruct b end; lia.
Qed.

End PageProgress.

(* ================================================================= *)
(** * The text on show *)
(* ================================================================= *)

Lemma Hook_no_glowTimers : forall (P : Hook.UpdateQueueItem -> Prop) l,
  Hook_glowTimers l = [] ->
  Forall (fun t => match snd t with
                   | Hook.AnimationDone u => P u
                   | Hook.ProcessNext => True
                   end) l.
Proof.
  intros P l. induction l as [|[d c] l IH]; intro H; [constructor|].
  unfold Hook_glowTimers in H. simpl in H. destruct c as [u|]; simpl in H; [discriminate|].
  constructor; [exact I | apply IH, H].
Qed.

Lemma last_snoc : forall (A : Type) (l : list A) x d, last (l ++ [x]) d = x.
Proof.
  intros A l x d. induction l as [|a l IH]; [reflexivity|].
  simpl. destruct (l ++ [x]) eqn:E; [destruct l; discriminate | exact IH].
Qed.

Lemma Hook_Fresh_processNextUpdate : forall body st,
  (Hook.isProcessing st = false -> Hook_glowTimers (Hook.timers st) = []) ->
  Hook_Fresh body st -> Hook_Fresh body (Hook.processNextUpdate st).
Proof.
  intros body st Hg [Hs Hi Ht]. unfold Hook.processNextUpdate.
  destruct (Hook.isProcessing st) eqn:Ep; simpl orb.
  { constructor; [exact Hs | rewrite Ep; exact Hi | exact Ht]. }
  destruct (Hook.updateQueue st) as [|u rest] eqn:Eq; simpl.
  { constructor; [exact Hs | rewrite Ep; exact Hi | exact Ht]. }
  specialize (Hg eq_refl).
  destruct (Hook.sectionName u) as [[|c s]|];
    unfold Hook.scheduleNext, Hook.setTimeout; cbn; rewrite ?Eq;
    try (destruct rest; cbn);
    constructor; cbn; rewrite ?swaps_app; cbn; rewrite ?app_nil_r, ?last_snoc;
    try reflexivity; try (intros; reflexivity); try discriminate;
    try (apply Forall_app; split; [|repeat constructor]);
    apply Hook_no_glowTimers; exact Hg.
Qed.

Section Latest.
Variable JSON_parse : jsstring -> option SSEData.

Lemma Hook_Fresh_step : forall body st glow a,
  Hook_Inv st glow -> Hook_Fresh body st -> notInit JSON_parse a = true ->
  Hook_Fresh body (Hook.step JSON_parse st a).
Proof.
  intros body st glow a HI HF Ha.
  assert (Hg : Hook.isProcessing st = false -> Hook_glowTimers (Hook.timers st) = []).
  { intro Ep. pose proof HI as [_ Hb _ _ Ht _ _]. rewrite Ep in Hb.
    destruct glow; [discriminate | exact Ht]. }
  destruct a as [payload|i|ms]; simpl in *.
  - unfold Hook.onmessage. destruct (JSON_parse payload) as [data|].
    + destruct (type data); try discriminate.
      * unfold Hook.handleFileUpdated, Hook.scheduleFileUpdate.
        apply Hook_Fresh_processNextUpdate; [exact Hg|].
        destruct HF as [Hs Hi Ht]. constructor; assumption.
      * destruct HF as [Hs Hi Ht].
        destruct (pending data) as [[l|p]|]; constructor; assumption.
      * destruct HF as [Hs Hi Ht]. constructor; assumption.
      * exact HF.
    + destruct HF as [Hs Hi Ht]. constructor; assumption.
  - destruct (nth_error (Hook.timers st) i) as [[due cb]|] eqn:En; [|exact HF].
    destruct (due <=? Hook.now st); [|exact HF].
    pose proof (Hook_glowTimers_remove _ _ _ _ En) as Hrem.
    pose proof HF as [Hs Hi Ht].
    destruct cb as [u|]; simpl.
    + assert (Hu : Hook.newContent u = Hook.markdownContent st).
      { rewrite Forall_forall in Ht. apply (Ht _ (nth_error_In _ _ En)). }
      unfold Hook.animationDone, Hook.scheduleNext, Hook.setTimeout. cbn.
      destruct (Hook.updateQueue st) eqn:Eq; cbn; rewrite ?Eq; cbn;
        constructor; cbn; rewrite ?swaps_app; cbn; rewrite ?app_nil_r;
        try exact Hs; try (intros _; exact Hu);
        try (apply Forall_app; split; [|repeat constructor]);
        apply Forall_removeNth; exact Ht.
    + apply Hook_Fresh_processNextUpdate.
      * cbn. rewrite Hrem. exact Hg.
      * constructor; cbn; [exact Hs | exact Hi | apply Forall_removeNth; exact Ht].
  - destruct HF as [Hs Hi Ht]. constructor; assumption.
Qed.

Lemma Hook_Fresh_run : forall body acts st glow,
  Hook_Inv st glow -> Hook_Fresh body st -> forallb (notInit JSON_parse) acts = true ->
  Hook_Fresh body (Hook.run JSON_parse st acts).
Proof.
  intros body acts. induction acts as [|a acts IH]; intros st glow HI HF Ha; simpl.
  - exact HF.
  - simpl in Ha. apply andb_prop in Ha. destruct Ha as [Ha Hacts].
    destruct (Hook_Inv_step JSON_parse st glow a HI) as (glow1 & H1).
    apply (IH _ glow1 H1); [|exact Hacts].
    apply (Hook_Fresh_step body st glow a HI HF Ha).
Qed.

End Latest.

(** The hypothesis on [init] is needed: an [init] message that comes in
    while a section glows changes the text on show, and the end of the glow
    then sets the text to compare with back to the body that glowed. *)
Lemma init_during_glow_leaves_stale_baseline :
  let st := Hook.run reconnecting (Hook.start [])
              [Deliver (str "new"); Deliver (str "init"); Tick 500; Fire 0] in
  Hook.isProcessing st = false /\
  Hook.markdownContent st = str "# Old" /\
  Hook.baseline st = str "# New".
Proof. vm_compute. repeat split; reflexivity. Qed.


(** The round trip on a hook that shows an empty note with nothing
    pending. *)
Lemma pending_update_then_resolved_witness :
  Hook.run pendingStream (Hook.start [])
    [Deliver (str "created"); Deliver (str "resolved")] = Hook.start [].
Proof.
  refine (proj1 (pending_update_then_resolved toLowerASCII (fun _ => []) pendingStream
                   (str "created") (str "resolved") _ _ (samplePending "p1")
                   (Hook.start []) (Legacy.start [])
                   eq_refl eq_refl eq_refl eq_refl eq_refl eq_refl _ _));
    intros q [].
Defined.

(** The countdown two and a half seconds into a chunk, and a second
    later. *)
Lemma secondsLeft_counts_down_witness :
  (secondsLeft 2500 = 8 /\ secondsLeft 3500 <= secondsLeft 2500)%Z.
Proof.
  split; [reflexivity|].
  refine (proj1 (proj2 (proj2 (proj2
            (secondsLeft_counts_down 2500 3500 _ _))))); lia.
Defined.

(** The regular expression on the line "## Plan  ". *)
Lemma headersOf_single_line_witness :
  headersOf (str "## Plan  ") = [str "Plan"].
Proof.
  rewrite (headersOf_single_line (str "## Plan  ") eq_refl). reflexivity.
Defined.
